(** * Venom crawl orchestration: a shallow embedding and its properties

    The development follows the TypeScript sources:
    - [src/crawler/crawler.ts]  : URL normalisation, admission filter,
      link selection ([Crawler]);
    - [src/crawler/robots.ts]   : robots.txt gate with its per-domain cache;
    - [src/storage/database.ts] : the job and capture tables ([VenomDatabase]);
    - [src/queue/job-queue.ts]  : the frontier and the scheduler ([JobQueue]);
    - [src/venom.ts]            : the orchestrator ([Venom]).

    JavaScript strings are modelled by [string], exceptions by the
    [completion] type, the SQLite tables by lists of rows in insertion
    order, the visited set by a [gset string] and the robots cache by a
    [gmap]. *)

From Stdlib Require Import Ascii String NArith Lia.
From Stdlib Require Import Sorting.Sorted.
From stdpp Require Import base option list sorting gmap sets strings.

Local Open Scope stdpp_scope.

(** ** Exceptions

    A JavaScript expression either yields a value or throws.  [try_catch]
    is [try { body } catch { handler }] for a handler that ignores the
    exception value. *)

Inductive completion (A : Type) : Type :=
| Normal (a : A)
| Throw (message : string).

Arguments Normal {A} a.
Arguments Throw {A} message.

Definition cbind {A B} (c : completion A) (k : A → completion B) : completion B :=
  match c with
  | Normal a => k a
  | Throw e => Throw e
  end.

Notation "x ←! c ; k" := (cbind c (λ x, k))
  (at level 20, c at level 100, k at level 200, right associativity,
   format "x  ←!  c ;  '/' k").

Definition try_catch {A} (body : completion A) (handler : string → completion A)
  : completion A :=
  match body with
  | Normal a => Normal a
  | Throw e => handler e
  end.

Definition throws {A} (c : completion A) : Prop :=
  match c with
  | Normal _ => False
  | Throw _ => True
  end.

(** ** JavaScript string primitives used by the sources *)

Module JsString.

(** [s.startsWith(p)] *)
Fixpoint startsWith (p s : string) : bool :=
  match p, s with
  | EmptyString, _ => true
  | String a p', String b s' => if Ascii.eqb a b then startsWith p' s' else false
  | String _ _, EmptyString => false
  end.

(** [s.includes(d)]: [d] occurs in [s] as a contiguous substring. *)
Fixpoint includes (d s : string) : bool :=
  startsWith d s ||
  match s with
  | EmptyString => false
  | String _ s' => includes d s'
  end.

(** [s.endsWith(suf)] *)
Fixpoint endsWith (suf s : string) : bool :=
  String.eqb s suf ||
  match s with
  | EmptyString => false
  | String _ s' => endsWith suf s'
  end.

(** [s.slice(0, -1)]: all but the last character. *)
Fixpoint slice_0_m1 (s : string) : string :=
  match s with
  | EmptyString => EmptyString
  | String a EmptyString => EmptyString
  | String a s' => String a (slice_0_m1 s')
  end.

(** [s || null] on strings: the empty string is falsy. *)
Definition or_null (s : string) : option string :=
  if String.eqb s "" then None else Some s.

(** [x || null] on an optional string argument ([undefined] is falsy). *)
Definition opt_or_null (s : option string) : option string :=
  match s with
  | Some s => or_null s
  | None => None
  end.

Fixpoint join (sep : string) (l : list string) : string :=
  match l with
  | [] => ""
  | [x] => x
  | x :: l' => x +:+ sep +:+ join sep l'
  end.

End JsString.

(** ** The platform's [URL] class

    [new URL(s)] and the getters and setters of the resulting object belong
    to the JavaScript runtime, not to the repository.  A [URL] value below is
    the URL record of the WHATWG URL standard with its components already
    serialised, together with the list held by the associated
    [URLSearchParams] object.  The parser itself is an interface
    ([UrlPlatform]): the general results hold for every parser. *)

Record URL : Type := mkURL {
  scheme : string;                          (* lower case, without ":" *)
  username : string;
  password : string;
  host : option string;                     (* serialised host *)
  port : option string;                     (* serialised port, if not default *)
  pathname : string;                        (* serialised path *)
  query : option string;
  searchParams : list (string * string);    (* list of the URLSearchParams object *)
  fragment : option string
}.

Class UrlPlatform : Type := {
  (** [new URL(s)]: the URL object, or a [TypeError] *)
  URL_new : string → completion URL
}.

Module Url.

(** getter [protocol] *)
Definition protocol (u : URL) : string := scheme u +:+ ":".

(** getter [hostname] *)
Definition hostname (u : URL) : string := default "" (host u).

(** setter [hash = ''] : the fragment becomes null. *)
Definition clear_hash (u : URL) : URL :=
  mkURL (scheme u) (username u) (password u) (host u) (port u) (pathname u)
        (query u) (searchParams u) None.

Definition hex_digit (n : N) : ascii :=
  match n with
  | 0 => "0" | 1 => "1" | 2 => "2" | 3 => "3" | 4 => "4" | 5 => "5"
  | 6 => "6" | 7 => "7" | 8 => "8" | 9 => "9" | 10 => "A" | 11 => "B"
  | 12 => "C" | 13 => "D" | 14 => "E" | _ => "F"
  end%N%char.

(** Bytes left as they are by the application/x-www-form-urlencoded
    serialiser: ASCII alphanumerics and [*-._]. *)
Definition urlencoded_safe (c : ascii) : bool :=
  let n := N_of_ascii c in
  ((48 <=? n) && (n <=? 57) || (65 <=? n) && (n <=? 90) ||
   (97 <=? n) && (n <=? 122) ||
   (n =? 42) || (n =? 45) || (n =? 46) || (n =? 95))%N.

Fixpoint urlencode (s : string) : string :=
  match s with
  | EmptyString => EmptyString
  | String c s' =>
      if urlencoded_safe c then String c (urlencode s')
      else if Ascii.eqb c " " then String "+" (urlencode s')
      else let n := N_of_ascii c in
           String "%" (String (hex_digit (n / 16)) (String (hex_digit (n mod 16))
                  (urlencode s')))
  end.

(** The application/x-www-form-urlencoded serialiser. *)
Definition serialize_params (l : list (string * string)) : string :=
  JsString.join "&" (map (λ nv, urlencode nv.1 +:+ "=" +:+ urlencode nv.2) l).

(** [searchParams.delete(name)]: drop every pair named [name], then run the
    update steps, which write the serialised list back into the query (null
    when the serialisation is empty). *)
Definition searchParams_delete (name : string) (u : URL) : URL :=
  let l := filter (λ nv, nv.1 ≠ name) (searchParams u) in
  let q := serialize_params l in
  mkURL (scheme u) (username u) (password u) (host u) (port u) (pathname u)
        (if String.eqb q "" then None else Some q) l (fragment u).

(** [toString()] / [href]: the URL serialiser. *)
Definition href (u : URL) : string :=
  scheme u +:+ ":" +:+
  match host u with
  | Some h =>
      "//" +:+
      (if String.eqb (username u) "" && String.eqb (password u) "" then ""
       else username u +:+
            (if String.eqb (password u) "" then "" else ":" +:+ password u) +:+
            "@") +:+
      h +:+
      match port u with Some p => ":" +:+ p | None => "" end
  | None => if JsString.startsWith "//" (pathname u) then "/." else ""
  end +:+
  pathname u +:+
  match query u with Some q => "?" +:+ q | None => "" end +:+
  match fragment u with Some f => "#" +:+ f | None => "" end.

End Url.

(** ** Types ([src/types.ts]) *)

Inductive CaptureStatus : Type :=
| pending | crawling | processing | captioning | completed | failed.

Inductive JobPriority : Type := low | normal | high.

Global Instance CaptureStatus_eq_dec : EqDecision CaptureStatus.
Proof. solve_decision. Defined.

Global Instance JobPriority_eq_dec : EqDecision JobPriority.
Proof. solve_decision. Defined.

Record CrawlerConfig : Type := mkCrawlerConfig {
  maxDepth : Z;
  concurrency : nat;
  respectRobotsTxt : bool;
  userAgent : string;
  maxUrlsPerDomain : Z;
  allowedDomains : list string;
  blockedDomains : list string
}.

Record ExtractedLink : Type := mkLink {
  href : string;
  text : string;
  isInternal : bool
}.

(** The part of a [PageCapture] the orchestration engine reads. *)
Record PageCapture : Type := mkCapture {
  capture_id : nat;
  capture_url : string;
  normalizedUrl : string;
  domain : string;
  capture_depth : nat;
  links : list ExtractedLink     (* [capture.html.links] *)
}.

(** [l.slice(0, n)] for an integer [n]: a negative [n] counts from the end. *)
Definition slice_0 {A} (n : Z) (l : list A) : list A :=
  if (0 <=? n)%Z then take (Z.to_nat n) l
  else take (length l - Z.to_nat (- n)) l.

(** ** The crawler ([src/crawler/crawler.ts]) *)

Module Crawler.
Section Crawler.

Context `{UrlPlatform}.
Variable config : CrawlerConfig.

(** [normalizeUrl]: "Normalize a URL for deduplication". *)
Definition normalizeUrl (url : string) : completion string :=
try_catch
  (urlObj ←! URL_new url;
   let urlObj := Url.clear_hash urlObj in
   let urlObj := Url.searchParams_delete "utm_source" urlObj in
   let urlObj := Url.searchParams_delete "utm_medium" urlObj in
   let urlObj := Url.searchParams_delete "utm_campaign" urlObj in
   let urlObj := Url.searchParams_delete "utm_content" urlObj in
   let urlObj := Url.searchParams_delete "utm_term" urlObj in
   let urlObj := Url.searchParams_delete "ref" urlObj in
   let urlObj := Url.searchParams_delete "fbclid" urlObj in
   let urlObj := Url.searchParams_delete "gclid" urlObj in
   let normalized := Url.href urlObj in
   if JsString.endsWith "/" normalized && negb (String.eqb (pathname urlObj) "/")
   then Normal (JsString.slice_0_m1 normalized)
   else Normal normalized)
  (λ _, Normal url).

(** [getDomain]: "Extract domain from URL". *)
Definition getDomain (url : string) : completion string :=
try_catch
  (urlObj ←! URL_new url; Normal (Url.hostname urlObj))
  (λ _, Normal "").

(** [shouldCrawl]: the admission filter.  The [try] block either returns
  [false] from the function ([Some false]) or falls through ([None]). *)
Definition shouldCrawl (visitedUrls : gset string) (url : string) : completion bool :=
normalizedUrl ←! normalizeUrl url;
if bool_decide (normalizedUrl ∈ visitedUrls) then Normal false
else
  early ←! try_catch
    (urlObj ←! URL_new url;
     if negb (bool_decide (Url.protocol urlObj ∈ ["http:"; "https:"]))
     then Normal (Some false) else Normal None)
    (λ _, Normal (Some false));
  match early with
  | Some b => Normal b
  | None =>
      domain ←! getDomain url;
      if existsb (λ d, JsString.includes d domain) (blockedDomains config)
      then Normal false
      else if (0 <? length (allowedDomains config)) &&
              negb (existsb (λ d, JsString.includes d domain) (allowedDomains config))
      then Normal false
      else Normal true
  end.

(** [links.filter(link => link.isInternal && this.shouldCrawl(link.href))] *)
Fixpoint filter_links (visitedUrls : gset string) (ls : list ExtractedLink)
: completion (list ExtractedLink) :=
match ls with
| [] => Normal []
| link :: ls' =>
    keep ←! (if isInternal link then shouldCrawl visitedUrls (href link)
             else Normal false);
    rest ←! filter_links visitedUrls ls';
    Normal (if keep : bool then link :: rest else rest)
end.

(** [getLinksToFollow]: "Extract links from a capture for further crawling". *)
Definition getLinksToFollow (visitedUrls : gset string) (capture : PageCapture)
  (maxDepth : Z) : completion (list string) :=
if (maxDepth <=? Z.of_nat (capture_depth capture))%Z then Normal []
else
  kept ←! filter_links visitedUrls (links capture);
  Normal (slice_0 (maxUrlsPerDomain config) (map href kept)).

(** [markVisited] *)
Definition markVisited (visitedUrls : gset string) (url : string)
: completion (gset string) :=
n ←! normalizeUrl url; Normal ({[ n ]} ∪ visitedUrls).

(** [hasVisited] *)
Definition hasVisited (visitedUrls : gset string) (url : string) : completion bool :=
n ←! normalizeUrl url; Normal (bool_decide (n ∈ visitedUrls)).

(** [getVisitedCount] *)
Definition getVisitedCount (visitedUrls : gset string) : nat := size visitedUrls.

(** [clearVisited] *)
Definition clearVisited (visitedUrls : gset string) : gset string := ∅.

End Crawler.
End Crawler.

(** ** The link extractor ([src/processors/html-processor.ts], [extractLinks])

    The document is an input: [anchors] lists, in document order, the
    resolved [href] and the [textContent] of the elements that match
    [a[href]].  [trim] is [String.prototype.trim]. *)

Module HtmlProcessor.
Section HtmlProcessor.

Context `{UrlPlatform}.
Variable trim : string → string.

(** "Skip empty, javascript:, or mailto: links" *)
Definition skipped (href : string) : bool :=
String.eqb href "" || JsString.startsWith "javascript:" href ||
JsString.startsWith "mailto:" href || JsString.startsWith "tel:" href ||
JsString.startsWith "#" href.

(** [urlObj.hostname === domain || urlObj.hostname.endsWith('.' + domain)] *)
Definition is_internal (domain : string) (urlObj : URL) : bool :=
String.eqb (Url.hostname urlObj) domain ||
JsString.endsWith ("." +:+ domain) (Url.hostname urlObj).

(** The [forEach] over the anchors; [seen] is the set of hrefs met so far. *)
Fixpoint collect (domain : string) (seen : gset string)
  (anchors : list (string * string)) : list ExtractedLink :=
match anchors with
| [] => []
| (href, textContent) :: rest =>
    let text := String.substring 0 200 (trim textContent) in
    if skipped href then collect domain seen rest
    else if bool_decide (href ∈ seen) then collect domain seen rest
    else
      let seen := {[ href ]} ∪ seen in
      match URL_new href with
      | Normal urlObj =>
          mkLink href text (is_internal domain urlObj) :: collect domain seen rest
      | Throw _ => collect domain seen rest
      end
end.

(** [extractLinks(page, baseUrl)]: "Extract all links from the page" *)
Definition extractLinks (anchors : list (string * string)) (baseUrl : string)
: completion (list ExtractedLink) :=
baseUrlObj ←! URL_new baseUrl;
Normal (collect (Url.hostname baseUrlObj) ∅ anchors).

End HtmlProcessor.
End HtmlProcessor.

(** ** A reference [URL] parser for a fragment of the URL standard

    [SimpleUrl.parse] accepts absolute URLs written in an already canonical
    way, on which the standard's parser only cuts the input into components:
    - [scheme://host/path?query#fragment] for the special schemes http,
      https, ws, wss and ftp, with a host made of non-empty labels over
      [a-z0-9-] (the last one starting with a letter, none an A-label),
      no credentials and no port, a path over [A-Za-z0-9-._~/] without dot
      segments, a query over [A-Za-z0-9-._*=&] and a fragment over
      [A-Za-z0-9-._~/?=&];
    - [scheme:opaque] for any other scheme, with the opaque path over
      [A-Za-z0-9-._~@].
    Whenever it answers with a URL, that URL is the one the standard
    prescribes.  Everything else is rejected, so a rejection by this parser
    says nothing about inputs outside the fragment. It is used to run the
    sources on concrete URLs only. *)

Module SimpleUrl.

Definition code (c : ascii) : N := N_of_ascii c.

Definition is_lower (c : ascii) : bool := ((97 <=? code c) && (code c <=? 122))%N.
Definition is_upper (c : ascii) : bool := ((65 <=? code c) && (code c <=? 90))%N.
Definition is_digit (c : ascii) : bool := ((48 <=? code c) && (code c <=? 57))%N.
Definition is_alnum (c : ascii) : bool := is_lower c || is_upper c || is_digit c.

Definition one_of (set : string) (c : ascii) : bool :=
  existsb (Ascii.eqb c) (list_ascii_of_string set).

Fixpoint all_chars (p : ascii → bool) (s : string) : bool :=
  match s with
  | EmptyString => true
  | String c s' => p c && all_chars p s'
  end.

(** [break p s] cuts [s] in front of the first character satisfying [p]. *)
Fixpoint break (p : ascii → bool) (s : string) : string * string :=
  match s with
  | EmptyString => (EmptyString, EmptyString)
  | String c s' =>
      if p c then (EmptyString, s)
      else let '(a, b) := break p s' in (String c a, b)
  end.

(** [s.split(c)] *)
Fixpoint split_on (c : ascii) (s : string) : list string :=
  match s with
  | EmptyString => [EmptyString]
  | String a s' =>
      if Ascii.eqb a c then EmptyString :: split_on c s'
      else match split_on c s' with
           | [] => [String a EmptyString]
           | w :: ws => String a w :: ws
           end
  end.

Definition special_schemes : list string := ["http"; "https"; "ws"; "wss"; "ftp"].

Definition valid_scheme (s : string) : bool :=
  match s with
  | EmptyString => false
  | String c s' =>
      is_lower c && all_chars (λ a, is_lower a || is_digit a || one_of "+-." a) s'
  end.

Definition valid_label (l : string) : bool :=
  negb (String.eqb l "") && negb (JsString.startsWith "xn--" l) &&
  all_chars (λ a, is_lower a || is_digit a || one_of "-" a) l.

Definition valid_host (h : string) : bool :=
  let labels := split_on "." h in
  forallb valid_label labels &&
  match last labels with
  | Some (String c _) => is_lower c
  | _ => false
  end.

Definition valid_path (p : string) : bool :=
  all_chars (λ a, is_alnum a || one_of "-._~/" a) p &&
  forallb (λ seg, negb (String.eqb seg ".") && negb (String.eqb seg ".."))
          (split_on "/" p).

Definition valid_query (q : string) : bool :=
  all_chars (λ a, is_alnum a || one_of "-._*=&" a) q.

Definition valid_fragment (f : string) : bool :=
  all_chars (λ a, is_alnum a || one_of "-._~/?=&" a) f.

Definition valid_opaque (p : string) : bool :=
  all_chars (λ a, is_alnum a || one_of "-._~@" a) p.

(** The application/x-www-form-urlencoded parser on a query without
    [+] and [%]: cut at [&], skip empty pieces, cut each at its first [=]. *)
Definition parse_params (q : string) : list (string * string) :=
  omap (λ piece,
          if String.eqb piece "" then None
          else let '(n, v) := break (Ascii.eqb "=") piece in
               Some (n, match v with String _ v' => v' | EmptyString => EmptyString end))
       (split_on "&" q).

(** Query and fragment of the remainder [r] following the path. *)
Definition parse_tail (r : string) : option (option string * option string) :=
  let '(q, f) :=
    match r with
    | String "?" r' => let '(q, r'') := break (Ascii.eqb "#") r' in (Some q, r'')
    | _ => (None, r)
    end in
  let f := match f with String "#" f' => Some f' | _ => None end in
  if from_option valid_query true q && from_option valid_fragment true f
  then Some (q, f) else None.

Definition parse (s : string) : option URL :=
  let '(sch, r) := break (Ascii.eqb ":") s in
  match r with
  | String ":" r =>
      if negb (valid_scheme sch) then None
      else if bool_decide (sch ∈ special_schemes) then
        match r with
        | String "/" (String "/" r) =>
            let '(h, r) := break (one_of "/?#") r in
            let '(p, r) := break (one_of "?#") r in
            if valid_host h && valid_path p then
              '(q, f) ← parse_tail r;
              Some (mkURL sch "" "" (Some h) None
                          (if String.eqb p "" then "/" else p)
                          q (from_option parse_params [] q) f)
            else None
        | _ => None
        end
      else
        let '(p, r) := break (one_of "?#") r in
        if valid_opaque p && negb (String.eqb p "") then
          '(q, f) ← parse_tail r;
          Some (mkURL sch "" "" None None p q (from_option parse_params [] q) f)
        else None
  | _ => None
  end.

Definition new (s : string) : completion URL :=
  match parse s with
  | Some u => Normal u
  | None => Throw "TypeError: Invalid URL"
  end.

End SimpleUrl.

Global Instance simple_platform : UrlPlatform := {| URL_new := SimpleUrl.new |}.

(** ** The store ([src/storage/database.ts])

    A [CrawlJob] is also the row of the [jobs] table: [rowToJob] and the
    [INSERT] of [addJob] only rename the fields and turn empty optional
    strings into [null].  Identifiers produced by [randomUUID] are modelled
    by naturals, timestamps by a number of milliseconds; on ISO-8601 texts of
    equal length the textual order of [created_at] is the numeric one. *)

Record CrawlJob : Type := mkJob {
  job_id : nat;
  url : string;
  depth : nat;
  parentUrl : option string;
  priority : JobPriority;
  status : CaptureStatus;
  retryCount : nat;
  errorMessage : option string;
  createdAt : nat;
  updatedAt : nat
}.

Record Database : Type := mkDatabase {
  jobs : list CrawlJob;            (* table [jobs], in insertion order *)
  captures : list PageCapture      (* table [captures], in insertion order *)
}.

Module VenomDatabase.

Definition empty : Database := mkDatabase [] [].

(** [INSERT OR REPLACE INTO captures]: rows in conflict on the primary key
    [id] or on the unique column [normalized_url] are deleted first. *)
Definition saveCapture (capture : PageCapture) (db : Database) : Database :=
  mkDatabase (jobs db)
    (filter (λ c, capture_id c ≠ capture_id capture ∧
                  normalizedUrl c ≠ normalizedUrl capture) (captures db)
     ++ [capture]).

(** [getCapture(id)]: [SELECT * FROM captures WHERE id = ?], first row.
    [rowToCapture] reads the links back from table [links] by the id of the
    capture, where [saveCapture] rewrote them under that id: they are kept
    here with the capture. *)
Definition getCapture (id : nat) (db : Database) : option PageCapture :=
  List.find (λ c, capture_id c =? id) (captures db).

(** [getCaptureByUrl(url)]: [SELECT * FROM captures WHERE normalized_url = ?],
    first row. *)
Definition getCaptureByUrl (u : string) (db : Database) : option PageCapture :=
  List.find (λ c, String.eqb (normalizedUrl c) u) (captures db).

(** [INSERT OR IGNORE INTO jobs]: ignored when the primary key [id] exists. *)
Definition addJob (job : CrawlJob) (db : Database) : Database :=
  if existsb (λ j, job_id j =? job_id job) (jobs db) then db
  else mkDatabase
         (jobs db ++
          [mkJob (job_id job) (url job) (depth job)
                 (JsString.opt_or_null (parentUrl job)) (priority job) (status job)
                 (retryCount job) (JsString.opt_or_null (errorMessage job))
                 (createdAt job) (updatedAt job)])
         (captures db).

(** [CASE priority WHEN 'high' THEN 1 WHEN 'normal' THEN 2 ELSE 3 END] *)
Definition priority_rank (p : JobPriority) : nat :=
  match p with
  | high => 1
  | normal => 2
  | low => 3
  end.

(** The [ORDER BY] key comparison: rank first, then [created_at ASC]. *)
Definition job_leb (a b : CrawlJob) : bool :=
  (priority_rank (priority a) <? priority_rank (priority b)) ||
  ((priority_rank (priority a) =? priority_rank (priority b)) &&
   (createdAt a <=? createdAt b)).

(** [ORDER BY] as a stable insertion sort: rows with equal keys stay in
    table order. *)
Fixpoint insert_sorted (j : CrawlJob) (l : list CrawlJob) : list CrawlJob :=
  match l with
  | [] => [j]
  | k :: l' => if job_leb j k then j :: l else k :: insert_sorted j l'
  end.

Fixpoint order_by (l : list CrawlJob) : list CrawlJob :=
  match l with
  | [] => []
  | j :: l' => insert_sorted j (order_by l')
  end.

Definition is_pending (j : CrawlJob) : bool := bool_decide (status j = pending).

(** [getPendingJobs(limit)] *)
Definition getPendingJobs (limit : nat) (db : Database) : list CrawlJob :=
  take limit (order_by (List.filter is_pending (jobs db))).

(** [getNextJob()] *)
Definition getNextJob (db : Database) : option CrawlJob :=
  head (getPendingJobs 1 db).

(** The row after [SET status = ?, error_message = ?, updated_at = ?] *)
Definition set_status (st : CaptureStatus) (errorMessage : option string) (now : nat)
    (j : CrawlJob) : CrawlJob :=
  mkJob (job_id j) (url j) (depth j) (parentUrl j) (priority j)
        st (retryCount j) (JsString.opt_or_null errorMessage) (createdAt j) now.

(** The row after [SET retry_count = retry_count + 1, updated_at = ?] *)
Definition bump_retry (now : nat) (j : CrawlJob) : CrawlJob :=
  mkJob (job_id j) (url j) (depth j) (parentUrl j) (priority j)
        (status j) (retryCount j + 1) (errorMessage j) (createdAt j) now.

(** [updateJobStatus(jobId, status, errorMessage?)] at time [now] *)
Definition updateJobStatus (jobId : nat) (st : CaptureStatus)
    (errorMessage : option string) (now : nat) (db : Database) : Database :=
  mkDatabase
    (map (λ j, if job_id j =? jobId then set_status st errorMessage now j else j)
         (jobs db))
    (captures db).

(** [incrementJobRetry(jobId)] at time [now] *)
Definition incrementJobRetry (jobId : nat) (now : nat) (db : Database) : Database :=
  mkDatabase
    (map (λ j, if job_id j =? jobId then bump_retry now j else j) (jobs db))
    (captures db).

(** [urlExists(url)]: "Check if a URL is already in the queue or captured". *)
Definition urlExists (u : string) (db : Database) : bool :=
  existsb (λ j, String.eqb (url j) u) (jobs db) ||
  existsb (λ c, String.eqb (normalizedUrl c) u) (captures db).

Definition count_status (st : CaptureStatus) (db : Database) : nat :=
  length (List.filter (λ j, bool_decide (status j = st)) (jobs db)).

(** [getJobStats()]: (pending, completed, failed) *)
Definition getJobStats (db : Database) : nat * nat * nat :=
  (count_status pending db, count_status completed db, count_status failed db).

Definition find_job (jobId : nat) (db : Database) : option CrawlJob :=
  List.find (λ j, job_id j =? jobId) (jobs db).

End VenomDatabase.

(** ** The frontier ([src/queue/job-queue.ts], [addUrl])

    [addUrl] reads [randomUUID()] and the clock; both are inputs here. *)

Module JobQueue.

Definition addUrl (u : string) (depth : nat) (parentUrl : option string)
    (priority : JobPriority) (uuid now : nat) (db : Database)
  : option CrawlJob * Database :=
  if VenomDatabase.urlExists u db then (None, db)
  else
    let job := mkJob uuid u depth parentUrl priority pending 0 None now now in
    (Some job, VenomDatabase.addJob job db).

(** The loop body of [process] for one job of the batch: "Mark as crawling". *)
Definition dispatch (job : CrawlJob) (now : nat) (db : Database) : Database :=
  VenomDatabase.updateJobStatus (job_id job) crawling None now db.

(** The task body after [await handler(job)] returned normally. *)
Definition on_success (job : CrawlJob) (now : nat) (db : Database) : Database :=
  VenomDatabase.updateJobStatus (job_id job) completed None now db.

(** The [catch] block of the task: [job] is the object fetched by
    [getPendingJobs], so [job.retryCount] is the count before the increment. *)
Definition on_failure (maxRetries : nat) (job : CrawlJob) (errorMessage : string)
    (now : nat) (db : Database) : Database :=
  let db := VenomDatabase.incrementJobRetry (job_id job) now db in
  if retryCount job <? maxRetries
  then VenomDatabase.updateJobStatus (job_id job) pending (Some errorMessage) now db
  else VenomDatabase.updateJobStatus (job_id job) failed (Some errorMessage) now db.

End JobQueue.

(** ** The scheduler and the orchestrator
    ([JobQueue.process] in [src/queue/job-queue.ts], [Venom] in [src/venom.ts])

    JavaScript runs the code between two [await]s without interruption.  The
    crawl is therefore a transition system whose events are these
    uninterrupted segments; the data chosen by the outside world (what the
    renderer answers, whether the captioner succeeds, how much time passes)
    travels with the event.  The browser context is taken to be initialised
    ([Venom.init] precedes [Venom.crawl]) and the store not to fail. *)

Record CrawlStats : Type := mkStats {
  urlsDiscovered : nat;
  urlsCrawled : nat;
  urlsFailed : nat;
  urlsSkipped : nat;
  screenshotsTaken : nat;
  captionsGenerated : nat
}.

(** Where the handler of a started task is suspended. *)
Inductive Phase : Type :=
| Delaying                             (* [await this.delay(rateLimit)] *)
| Fetching                             (* inside [await this.crawler.crawlUrl(..)] *)
| AwaitCaption (capture : PageCapture) (* [await this.captioner.caption(capture)] *)
| Returned                             (* the handler's promise is fulfilled *)
| Threw (message : string).            (* the handler's promise is rejected *)

Record Task : Type := mkTask {
  task_job : CrawlJob;   (* the job object captured by the closure *)
  phase : Phase
}.

Record State : Type := mkState {
  database : Database;          (* [VenomDatabase] *)
  visitedUrls : gset string;    (* [Crawler.visitedUrls] *)
  stats : CrawlStats;           (* [Venom.stats] *)
  crawledSoFar : nat;           (* the local [urlsCrawled] of [Venom.crawl] *)
  isProcessing : bool;          (* [JobQueue.isProcessing] *)
  isPaused : bool;              (* the [PQueue] is paused *)
  queued : list CrawlJob;       (* [PQueue]: tasks added, not started ([queue.size]) *)
  active : list Task;           (* [PQueue]: tasks started ([queue.pending]) *)
  next_uuid : nat;              (* supply of [randomUUID()] *)
  clock : nat                   (* [new Date()] *)
}.

Record CrawlOptions : Type := mkOptions {
  captionOnCrawl : bool;
  maxUrls : option Z;
  hasCaptioner : bool;     (* [this.captioner] is not null *)
  maxRetries : nat         (* [JobQueue.maxRetries] *)
}.

Inductive Event : Type :=
| Tick (dt : nat)                         (* time passes *)
| Poll                                    (* one round of the [while] loop of [process] *)
| Finish                                  (* the loop finds nothing left and exits *)
| Start                                   (* the [PQueue] starts its oldest task *)
| CrawlBegin (jobId : nat)                (* the rate-limit delay is over *)
| CrawlNull (jobId : nat)                 (* [crawlUrl] resolves to [null] *)
| CrawlThrow (jobId : nat) (message : string)          (* [crawlUrl] rejects *)
| CrawlCapture (jobId : nat) (found : list ExtractedLink) (* [crawlUrl] resolves *)
| CaptionDone (jobId : nat) (ok : bool)   (* the captioner resolves or rejects *)
| Complete (jobId : nat)                  (* the task resumes after a fulfilled handler *)
| Fail (jobId : nat).                     (* the task resumes in its [catch] block *)

Module Venom.
Section Venom.

Context `{UrlPlatform}.
Variable config : CrawlerConfig.
Variable options : CrawlOptions.

Definition with_database (f : Database → Database) (s : State) : State :=
mkState (f (database s)) (visitedUrls s) (stats s) (crawledSoFar s)
        (isProcessing s) (isPaused s) (queued s) (active s) (next_uuid s) (clock s).

Definition with_stats (f : CrawlStats → CrawlStats) (s : State) : State :=
mkState (database s) (visitedUrls s) (f (stats s)) (crawledSoFar s)
        (isProcessing s) (isPaused s) (queued s) (active s) (next_uuid s) (clock s).

Definition with_active (f : list Task → list Task) (s : State) : State :=
mkState (database s) (visitedUrls s) (stats s) (crawledSoFar s)
        (isProcessing s) (isPaused s) (queued s) (f (active s)) (next_uuid s) (clock s).

Definition discovered (st : CrawlStats) : CrawlStats :=
mkStats (urlsDiscovered st + 1) (urlsCrawled st) (urlsFailed st) (urlsSkipped st)
        (screenshotsTaken st) (captionsGenerated st).

Definition crawled (st : CrawlStats) : CrawlStats :=
mkStats (urlsDiscovered st) (urlsCrawled st + 1) (urlsFailed st) (urlsSkipped st)
        (screenshotsTaken st + 1) (captionsGenerated st).

Definition failed_one (st : CrawlStats) : CrawlStats :=
mkStats (urlsDiscovered st) (urlsCrawled st) (urlsFailed st + 1) (urlsSkipped st)
        (screenshotsTaken st) (captionsGenerated st).

Definition skipped (st : CrawlStats) : CrawlStats :=
mkStats (urlsDiscovered st) (urlsCrawled st) (urlsFailed st) (urlsSkipped st + 1)
        (screenshotsTaken st) (captionsGenerated st).

Definition captioned (st : CrawlStats) : CrawlStats :=
mkStats (urlsDiscovered st) (urlsCrawled st) (urlsFailed st) (urlsSkipped st)
        (screenshotsTaken st) (captionsGenerated st + 1).

(** [const job = this.queue.addUrl(..); if (job) this.stats.urlsDiscovered++] *)
Definition enqueue (u : string) (depth : nat) (parentUrl : option string)
  (priority : JobPriority) (s : State) : State :=
match JobQueue.addUrl u depth parentUrl priority (next_uuid s) (clock s) (database s) with
| (Some _, db) =>
    mkState db (visitedUrls s) (discovered (stats s)) (crawledSoFar s)
            (isProcessing s) (isPaused s) (queued s) (active s)
            (S (next_uuid s)) (clock s)
| (None, _) => s
end.

(** [addSeeds(urls)] *)
Definition addSeeds (urls : list string) (s : State) : State :=
foldl (λ s u, enqueue u 0 None high s) s urls.

(** The state after [new Venom(config, logger)] on an empty store. *)
Definition initial : State :=
mkState VenomDatabase.empty ∅ (mkStats 0 0 0 0 0 0) 0 false false [] [] 0 0.

(** The entry of [crawl] and of [process]: [this.isProcessing = true;
  this.queue.start()]. *)
Definition start_crawl (s : State) : State :=
mkState (database s) (visitedUrls s) (stats s) 0 true false
        (queued s) (active s) (next_uuid s) (clock s).

Definition find_task (jobId : nat) (s : State) : option Task :=
List.find (λ t, job_id (task_job t) =? jobId) (active s).

Definition set_phase (jobId : nat) (ph : Phase) (s : State) : State :=
with_active (map (λ t, if job_id (task_job t) =? jobId
                       then mkTask (task_job t) ph else t)) s.

Definition remove_task (jobId : nat) (s : State) : State :=
with_active (List.filter (λ t, negb (job_id (task_job t) =? jobId))) s.

(** "Add discovered links to queue" *)
Definition follow_links (job : CrawlJob) (capture : PageCapture) (s : State)
: completion State :=
if (Z.of_nat (depth job) <? maxDepth config)%Z then
  found ←! Crawler.getLinksToFollow config (visitedUrls s) capture (maxDepth config);
  Normal (foldl (λ s link, enqueue link (depth job + 1) (Some (url job)) normal s)
                s found)
else Normal s.

(** The end of the handler's outer [try]: the handler returns, or the
  [catch] counts a failure and rethrows. *)
Definition finish_handler (job : CrawlJob) (s : State) (r : completion State) : State :=
match r with
| Normal s' => set_phase (job_id job) Returned s'
| Throw e => set_phase (job_id job) (Threw e) (with_stats failed_one s)
end.

(** [maxUrls && urlsCrawled >= maxUrls] *)
Definition limit_reached (s : State) : bool :=
match maxUrls options with
| Some m => negb (m =? 0)%Z && (m <=? Z.of_nat (crawledSoFar s))%Z
| None => false
end.

Definition exec (e : Event) (s : State) : option State :=
match e with
| Tick dt =>
    Some (mkState (database s) (visitedUrls s) (stats s) (crawledSoFar s)
                  (isProcessing s) (isPaused s) (queued s) (active s)
                  (next_uuid s) (clock s + dt))
| Poll =>
    if isProcessing s then
      let batch := VenomDatabase.getPendingJobs 10 (database s) in
      Some (foldl (λ s job,
                     mkState (JobQueue.dispatch job (clock s) (database s))
                             (visitedUrls s) (stats s) (crawledSoFar s)
                             (isProcessing s) (isPaused s) (queued s ++ [job])
                             (active s) (next_uuid s) (clock s))
                  s batch)
    else None
| Finish =>
    if isProcessing s &&
       bool_decide (VenomDatabase.getPendingJobs 1 (database s) = []) &&
       bool_decide (queued s = []) && bool_decide (active s = [])
    then Some (mkState (database s) (visitedUrls s) (stats s) (crawledSoFar s)
                       false (isPaused s) (queued s) (active s)
                       (next_uuid s) (clock s))
    else None
| Start =>
    match queued s with
    | job :: rest =>
        if negb (isPaused s) && (length (active s) <? concurrency config) then
          if limit_reached s then
            (* [this.queue.stop(); return] *)
            Some (mkState (database s) (visitedUrls s) (stats s) (crawledSoFar s)
                          false true rest (active s ++ [mkTask job Returned])
                          (next_uuid s) (clock s))
          else
            Some (mkState (database s) (visitedUrls s) (stats s) (crawledSoFar s)
                          (isProcessing s) (isPaused s) rest
                          (active s ++ [mkTask job Delaying])
                          (next_uuid s) (clock s))
        else None
    | [] => None
    end
| CrawlBegin jobId =>
    match find_task jobId s with
    | Some (mkTask job Delaying) =>
        (* [crawlUrl]: "Mark as visited" *)
        match Crawler.markVisited (visitedUrls s) (url job) with
        | Normal visited =>
            Some (set_phase jobId Fetching
                    (mkState (database s) visited (stats s) (crawledSoFar s)
                             (isProcessing s) (isPaused s) (queued s) (active s)
                             (next_uuid s) (clock s)))
        | Throw e => Some (finish_handler job s (Throw e))
        end
    | _ => None
    end
| CrawlNull jobId =>
    match find_task jobId s with
    | Some (mkTask job Fetching) =>
        (* [if (!capture) { this.stats.urlsSkipped++; return; }] *)
        Some (finish_handler job s (Normal (with_stats skipped s)))
    | _ => None
    end
| CrawlThrow jobId message =>
    match find_task jobId s with
    | Some (mkTask job Fetching) => Some (finish_handler job s (Throw message))
    | _ => None
    end
| CrawlCapture jobId found =>
    match find_task jobId s with
    | Some (mkTask job Fetching) =>
        match Crawler.normalizeUrl (url job), Crawler.getDomain (url job) with
        | Normal n, Normal d =>
            (* two [randomUUID()]: the screenshot, then the capture *)
            let capture := mkCapture (S (next_uuid s)) (url job) n d (depth job) found in
            let s1 :=
              mkState (VenomDatabase.saveCapture capture (database s))
                      (visitedUrls s) (crawled (stats s)) (crawledSoFar s + 1)
                      (isProcessing s) (isPaused s) (queued s) (active s)
                      (S (S (next_uuid s))) (clock s) in
            if captionOnCrawl options && hasCaptioner options
            then Some (set_phase jobId (AwaitCaption capture) s1)
            else Some (finish_handler job s1 (follow_links job capture s1))
        | Throw e, _ | _, Throw e => Some (finish_handler job s (Throw e))
        end
    | _ => None
    end
| CaptionDone jobId ok =>
    match find_task jobId s with
    | Some (mkTask job (AwaitCaption capture)) =>
        let s1 := if ok then with_stats captioned s else s in
        Some (finish_handler job s1 (follow_links job capture s1))
    | _ => None
    end
| Complete jobId =>
    match find_task jobId s with
    | Some (mkTask job Returned) =>
        Some (remove_task jobId
                (with_database (JobQueue.on_success job (clock s)) s))
    | _ => None
    end
| Fail jobId =>
    match find_task jobId s with
    | Some (mkTask job (Threw message)) =>
        Some (remove_task jobId
                (with_database
                   (JobQueue.on_failure (maxRetries options) job message (clock s)) s))
    | _ => None
    end
end.

(** A run: events applied from left to right, all of them enabled. *)
Fixpoint run (es : list Event) (s : State) : option State :=
match es with
| [] => Some s
| e :: es' => s' ← exec e s; run es' s'
end.

(** The states a crawl can be in after seeding an empty store. *)
Definition reachable (seeds : list string) (s : State) : Prop :=
∃ es, run es (start_crawl (addSeeds seeds initial)) = Some s.

End Venom.
End Venom.

(** ** The robots.txt gate ([src/crawler/robots.ts])

    The package [robots-parser] is an interface: a type of parsed files with
    its three queries.  [fetch] is the network: its answer may depend on the
    requests made so far.  The module-level [robotsCache] and the log of the
    requests sent make up the state. *)

Inductive FetchOutcome : Type :=
| NetworkError (message : string)                        (* [fetch] rejects *)
| Response (ok : bool) (status : nat) (body : completion string).
                                   (* [response.ok], [.status], [await .text()] *)

Record RobotsTxtResult : Type := mkRobotsResult {
  isAllowed : bool;
  crawlDelay : option nat;
  sitemaps : list string
}.

Module Robots.
Section Robots.

Context `{UrlPlatform}.
Variable Parser : Type.
Variable robotsParser : string → string → Parser.
Variable parser_isAllowed : Parser → string → string → option bool.
Variable parser_getCrawlDelay : Parser → string → option nat.
Variable parser_getSitemaps : Parser → list string.
Variable network : list string → string → FetchOutcome.

Record RobotsState : Type := mkRobotsState {
robotsCache : gmap string Parser;
requests : list string          (* URLs passed to [fetch], oldest first *)
}.

Definition robotsUrl (domain : string) : string :=
"https://" +:+ domain +:+ "/robots.txt".

(** [fetchRobotsTxt]: "Fetches and parses robots.txt for a domain" *)
Definition fetchRobotsTxt (domain userAgent : string) (st : RobotsState)
: option Parser * RobotsState :=
match robotsCache st !! domain with
| Some parser => (Some parser, st)
| None =>
    let sent := mkRobotsState (robotsCache st) (requests st ++ [robotsUrl domain]) in
    match network (requests st) (robotsUrl domain) with
    | NetworkError _ => (None, sent)
    | Response ok status body =>
        if negb ok then (None, sent)
        else match body with
             | Throw _ => (None, sent)
             | Normal robotsTxt =>
                 let parser := robotsParser (robotsUrl domain) robotsTxt in
                 (Some parser,
                  mkRobotsState (<[domain := parser]> (robotsCache st)) (requests sent))
             end
    end
end.

(** [checkRobotsTxt]: "Checks if a URL is allowed according to robots.txt" *)
Definition checkRobotsTxt (url userAgent : string) (st : RobotsState)
: completion RobotsTxtResult * RobotsState :=
match URL_new url with
| Throw e => (Throw e, st)
| Normal urlObj =>
    let domain := Url.hostname urlObj in
    match fetchRobotsTxt domain userAgent st with
    | (None, st') => (Normal (mkRobotsResult true None []), st')
    | (Some parser, st') =>
        (Normal (mkRobotsResult
                   (default true (parser_isAllowed parser url userAgent))
                   (match parser_getCrawlDelay parser userAgent with
                    | Some d => if d =? 0 then None else Some d
                    | None => None
                    end)
                   (parser_getSitemaps parser)),
         st')
    end
end.

(** [clearRobotsCache] *)
Definition clearRobotsCache (st : RobotsState) : RobotsState :=
mkRobotsState ∅ (requests st).

(** [getCachedRobots] *)
Definition getCachedRobots (domain : string) (st : RobotsState) : option Parser :=
robotsCache st !! domain.

(** [Crawler.checkRobots] ([src/crawler/crawler.ts]): "Check robots.txt for a
  URL" *)
Definition checkRobots (config : CrawlerConfig) (url : string) (st : RobotsState)
: completion bool * RobotsState :=
if negb (respectRobotsTxt config) then (Normal true, st)
else
  match checkRobotsTxt url (userAgent config) st with
  | (Normal result, st') => (Normal (isAllowed result), st')
  | (Throw e, st') => (Throw e, st')
  end.

(** The fetch did not produce a robots.txt: the request failed, or the
  response is not a success. *)
Definition fetch_failed (o : FetchOutcome) : bool :=
match o with
| NetworkError _ => true
| Response ok _ _ => negb ok
end.

End Robots.
End Robots.

(** * Specification vocabulary *)

(** [d] occurs in [s] as a contiguous substring. *)
Definition substring_of (d s : string) : Prop := ∃ a b, s = a +:+ d +:+ b.

(** The query parameters removed by [normalizeUrl]. *)
Definition tracking_params : list string :=
  ["utm_source"; "utm_medium"; "utm_campaign"; "utm_content"; "utm_term";
   "ref"; "fbclid"; "gclid"].

(** What [normalizeUrl] returns for a URL that parses to [u]. *)
Definition canonical (u : URL) : string :=
  let u' := foldl (λ u name, Url.searchParams_delete name u) (Url.clear_hash u)
                  tracking_params in
  let normalized := Url.href u' in
  if JsString.endsWith "/" normalized && negb (String.eqb (pathname u') "/")
  then JsString.slice_0_m1 normalized else normalized.

(** The scheme test of [shouldCrawl] fails: the URL does not parse, or its
    protocol is neither [http:] nor [https:]. *)
Definition scheme_rejected `{UrlPlatform} (url : string) : Prop :=
  match URL_new url with
  | Normal u => Url.protocol u ≠ "http:" ∧ Url.protocol u ≠ "https:"
  | Throw _ => True
  end.

(** The four reasons for which the admission filter rejects a URL whose
    normalised form is [n] and whose hostname is [dom]. *)
Definition rejected `{UrlPlatform} (config : CrawlerConfig) (visited : gset string)
    (url n dom : string) : Prop :=
  n ∈ visited ∨
  scheme_rejected url ∨
  (∃ d, d ∈ blockedDomains config ∧ substring_of d dom) ∨
  (allowedDomains config ≠ [] ∧
   ∀ d, d ∈ allowedDomains config → ¬ substring_of d dom).

(** The order of the pending-job query: priority tier first, then creation
    time. *)
Definition job_le (a b : CrawlJob) : Prop :=
  VenomDatabase.priority_rank (priority a) < VenomDatabase.priority_rank (priority b) ∨
  (VenomDatabase.priority_rank (priority a) = VenomDatabase.priority_rank (priority b) ∧
   createdAt a ≤ createdAt b).

(** The effect of one polling round on the store: every job of the batch is
    marked as crawling, in batch order. *)
Definition dispatch_all (batch : list CrawlJob) (now : nat) (db : Database) : Database :=
  foldl (λ db job, JobQueue.dispatch job now db) db batch.

(** The jobs handed to the task queue and not yet finished: tasks waiting
    in the queue and tasks started. *)
Definition inflight (s : State) : list CrawlJob := queued s ++ map task_job (active s).

(** The columns of a job row that no operation of the scheduler changes. *)
Definition same_job (a b : CrawlJob) : Prop :=
  job_id b = job_id a ∧ url b = url a ∧ depth b = depth a ∧
  parentUrl b = parentUrl a ∧ priority b = priority a ∧ createdAt b = createdAt a.

(** The state machine of a job row: what one event, happening at time
    [now], can do to it. *)
Inductive row_step (maxRetries now : nat) : CrawlJob → CrawlJob → Prop :=
| rs_same row :
    row_step maxRetries now row row
| rs_dispatch row :
    status row = pending →
    row_step maxRetries now row (VenomDatabase.set_status crawling None now row)
| rs_complete row :
    status row = crawling →
    row_step maxRetries now row (VenomDatabase.set_status completed None now row)
| rs_requeue row message :
    status row = crawling → retryCount row < maxRetries →
    row_step maxRetries now row
      (VenomDatabase.set_status pending (Some message) now
         (VenomDatabase.bump_retry now row))
| rs_give_up row message :
    status row = crawling → retryCount row = maxRetries →
    row_step maxRetries now row
      (VenomDatabase.set_status failed (Some message) now
         (VenomDatabase.bump_retry now row)).

(** The invariant of the crawl. *)
Record Inv (maxRetries : nat) (s : State) : Prop := mkInv {
  inv_ids : NoDup (map job_id (jobs (database s)));
  inv_urls : NoDup (map url (jobs (database s)));
  inv_inflight_ids : NoDup (map job_id (inflight s));
  inv_inflight_rows : ∀ t, t ∈ inflight s →
    ∃ row, VenomDatabase.find_job (job_id t) (database s) = Some row ∧
           status row = crawling ∧ retryCount row = retryCount t;
  inv_retries : ∀ i row, VenomDatabase.find_job i (database s) = Some row →
    status row = pending ∨ status row = crawling → retryCount row ≤ maxRetries
}.

(** [db'] is [db] with new pending jobs appended. *)
Definition extends (db db' : Database) : Prop :=
  ∃ new, jobs db' = jobs db ++ new ∧
         Forall (λ j, status j = pending ∧ retryCount j = 0) new ∧
         (NoDup (map job_id (jobs db)) → NoDup (map job_id (jobs db'))) ∧
         (NoDup (map url (jobs db)) → NoDup (map url (jobs db'))).

(** What one event does to the job table and to the jobs in flight. *)
Inductive effect (maxRetries : nat) (s s' : State) : Prop :=
| eff_frame :
    extends (database s) (database s') → inflight s' ≡ₚ inflight s →
    effect maxRetries s s'
| eff_poll :
    database s' = dispatch_all (VenomDatabase.getPendingJobs 10 (database s))
                               (clock s) (database s) →
    inflight s' ≡ₚ inflight s ++ VenomDatabase.getPendingJobs 10 (database s) →
    effect maxRetries s s'
| eff_complete job :
    job ∈ inflight s →
    database s' = JobQueue.on_success job (clock s) (database s) →
    inflight s' `sublist_of` inflight s →
    (∀ t, t ∈ inflight s' → job_id t ≠ job_id job) →
    (∀ t, t ∈ inflight s → job_id t ≠ job_id job → t ∈ inflight s') →
    effect maxRetries s s'
| eff_fail job message :
    job ∈ inflight s →
    database s' = JobQueue.on_failure maxRetries job message (clock s) (database s) →
    inflight s' `sublist_of` inflight s →
    (∀ t, t ∈ inflight s' → job_id t ≠ job_id job) →
    (∀ t, t ∈ inflight s → job_id t ≠ job_id job → t ∈ inflight s') →
    effect maxRetries s s'.

(** The row written by the [catch] block of a task whose closure holds
    [job]: the retry count goes up by one, the message is recorded, and the
    status depends on the retry count the closure saw. *)
Definition failure_row (maxRetries : nat) (job : CrawlJob) (message : string)
    (now : nat) (row : CrawlJob) : CrawlJob :=
  VenomDatabase.set_status
    (if retryCount job <? maxRetries then pending else failed)
    (Some message) now (VenomDatabase.bump_retry now row).

(** What the retry policy allows a row to look like. *)
Definition well_counted (maxRetries : nat) (row : CrawlJob) : Prop :=
  match status row with
  | pending | crawling | completed => retryCount row ≤ maxRetries
  | failed => retryCount row = maxRetries + 1
  | processing | captioning => False
  end.

(** Configuration, options and a seeded crawl used to run the model on
    concrete inputs. *)
Definition demo_config : CrawlerConfig :=
  mkCrawlerConfig 2 3 true "Venom/1.0" 100 [] [].

Definition demo_options : CrawlOptions := mkOptions false None false 3.

Definition demo_seeded : State :=
  Venom.start_crawl (Venom.addSeeds ["https://a.com/"] Venom.initial).

Definition demo_job : CrawlJob := mkJob 0 "https://a.com/" 0 None high pending 0 None 0 0.

Definition demo_polled : State :=
  default demo_seeded (Venom.exec demo_config demo_options Poll demo_seeded).

(** The seeded crawl after its only job was dispatched, blocked by
    robots.txt, and recorded. *)
Definition demo_done : State :=
  default demo_seeded
    (Venom.run demo_config demo_options
       [Poll; Start; CrawlBegin 0; CrawlNull 0; Complete 0] demo_seeded).

Definition demo_done_job : CrawlJob :=
  mkJob 0 "https://a.com/" 0 None high completed 0 None 0 0.

Definition demo_later : State :=
  default demo_done (Venom.run demo_config demo_options [Tick 5; Poll] demo_done).

Definition demo_finished : State :=
  default demo_done (Venom.exec demo_config demo_options Finish demo_done).

(** A started task whose handler has not yet obtained its capture. *)
Definition is_awaiting (ph : Phase) : bool :=
  match ph with
  | Delaying | Fetching => true
  | _ => false
  end.

Definition awaiting (s : State) : nat :=
  length (List.filter (λ t, is_awaiting (phase t)) (active s)).

(** Two states that differ at most in the store, the statistics and the
    supply of identifiers. *)
Definition same_control (s s' : State) : Prop :=
  visitedUrls s' = visitedUrls s ∧ crawledSoFar s' = crawledSoFar s ∧
  isProcessing s' = isProcessing s ∧ isPaused s' = isPaused s ∧
  queued s' = queued s ∧ active s' = active s ∧ clock s' = clock s.

(** The bookkeeping of the worker pool. *)
Record Control (config : CrawlerConfig) (options : CrawlOptions) (s : State) : Prop :=
  mkControl {
    ct_active : length (active s) ≤ concurrency config;
    ct_paused : isPaused s = true → isProcessing s = false;
    ct_limit : ∀ m, maxUrls options = Some m → m ≠ 0%Z →
      (Z.of_nat (crawledSoFar s + awaiting s) ≤
       Z.max 0 (m + Z.of_nat (concurrency config) - 1))%Z
  }.

Definition demo_limited : CrawlOptions := mkOptions false (Some 1%Z) false 3.

(** The links of a page that [getLinksToFollow] keeps before cutting the
    list: internal links admitted by the admission filter. *)
Definition followable `{UrlPlatform} (config : CrawlerConfig) (visited : gset string)
    (link : ExtractedLink) : bool :=
  isInternal link &&
  match Crawler.shouldCrawl config visited (href link) with
  | Normal b => b
  | Throw _ => false
  end.

Definition demo_capture : PageCapture :=
  mkCapture 7 "https://a.com/" "https://a.com/" "a.com" 0
    [mkLink "https://a.com/p1" "one" true;
     mkLink "https://b.org/" "elsewhere" false;
     mkLink "https://a.com/p2" "two" true;
     mkLink "ftp://a.com/file" "file" true].

Definition demo_capped : CrawlerConfig :=
  mkCrawlerConfig 2 3 true "Venom/1.0" 1 [] [].

(** The bookkeeping of the store and of the statistics. *)
Record Books (config : CrawlerConfig) (s : State) : Prop := mkBooks {
  bk_fresh : ∀ row, row ∈ jobs (database s) → job_id row < next_uuid s;
  bk_discovered : urlsDiscovered (stats s) = length (jobs (database s));
  bk_depth : ∀ row, row ∈ jobs (database s) →
    depth row = 0 ∨ (Z.of_nat (depth row) ≤ maxDepth config)%Z;
  bk_crawled : urlsCrawled (stats s) = crawledSoFar s ∧
               screenshotsTaken (stats s) = crawledSoFar s;
  bk_captures : length (captures (database s)) ≤ crawledSoFar s
}.

(** The part of a state that [Books] reads. *)
Definition ledger (s : State) :=
  (map (λ j, (job_id j, depth j)) (jobs (database s)),
   length (captures (database s)), urlsDiscovered (stats s), urlsCrawled (stats s),
   screenshotsTaken (stats s), crawledSoFar s, next_uuid s).

Definition demo_fetching : State :=
  default demo_seeded
    (Venom.run demo_config demo_options [Poll; Start; CrawlBegin 0] demo_seeded).

Definition demo_threw : State :=
  default demo_seeded
    (Venom.run demo_config demo_options
       [Poll; Start; CrawlBegin 0; CrawlThrow 0 "boom"] demo_seeded).

(** A crawl of two seeds limited to one page, after the first page was
    captured and its job recorded; then after the second job was started. *)
Definition demo_two : State :=
  Venom.start_crawl (Venom.addSeeds ["https://a.com/"; "https://b.com/"] Venom.initial).

Definition demo_at_limit : State :=
  default demo_two
    (Venom.run demo_config demo_limited
       [Poll; Start; CrawlBegin 0; CrawlCapture 0 []; Complete 0] demo_two).

Definition demo_stopped : State :=
  default demo_at_limit (Venom.exec demo_config demo_limited Start demo_at_limit).

(** The answer that [checkRobotsTxt] builds from a parsed robots.txt. *)
Definition robots_verdict {Parser : Type}
    (parser_isAllowed : Parser → string → string → option bool)
    (parser_getCrawlDelay : Parser → string → option nat)
    (parser_getSitemaps : Parser → list string)
    (p : Parser) (url ua : string) : RobotsTxtResult :=
  mkRobotsResult (default true (parser_isAllowed p url ua))
                 (match parser_getCrawlDelay p ua with
                  | Some d => if d =? 0 then None else Some d
                  | None => None
                  end)
                 (parser_getSitemaps p).

Definition is_fetching (ph : Phase) : bool :=
  match ph with
  | Fetching => true
  | _ => false
  end.

(** The captures of a crawl and the visited set. *)
Record Shelf `{UrlPlatform} (s : State) : Prop := mkShelf {
  sh_ids : NoDup (map capture_id (captures (database s)));
  sh_urls : NoDup (map normalizedUrl (captures (database s)));
  sh_visited : ∀ c, c ∈ captures (database s) →
    normalizedUrl c ∈ visitedUrls s ∧
    Crawler.normalizeUrl (capture_url c) = Normal (normalizedUrl c);
  sh_fetching : ∀ t, t ∈ active s → is_fetching (phase t) = true →
    ∃ n, Crawler.normalizeUrl (url (task_job t)) = Normal n ∧ n ∈ visitedUrls s
}.

Definition demo_page : PageCapture :=
  mkCapture 3 "https://a.com/" "https://a.com/" "a.com" 0 [].

(** A crawl of three seeds limited to one page, stopped by the handler of
    the second job while the third still waits in the task queue. *)
Definition demo_stranded : State :=
  default demo_two
    (Venom.run demo_config demo_limited
       [Poll; Start; CrawlBegin 0; CrawlCapture 0 []; Complete 0; Start]
       (Venom.start_crawl
          (Venom.addSeeds ["https://a.com/"; "https://b.com/"; "https://c.com/"]
                          Venom.initial))).

Definition demo_stranded_later : State :=
  default demo_stranded
    (Venom.run demo_config demo_limited [Complete 1; Tick 7] demo_stranded).

(** * Properties *)

(** ** Strings *)

Lemma app_String (a : ascii) (s t : string) : String a s +:+ t = String a (s +:+ t).
Proof. reflexivity. Qed.

Lemma app_Empty (t : string) : "" +:+ t = t.
Proof. reflexivity. Qed.

Lemma app_Empty_r (s : string) : s +:+ "" = s.
Proof. induction s as [|a s IH]; [done|]. by rewrite app_String, IH. Qed.

Lemma app_Empty_inv (s t : string) : s +:+ t = "" → s = "" ∧ t = "".
Proof. destruct s; [done|]. rewrite app_String. discriminate. Qed.

Lemma startsWith_spec (p s : string) :
  JsString.startsWith p s = true ↔ ∃ t, s = p +:+ t.
Proof.
  revert s. induction p as [|a p IH]; intros s; simpl.
  - split; [intros _; by exists s | done].
  - destruct s as [|b s].
    + split; [done | intros [t Ht]; rewrite app_String in Ht; discriminate].
    + destruct (Ascii.eqb_spec a b) as [->|Hne].
      * rewrite IH. split; intros [t Ht]; exists t.
        -- by rewrite app_String, Ht.
        -- rewrite app_String in Ht. by injection Ht.
      * split; [done|]. intros [t Ht]. rewrite app_String in Ht. congruence.
Qed.

Lemma includes_spec (d s : string) :
  JsString.includes d s = true ↔ substring_of d s.
Proof.
  unfold substring_of. induction s as [|c s IH]; simpl.
  - rewrite orb_false_r, startsWith_spec. split.
    + intros [t Ht]. by exists "", t.
    + intros (a & b & Hab). symmetry in Hab.
      apply app_Empty_inv in Hab as [-> Hdb].
      apply app_Empty_inv in Hdb as [-> ->]. by exists "".
  - rewrite orb_true_iff, startsWith_spec, IH. split.
    + intros [[t Ht]|(a & b & Hab)].
      * by exists "", t.
      * exists (String c a), b. by rewrite app_String, Hab.
    + intros (a & b & Hab). destruct a as [|c' a].
      * left. by exists b.
      * right. rewrite app_String in Hab. injection Hab as _ Hab. by exists a, b.
Qed.

Lemma existsb_includes (l : list string) (s : string) :
  existsb (λ d, JsString.includes d s) l = true ↔ ∃ d, d ∈ l ∧ substring_of d s.
Proof.
  rewrite existsb_exists. split; intros (d & Hd & Hs); exists d.
  - by rewrite list_elem_of_In, <- includes_spec.
  - by rewrite <- list_elem_of_In, includes_spec.
Qed.

(** ** URL normaliser and admission filter *)

Section CrawlerFacts.

Context `{UrlPlatform}.

Lemma normalizeUrl_unfold (url : string) :
  Crawler.normalizeUrl url =
  match URL_new url with
  | Normal u => Normal (canonical u)
  | Throw _ => Normal url
  end.
Proof.
  unfold Crawler.normalizeUrl, canonical. destruct (URL_new url) as [u|e]; simpl; [|done].
  by destruct (_ && _).
Qed.

Lemma getDomain_unfold (url : string) :
  Crawler.getDomain url =
  match URL_new url with
  | Normal u => Normal (Url.hostname u)
  | Throw _ => Normal ""
  end.
Proof. unfold Crawler.getDomain. by destruct (URL_new url). Qed.

Lemma normalizeUrl_total (url : string) : ∃ n, Crawler.normalizeUrl url = Normal n.
Proof. rewrite normalizeUrl_unfold. destruct (URL_new url); eauto. Qed.

Lemma getDomain_total (url : string) : ∃ d, Crawler.getDomain url = Normal d.
Proof. rewrite getDomain_unfold. destruct (URL_new url); eauto. Qed.

End CrawlerFacts.

(** C5. [normalizeUrl] and [getDomain] never throw, whatever the input string
    and whatever the URL parser of the platform; when [new URL(url)] throws,
    [normalizeUrl] returns [url] itself and [getDomain] the empty string. *)
Theorem normalizeUrl_getDomain_never_throw `{UrlPlatform} (url : string) :
  ¬ throws (Crawler.normalizeUrl url) ∧
  ¬ throws (Crawler.getDomain url) ∧
  (throws (URL_new url) →
   Crawler.normalizeUrl url = Normal url ∧ Crawler.getDomain url = Normal "").
Proof.
  rewrite normalizeUrl_unfold, getDomain_unfold.
  destruct (URL_new url) as [u|e]; simpl; tauto.
Qed.

Lemma normalizeUrl_getDomain_never_throw_witness :
  throws (URL_new "not a url") ∧
  Crawler.normalizeUrl "not a url" = Normal "not a url" ∧
  Crawler.getDomain "not a url" = Normal "".
Proof.
  split; [exact I|].
  apply (normalizeUrl_getDomain_never_throw "not a url"). exact I.
Defined.

Section AdmissionFilter.

Context `{UrlPlatform}.
Variable config : CrawlerConfig.

Lemma shouldCrawl_unfold (visited : gset string) (url : string) :
  Crawler.shouldCrawl config visited url =
  match URL_new url with
  | Throw _ => Normal false
  | Normal u =>
      Normal (negb (bool_decide (canonical u ∈ visited)) &&
              bool_decide (Url.protocol u ∈ ["http:"; "https:"]) &&
              negb (existsb (λ d, JsString.includes d (Url.hostname u))
                            (blockedDomains config)) &&
              negb ((0 <? length (allowedDomains config)) &&
                    negb (existsb (λ d, JsString.includes d (Url.hostname u))
                                  (allowedDomains config))))
  end.
Proof.
  unfold Crawler.shouldCrawl. rewrite normalizeUrl_unfold, getDomain_unfold.
  destruct (URL_new url) as [u|e]; simpl.
  - repeat (case_bool_decide; simpl; try done).
    destruct (existsb _ (blockedDomains config)); simpl; [done|].
    by destruct (_ && _).
  - by case_bool_decide.
Qed.

Lemma shouldCrawl_total (visited : gset string) (url : string) :
  ∃ b, Crawler.shouldCrawl config visited url = Normal b.
Proof. rewrite shouldCrawl_unfold. destruct (URL_new url); eauto. Qed.

Lemma shouldCrawl_false_iff (visited : gset string) (url : string) :
  ∃ b n dom,
    Crawler.shouldCrawl config visited url = Normal b ∧
    Crawler.normalizeUrl url = Normal n ∧
    Crawler.getDomain url = Normal dom ∧
    (b = false ↔ rejected config visited url n dom).
Proof.
  rewrite shouldCrawl_unfold, normalizeUrl_unfold, getDomain_unfold.
  unfold rejected, scheme_rejected.
  destruct (URL_new url) as [u|e].
  2:{ exists false, url, "". repeat split; auto. }
  eexists _, _, _. split; [done|]. split; [done|]. split; [done|].
  pose proof (existsb_includes (blockedDomains config) (Url.hostname u)) as Hb.
  pose proof (existsb_includes (allowedDomains config) (Url.hostname u)) as Ha.
  assert ((0 <? length (allowedDomains config)) = true ↔ allowedDomains config ≠ [])
    as Hl by (destruct (allowedDomains config); simpl; split; (done || lia)).
  rewrite !andb_false_iff, !negb_false_iff, andb_true_iff, negb_true_iff.
  rewrite bool_decide_eq_true, bool_decide_eq_false, Hb, Hl.
  rewrite <- not_true_iff_false, Ha, !elem_of_cons, elem_of_nil.
  split.
  - intros [[[?|?]|?]|[? Hnone]]; [tauto|right; left; tauto|tauto|].
    do 3 right. split; [done|]. intros d ? ?. apply Hnone. eauto.
  - intros [?|[[? ?]|[?|[? Hnone]]]]; [tauto|left;left;right;tauto|tauto|].
    right. split; [done|]. intros (d & ? & ?). by eapply Hnone.
Qed.

End AdmissionFilter.

(** C6. [shouldCrawl] never throws, and it answers [false] exactly when the
    normalised URL is in the visited set, or the URL does not parse or has a
    protocol other than http/https, or the hostname contains a blocked entry
    as a substring, or the allow list is not empty and the hostname contains
    none of its entries.  With [blockedDomains = ["ads.example.com"]] the URL
    [https://ads.example.com/x] is rejected whatever the rest; with
    [allowedDomains = ["wiki.org"]] and nothing blocked, the unvisited
    [https://en.wiki.org/page] is admitted and [https://other.com/page] is
    rejected. *)
Theorem shouldCrawl_rejects_exactly `{UrlPlatform}
    (config : CrawlerConfig) (visited : gset string) (url : string) :
  (∃ b n dom,
      Crawler.shouldCrawl config visited url = Normal b ∧
      Crawler.normalizeUrl url = Normal n ∧
      Crawler.getDomain url = Normal dom ∧
      (b = false ↔ rejected config visited url n dom)) ∧
  (∀ md c r ua m allowed,
      Crawler.shouldCrawl (H := simple_platform)
        (mkCrawlerConfig md c r ua m allowed ["ads.example.com"])
        visited "https://ads.example.com/x" = Normal false) ∧
  (∀ md c r ua m,
      ("https://en.wiki.org/page" ∉ visited →
       Crawler.shouldCrawl (H := simple_platform)
         (mkCrawlerConfig md c r ua m ["wiki.org"] [])
         visited "https://en.wiki.org/page" = Normal true) ∧
      Crawler.shouldCrawl (H := simple_platform)
        (mkCrawlerConfig md c r ua m ["wiki.org"] [])
        visited "https://other.com/page" = Normal false).
Proof.
  split; [apply shouldCrawl_false_iff|]. split.
  - intros md c r ua m allowed.
    destruct (shouldCrawl_false_iff (H := simple_platform)
                (mkCrawlerConfig md c r ua m allowed ["ads.example.com"])
                visited "https://ads.example.com/x")
      as (b & n & dom & -> & _ & Hd & Hiff).
    f_equal. apply Hiff. right; right; left.
    exists "ads.example.com". split; [apply list_elem_of_here|].
    vm_compute in Hd. injection Hd as <-. by exists "", "".
  - intros md c r ua m. split.
    + intros Hfresh.
      destruct (shouldCrawl_false_iff (H := simple_platform)
                  (mkCrawlerConfig md c r ua m ["wiki.org"] [])
                  visited "https://en.wiki.org/page")
        as (b & n & dom & -> & Hn & Hd & Hiff).
      vm_compute in Hn, Hd. injection Hn as <-. injection Hd as <-.
      destruct b; [done|]. exfalso.
      destruct (proj1 Hiff eq_refl) as [?|[Hs|[(d & Hd & _)|[_ Hnone]]]].
      * done.
      * vm_compute in Hs. by destruct Hs as [_ []].
      * simpl in Hd. by apply elem_of_nil in Hd.
      * apply (Hnone "wiki.org"); [apply list_elem_of_here|]. by exists "en.", "".
    + destruct (shouldCrawl_false_iff (H := simple_platform)
                  (mkCrawlerConfig md c r ua m ["wiki.org"] [])
                  visited "https://other.com/page")
        as (b & n & dom & -> & _ & Hd & Hiff).
      f_equal. apply Hiff. do 3 right. split; [done|].
      vm_compute in Hd. injection Hd as <-.
      intros d Hd%list_elem_of_singleton Hsub. subst d.
      apply includes_spec in Hsub. vm_compute in Hsub. discriminate.
Qed.

Lemma shouldCrawl_rejects_exactly_witness :
  ("https://en.wiki.org/page" ∉ (∅ : gset string)) ∧
  (Crawler.shouldCrawl (H := simple_platform)
     (mkCrawlerConfig 2 3 true "Venom/1.0" 100 ["wiki.org"] [])
     ∅ "https://en.wiki.org/page" = Normal true).
Proof.
  split; [apply not_elem_of_empty|].
  apply (shouldCrawl_rejects_exactly (H := simple_platform)
           (mkCrawlerConfig 2 3 true "Venom/1.0" 100 ["wiki.org"] []) ∅ "").
  apply not_elem_of_empty.
Defined.

(** *** What [normalizeUrl] identifies *)

Lemma delete_all_params (names : list string) (u : URL) :
  names ≠ [] →
  foldl (λ u name, Url.searchParams_delete name u) u names =
  let l := filter (λ nv, nv.1 ∉ names) (searchParams u) in
  let q := Url.serialize_params l in
  mkURL (scheme u) (username u) (password u) (host u) (port u) (pathname u)
        (if String.eqb q "" then None else Some q) l (fragment u).
Proof.
  revert u. induction names as [|name names IH]; intros u Hne; [done|].
  simpl foldl. destruct names as [|name' names].
  - assert (filter (λ nv : string * string, nv.1 ∉ [name]) (searchParams u) =
            filter (λ nv, nv.1 ≠ name) (searchParams u)) as Hf.
    { apply list_filter_iff. intros nv. by rewrite list_elem_of_singleton. }
    cbn -[filter Url.serialize_params]. rewrite Hf. reflexivity.
  - rewrite IH by done. cbn -[filter Url.serialize_params].
    rewrite list_filter_filter.
    assert (filter (λ nv : string * string, (nv.1 ∉ name' :: names) ∧ nv.1 ≠ name)
                   (searchParams u) =
            filter (λ nv, nv.1 ∉ name :: name' :: names) (searchParams u)) as ->; [|done].
    apply list_filter_iff. intros nv. rewrite (not_elem_of_cons _ _ name). tauto.
Qed.

(** Two URLs that differ only in their fragment have the same normal form. *)
Lemma canonical_fragment sch us pw h po pa q l (f1 f2 : option string) :
  canonical (mkURL sch us pw h po pa q l f1) = canonical (mkURL sch us pw h po pa q l f2).
Proof.
  unfold canonical.
  assert (Url.clear_hash (mkURL sch us pw h po pa q l f1) =
          Url.clear_hash (mkURL sch us pw h po pa q l f2)) as -> by reflexivity.
  reflexivity.
Qed.

(** Two URLs whose query parameters agree once the tracking parameters are
    left out have the same normal form. *)
Lemma canonical_tracking sch us pw h po pa q1 q2 (l1 l2 : list (string * string)) f :
  filter (λ nv, nv.1 ∉ tracking_params) l1 = filter (λ nv, nv.1 ∉ tracking_params) l2 →
  canonical (mkURL sch us pw h po pa q1 l1 f) = canonical (mkURL sch us pw h po pa q2 l2 f).
Proof.
  intros Hl. unfold canonical. rewrite !delete_all_params by done.
  cbn -[filter Url.serialize_params tracking_params]. by rewrite Hl.
Qed.

Lemma endsWith_app (suf s : string) : JsString.endsWith suf (s +:+ suf) = true.
Proof.
  induction s as [|a s IH].
  - rewrite app_Empty. destruct suf; simpl; [done|]. by rewrite Ascii.eqb_refl, String.eqb_refl.
  - rewrite app_String. simpl. rewrite IH. apply orb_true_r.
Qed.

Lemma endsWith_slash_app (s p : string) :
  p ≠ "" → JsString.endsWith "/" (s +:+ p) = JsString.endsWith "/" p.
Proof.
  intros Hp. induction s as [|a s IH]; [done|].
  rewrite app_String. simpl. rewrite IH.
  destruct (s +:+ p) as [|b t] eqn:Hsp.
  - apply app_Empty_inv in Hsp as [_ ?]. done.
  - destruct (Ascii.eqb a "/"); done.
Qed.

Lemma slice_0_m1_app (s : string) (c : ascii) :
  JsString.slice_0_m1 (s +:+ String c "") = s.
Proof.
  induction s as [|a s IH]; [done|].
  rewrite app_String. simpl. rewrite IH.
  destruct (s +:+ String c "") eqn:Hs; [|done].
  by apply app_Empty_inv in Hs as [_ ?].
Qed.

Lemma app_assoc_string (a b c : string) : (a +:+ b) +:+ c = a +:+ b +:+ c.
Proof. induction a as [|x a IH]; [done|]. by rewrite !app_String, IH. Qed.

(** The serialisation of a URL with a host and neither query nor fragment
    ends with its path. *)
Lemma href_prefix sch us pw h po (l : list (string * string)) :
  ∃ pre, ∀ pa, Url.href (mkURL sch us pw (Some h) po pa None l None) = pre +:+ pa.
Proof.
  eexists (sch +:+ ":" +:+ "//" +:+ _ +:+ h +:+ _). intros pa.
  unfold Url.href. cbn [scheme username password host port pathname query fragment].
  change ("" +:+ "") with "". rewrite (app_Empty_r pa).
  repeat match goal with
         | |- context [(?a +:+ ?b) +:+ ?c] => rewrite (app_assoc_string a b c)
         end.
  reflexivity.
Qed.

(** Two URLs with a host that differ only in a trailing slash of a non-root
    path have the same normal form when no query parameter is left after
    the tracking parameters are removed. *)
Lemma canonical_trailing_slash sch us pw h po pa q (l : list (string * string)) f :
  pa ≠ "" → JsString.endsWith "/" pa = false →
  filter (λ nv, nv.1 ∉ tracking_params) l = [] →
  canonical (mkURL sch us pw (Some h) po (pa +:+ "/") q l f) =
  canonical (mkURL sch us pw (Some h) po pa q l f).
Proof.
  intros Hpa Hend Hl. unfold canonical. rewrite !delete_all_params by done.
  cbn -[filter Url.serialize_params tracking_params JsString.endsWith String.eqb Url.href].
  rewrite Hl.
  change (Url.serialize_params []) with "".
  change (String.eqb "" "") with true. cbv iota.
  destruct (href_prefix sch us pw h po []) as [pre Hpre]. rewrite !Hpre.
  rewrite <- app_assoc_string.
  rewrite endsWith_app, slice_0_m1_app.
  rewrite endsWith_slash_app, Hend by done. simpl.
  destruct (String.eqb_spec (pa +:+ "/") "/") as [Heq|_]; [|done].
  destruct pa as [|c pa]; [done|]. rewrite app_String in Heq.
  injection Heq as _ Heq. by apply app_Empty_inv in Heq as [_ ?].
Qed.

(** The example of the specification: both URLs normalise to
    [https://a.com/x]. *)
Example normalizeUrl_example :
  Crawler.normalizeUrl "https://a.com/x/?utm_source=y#frag" = Normal "https://a.com/x" ∧
  Crawler.normalizeUrl "https://a.com/x" = Normal "https://a.com/x".
Proof. by vm_compute. Qed.

(** C4. A trailing slash is removed only when it ends the whole serialised
    URL: with a query parameter that stays, [https://a.com/x/?a=1] and
    [https://a.com/x?a=1] keep two different normal forms. *)
Theorem normalizeUrl_keeps_slash_before_query :
  Crawler.normalizeUrl "https://a.com/x/?a=1" = Normal "https://a.com/x/?a=1" ∧
  Crawler.normalizeUrl "https://a.com/x?a=1" = Normal "https://a.com/x?a=1" ∧
  Crawler.normalizeUrl "https://a.com/x/?a=1" ≠ Crawler.normalizeUrl "https://a.com/x?a=1".
Proof. by vm_compute. Qed.

(** ** The robots.txt gate *)

Section RobotsFacts.

Context `{UrlPlatform}.
Context {Parser : Type}.
Variable robotsParser : string → string → Parser.
Variable parser_isAllowed : Parser → string → string → option bool.
Variable parser_getCrawlDelay : Parser → string → option nat.
Variable parser_getSitemaps : Parser → list string.
Variable network : list string → string → FetchOutcome.

Abbreviation fetchRobotsTxt := (Robots.fetchRobotsTxt Parser robotsParser network).
Abbreviation checkRobotsTxt :=
  (Robots.checkRobotsTxt Parser robotsParser parser_isAllowed parser_getCrawlDelay
                         parser_getSitemaps network).

(** Every call that misses the cache sends exactly one request. *)
Lemma fetchRobotsTxt_miss (domain ua : string) (st : Robots.RobotsState Parser) :
  Robots.robotsCache Parser st !! domain = None →
  Robots.requests Parser (fetchRobotsTxt domain ua st).2 =
  Robots.requests Parser st ++ [Robots.robotsUrl domain].
Proof.
  intros Hmiss. unfold Robots.fetchRobotsTxt. rewrite Hmiss.
  destruct (network _ _) as [e|ok status [body|e]]; [done|..]; by destruct ok.
Qed.

(** A failed fetch answers "no parser" and leaves the cache as it was. *)
Lemma fetchRobotsTxt_failed (domain ua : string) (st : Robots.RobotsState Parser) :
  Robots.robotsCache Parser st !! domain = None →
  Robots.fetch_failed (network (Robots.requests Parser st) (Robots.robotsUrl domain)) = true →
  (fetchRobotsTxt domain ua st).1 = None ∧
  Robots.robotsCache Parser (fetchRobotsTxt domain ua st).2 = Robots.robotsCache Parser st.
Proof.
  intros Hmiss Hfail. unfold Robots.fetchRobotsTxt. rewrite Hmiss.
  destruct (network _ _) as [e|ok status body]; [done|].
  simpl in Hfail. by destruct ok.
Qed.

(** An entry of the cache after a call was there before, or is the parse of
    a successful response received during the call. *)
Lemma fetchRobotsTxt_cache (domain ua : string) (st : Robots.RobotsState Parser)
    (d : string) (p : Parser) :
  Robots.robotsCache Parser (fetchRobotsTxt domain ua st).2 !! d = Some p →
  Robots.robotsCache Parser st !! d = Some p ∨
  (d = domain ∧ ∃ status body,
      network (Robots.requests Parser st) (Robots.robotsUrl d) =
        Response true status (Normal body) ∧
      p = robotsParser (Robots.robotsUrl d) body).
Proof.
  unfold Robots.fetchRobotsTxt.
  destruct (Robots.robotsCache Parser st !! domain) eqn:Hc; [by left|].
  destruct (network _ _) as [e|ok status [body|e]] eqn:Hn; simpl; [by left|..].
  - destruct ok; simpl; [|by left].
    destruct (decide (d = domain)) as [->|Hne].
    + rewrite lookup_insert_eq. intros [= <-]. right. eauto.
    + rewrite lookup_insert_ne by done. by left.
  - destruct ok; by left.
Qed.

End RobotsFacts.

(** C7. When the robots.txt of a domain is not cached and its fetch fails
    with a network error or a non-success response, [checkRobotsTxt] answers
    [isAllowed = true] with no sitemaps, and the cache is unchanged, so the
    next check for that domain sends the request again; an entry only enters
    the cache as the parse of a successful response. *)
Theorem robots_failure_allows_and_is_not_cached `{UrlPlatform} {Parser : Type}
    (robotsParser : string → string → Parser)
    (parser_isAllowed : Parser → string → string → option bool)
    (parser_getCrawlDelay : Parser → string → option nat)
    (parser_getSitemaps : Parser → list string)
    (network : list string → string → FetchOutcome)
    (st : Robots.RobotsState Parser) (url ua : string) (u : URL) :
  let check := Robots.checkRobotsTxt Parser robotsParser parser_isAllowed
                 parser_getCrawlDelay parser_getSitemaps network in
  let robots := Robots.robotsUrl (Url.hostname u) in
  URL_new url = Normal u →
  Robots.robotsCache Parser st !! Url.hostname u = None →
  Robots.fetch_failed (network (Robots.requests Parser st) robots) = true →
  (check url ua st).1 = Normal (mkRobotsResult true None []) ∧
  Robots.robotsCache Parser (check url ua st).2 = Robots.robotsCache Parser st ∧
  Robots.requests Parser (check url ua st).2 = Robots.requests Parser st ++ [robots] ∧
  Robots.requests Parser (check url ua (check url ua st).2).2 =
    Robots.requests Parser st ++ [robots; robots] ∧
  (∀ st0 url0 d p,
      Robots.robotsCache Parser (check url0 ua st0).2 !! d = Some p →
      Robots.robotsCache Parser st0 !! d = Some p ∨
      ∃ status body,
        network (Robots.requests Parser st0) (Robots.robotsUrl d) =
          Response true status (Normal body) ∧
        p = robotsParser (Robots.robotsUrl d) body).
Proof.
  intros check robots Hu Hmiss Hfail. subst check robots.
  pose proof (fetchRobotsTxt_failed robotsParser network _ ua st Hmiss Hfail) as [Hnone Hcache].
  pose proof (fetchRobotsTxt_miss robotsParser network _ ua st Hmiss) as Hreq.
  assert (∀ s, Robots.checkRobotsTxt Parser robotsParser parser_isAllowed
                 parser_getCrawlDelay parser_getSitemaps network url ua s =
               match Robots.fetchRobotsTxt Parser robotsParser network (Url.hostname u) ua s with
               | (None, s') => (Normal (mkRobotsResult true None []), s')
               | (Some parser, s') =>
                   (Normal (mkRobotsResult
                              (default true (parser_isAllowed parser url ua))
                              (match parser_getCrawlDelay parser ua with
                               | Some d => if d =? 0 then None else Some d
                               | None => None
                               end)
                              (parser_getSitemaps parser)), s')
               end) as Hcheck.
  { intros s. unfold Robots.checkRobotsTxt. by rewrite Hu. }
  assert (∀ s, (Robots.checkRobotsTxt Parser robotsParser parser_isAllowed
                 parser_getCrawlDelay parser_getSitemaps network url ua s).2 =
               (Robots.fetchRobotsTxt Parser robotsParser network (Url.hostname u) ua s).2)
    as Hsnd.
  { intros s. rewrite Hcheck. by destruct (Robots.fetchRobotsTxt _ _ _ _ _ s) as [[?|] ?]. }
  split; [|split; [|split; [|split]]].
  - rewrite Hcheck.
    destruct (Robots.fetchRobotsTxt _ _ _ _ _ st) as [[?|] ?]; simpl in *; done.
  - by rewrite Hsnd.
  - by rewrite Hsnd.
  - rewrite !Hsnd. rewrite fetchRobotsTxt_miss by (by rewrite Hcache).
    rewrite Hreq. by rewrite <- app_assoc.
  - intros st0 url0 d p. unfold Robots.checkRobotsTxt.
    destruct (URL_new url0) as [u0|e]; simpl; [|by left].
    intros Hp.
    destruct (fetchRobotsTxt_cache robotsParser network (Url.hostname u0) ua st0 d p)
      as [?|[_ ?]]; [|by left|by right].
    by destruct (Robots.fetchRobotsTxt _ _ _ _ _ st0) as [[?|] ?].
Qed.

Lemma robots_failure_allows_and_is_not_cached_witness :
  let network := λ (_ : list string) (_ : string), Response false 404 (Normal "Not Found") in
  let check := Robots.checkRobotsTxt string (λ _ body, body) (λ _ _ _, None)
                 (λ _ _, None) (λ _, []) network in
  let st := Robots.mkRobotsState string ∅ [] in
  (check "https://a.com/x" "Venom/1.0" st).1 = Normal (mkRobotsResult true None []) ∧
  Robots.requests string (check "https://a.com/x" "Venom/1.0"
                            (check "https://a.com/x" "Venom/1.0" st).2).2 =
    ["https://a.com/robots.txt"; "https://a.com/robots.txt"].
Proof.
  intros network check st.
  pose proof (robots_failure_allows_and_is_not_cached (H := simple_platform)
                (λ _ body, body) (λ _ _ _, None) (λ _ _, None) (λ _, []) network st
                "https://a.com/x" "Venom/1.0"
                (mkURL "https" "" "" (Some "a.com") None "/x" None [] None)
                eq_refl (lookup_empty _) eq_refl) as (H1 & _ & _ & H4 & _).
  split; [exact H1 | exact H4].
Defined.

(** ** The pending-job query *)

Lemma job_leb_le (a b : CrawlJob) : VenomDatabase.job_leb a b = true ↔ job_le a b.
Proof.
  unfold VenomDatabase.job_leb, job_le.
  rewrite orb_true_iff, andb_true_iff, Nat.ltb_lt, Nat.eqb_eq, Nat.leb_le. done.
Qed.

Global Instance job_le_trans : Transitive job_le.
Proof. unfold job_le. intros a b c ? ?. lia. Qed.

Global Instance job_le_total : Total job_le.
Proof. unfold job_le. intros a b. lia. Qed.

Lemma insert_sorted_perm (j : CrawlJob) (l : list CrawlJob) :
  VenomDatabase.insert_sorted j l ≡ₚ j :: l.
Proof.
  induction l as [|k l IH]; simpl; [done|].
  destruct (VenomDatabase.job_leb j k); [done|].
  rewrite IH. apply Permutation_swap.
Qed.

Lemma order_by_perm (l : list CrawlJob) : VenomDatabase.order_by l ≡ₚ l.
Proof.
  induction l as [|j l IH]; simpl; [done|]. by rewrite insert_sorted_perm, IH.
Qed.

Lemma insert_sorted_sorted (j : CrawlJob) (l : list CrawlJob) :
  StronglySorted job_le l → StronglySorted job_le (VenomDatabase.insert_sorted j l).
Proof.
  induction l as [|k l IH]; simpl; intros Hl.
  - by repeat constructor.
  - apply StronglySorted_cons in Hl as [Hk Hl].
    destruct (VenomDatabase.job_leb j k) eqn:Hjk.
    + apply job_leb_le in Hjk. apply StronglySorted_cons. split.
      * constructor; [done|]. eapply Forall_impl; [exact Hk|].
        intros x Hx. by trans k.
      * by apply StronglySorted_cons.
    + apply StronglySorted_cons. split; [|by apply IH].
      rewrite insert_sorted_perm. constructor; [|done].
      destruct (total job_le j k) as [Hle|Hle]; [|done].
      apply job_leb_le in Hle. congruence.
Qed.

Lemma order_by_sorted (l : list CrawlJob) : StronglySorted job_le (VenomDatabase.order_by l).
Proof.
  induction l as [|j l IH]; simpl; [constructor|]. by apply insert_sorted_sorted.
Qed.

Lemma StronglySorted_lookup {A} (R : relation A) (l : list A) (i j : nat) (a b : A) :
  StronglySorted R l → i < j → l !! i = Some a → l !! j = Some b → R a b.
Proof.
  intros Hl. revert i j a b.
  induction Hl as [|x l Hl IH Hx]; intros i j a b Hij Hi Hj; [done|].
  destruct j as [|j]; [lia|]. destruct i as [|i]; simpl in *.
  - injection Hi as <-. rewrite Forall_forall in Hx. apply Hx.
    apply list_elem_of_lookup. eauto.
  - apply (IH i j); [lia|done..].
Qed.

Lemma getPendingJobs_elem (limit : nat) (db : Database) (a : CrawlJob) :
  a ∈ VenomDatabase.getPendingJobs limit db → a ∈ jobs db ∧ status a = pending.
Proof.
  unfold VenomDatabase.getPendingJobs. intros Ha.
  apply elem_of_take in Ha as (i & Hi & _).
  assert (a ∈ VenomDatabase.order_by (List.filter VenomDatabase.is_pending (jobs db))) as Ha
    by (apply list_elem_of_lookup; eauto).
  rewrite order_by_perm in Ha. apply list_elem_of_In, filter_In in Ha as [Ha Hp].
  split; [by apply list_elem_of_In|]. by apply bool_decide_eq_true in Hp.
Qed.

Lemma getPendingJobs_sorted (limit : nat) (db : Database) :
  StronglySorted job_le (VenomDatabase.getPendingJobs limit db).
Proof.
  unfold VenomDatabase.getPendingJobs.
  set (l := VenomDatabase.order_by _).
  pose proof (order_by_sorted (List.filter VenomDatabase.is_pending (jobs db))) as Hs.
  fold l in Hs. rewrite <- (take_drop limit l) in Hs.
  by apply StronglySorted_app_1_l in Hs.
Qed.

(** The jobs left out by [LIMIT] come after every job of the batch. *)
Lemma getPendingJobs_best (limit : nat) (db : Database) (a b : CrawlJob) :
  a ∈ VenomDatabase.getPendingJobs limit db →
  b ∈ jobs db → status b = pending →
  b ∉ VenomDatabase.getPendingJobs limit db →
  job_le a b.
Proof.
  unfold VenomDatabase.getPendingJobs.
  set (l := VenomDatabase.order_by _). intros Ha Hb Hp Hnb.
  pose proof (order_by_sorted (List.filter VenomDatabase.is_pending (jobs db))) as Hs.
  fold l in Hs. rewrite <- (take_drop limit l) in Hs.
  eapply StronglySorted_app_1_elem_of; [exact Hs|done|].
  assert (b ∈ l) as Hbl.
  { unfold l. rewrite order_by_perm. apply list_elem_of_In, filter_In.
    split; [by apply list_elem_of_In|]. by apply bool_decide_eq_true. }
  rewrite <- (take_drop limit l) in Hbl. apply elem_of_app in Hbl as [?|?]; done.
Qed.

(** ** The scheduler: single events *)

Section Events.

Context `{UrlPlatform}.
Variable config : CrawlerConfig.
Variable options : CrawlOptions.

Abbreviation exec := (Venom.exec config options).

Lemma poll_fold (batch : list CrawlJob) (s : State) :
  foldl (λ s job,
           mkState (JobQueue.dispatch job (clock s) (database s))
                   (visitedUrls s) (stats s) (crawledSoFar s)
                   (isProcessing s) (isPaused s) (queued s ++ [job])
                   (active s) (next_uuid s) (clock s))
        s batch =
  mkState (dispatch_all batch (clock s) (database s))
          (visitedUrls s) (stats s) (crawledSoFar s) (isProcessing s)
          (isPaused s) (queued s ++ batch) (active s) (next_uuid s) (clock s).
Proof.
  revert s. induction batch as [|job batch IH]; intros s.
  - simpl. rewrite app_nil_r. by destruct s.
  - simpl foldl. rewrite IH. simpl. by rewrite <- app_assoc.
Qed.

Lemma exec_Poll (s : State) :
  isProcessing s = true →
  exec Poll s =
  Some (mkState (dispatch_all (VenomDatabase.getPendingJobs 10 (database s))
                              (clock s) (database s))
                (visitedUrls s) (stats s) (crawledSoFar s) (isProcessing s)
                (isPaused s)
                (queued s ++ VenomDatabase.getPendingJobs 10 (database s))
                (active s) (next_uuid s) (clock s)).
Proof. intros Hp. cbn [Venom.exec]. by rewrite poll_fold, Hp. Qed.

Lemma exec_Start (s s' : State) :
  exec Start s = Some s' →
  ∃ job ph, queued s = job :: queued s' ∧ active s' = active s ++ [mkTask job ph] ∧
            database s' = database s.
Proof.
  simpl. destruct (queued s) as [|job rest]; [done|].
  destruct (_ && _); [|done].
  destruct (Venom.limit_reached options s); intros [= <-]; simpl; eauto.
Qed.

End Events.

(** C3. A batch of the pending-job query is ordered by priority tier (high,
    normal, low) and, within a tier, by ascending creation time; it contains
    pending jobs only, and the pending jobs cut off by the limit come after
    all those of the batch.  A polling round appends the batch to the task
    queue in that order and the queue starts its oldest task first, so three
    jobs added as low, high, normal are dispatched as high, normal, low. *)
Theorem pending_batch_priority_then_fifo `{UrlPlatform}
    (config : CrawlerConfig) (options : CrawlOptions) (limit : nat) (db : Database) :
  let batch := VenomDatabase.getPendingJobs limit db in
  (∀ i j a b, i < j → batch !! i = Some a → batch !! j = Some b →
     VenomDatabase.priority_rank (priority a) ≤ VenomDatabase.priority_rank (priority b) ∧
     (priority a = priority b → createdAt a ≤ createdAt b)) ∧
  (∀ a, a ∈ batch → a ∈ jobs db ∧ status a = pending) ∧
  (∀ a b, a ∈ batch → b ∈ jobs db → status b = pending → b ∉ batch → job_le a b) ∧
  (∀ s, isProcessing s = true →
     ∃ s', Venom.exec config options Poll s = Some s' ∧
           queued s' = queued s ++ VenomDatabase.getPendingJobs 10 (database s)) ∧
  (∀ s s', Venom.exec config options Start s = Some s' →
     ∃ job ph, queued s = job :: queued s' ∧ active s' = active s ++ [mkTask job ph]) ∧
  (∀ u1 u2 u3 t1 t2 t3, u1 ≠ u2 → u1 ≠ u3 → u2 ≠ u3 →
     let db1 := (JobQueue.addUrl u1 0 None low 0 t1 VenomDatabase.empty).2 in
     let db2 := (JobQueue.addUrl u2 0 None high 1 t2 db1).2 in
     let db3 := (JobQueue.addUrl u3 0 None normal 2 t3 db2).2 in
     map (λ j, (url j, priority j)) (VenomDatabase.getPendingJobs 10 db3) =
     [(u2, high); (u3, normal); (u1, low)]).
Proof.
  intros batch. split; [|split; [|split; [|split; [|split]]]].
  - intros i j a b Hij Hi Hj.
    pose proof (StronglySorted_lookup job_le batch i j a b
                  (getPendingJobs_sorted limit db) Hij Hi Hj) as Hle.
    unfold job_le in Hle. split; [lia|]. intros Hp. rewrite Hp in Hle. lia.
  - intros a Ha. by eapply getPendingJobs_elem.
  - apply getPendingJobs_best.
  - intros s Hp. rewrite exec_Poll by done. eauto.
  - intros s s' Hs. apply exec_Start in Hs as (job & ph & ? & ? & _). eauto.
  - intros u1 u2 u3 t1 t2 t3 H12 H13 H23.
    apply String.eqb_neq in H12, H13, H23.
    unfold JobQueue.addUrl, VenomDatabase.urlExists, VenomDatabase.addJob. simpl.
    rewrite H12. simpl. rewrite H13, H23. simpl. reflexivity.
Qed.

Lemma pending_batch_priority_then_fifo_witness :
  map (λ j, (url j, priority j))
      (VenomDatabase.getPendingJobs 10
         (JobQueue.addUrl "https://a.com/n" 0 None normal 2 7
            (JobQueue.addUrl "https://a.com/h" 0 None high 1 6
               (JobQueue.addUrl "https://a.com/l" 0 None low 0 5
                  VenomDatabase.empty).2).2).2) =
  [("https://a.com/h", high); ("https://a.com/n", normal); ("https://a.com/l", low)].
Proof.
  apply (pending_batch_priority_then_fifo (H := simple_platform)
           (mkCrawlerConfig 2 3 true "Venom/1.0" 100 [] [])
           (mkOptions true None false 3) 10 VenomDatabase.empty); done.
Defined.

(** ** The store: rows by identifier *)

Lemma find_job_elem (i : nat) (db : Database) (row : CrawlJob) :
  VenomDatabase.find_job i db = Some row → row ∈ jobs db ∧ job_id row = i.
Proof.
  unfold VenomDatabase.find_job. intros Hf. apply find_some in Hf as [Hin Hid].
  split; [by apply list_elem_of_In | by apply Nat.eqb_eq].
Qed.

Lemma find_job_None (i : nat) (db : Database) :
  VenomDatabase.find_job i db = None ↔ i ∉ map job_id (jobs db).
Proof.
  unfold VenomDatabase.find_job. induction (jobs db) as [|j js IH]; simpl.
  - split; [intros _; apply not_elem_of_nil | done].
  - rewrite not_elem_of_cons. destruct (Nat.eqb_spec (job_id j) i) as [->|Hne].
    + split; [done | intros [? _]; done].
    + rewrite IH. split; [intros ?; split; [congruence|done] | tauto].
Qed.

Lemma find_job_NoDup (db : Database) (row : CrawlJob) :
  NoDup (map job_id (jobs db)) → row ∈ jobs db →
  VenomDatabase.find_job (job_id row) db = Some row.
Proof.
  unfold VenomDatabase.find_job. induction (jobs db) as [|j js IH]; simpl.
  - intros _ Hin. by apply elem_of_nil in Hin.
  - intros [Hj Hjs]%NoDup_cons [->|Hin]%elem_of_cons.
    + by rewrite Nat.eqb_refl.
    + destruct (Nat.eqb_spec (job_id j) (job_id row)) as [Heq|_]; [|by apply IH].
      exfalso. apply Hj. rewrite Heq. apply list_elem_of_fmap. eauto.
Qed.

Lemma find_job_map (f : CrawlJob → CrawlJob) (i : nat) (js : list CrawlJob)
    (cs : list PageCapture) :
  (∀ j, job_id (f j) = job_id j) →
  VenomDatabase.find_job i (mkDatabase (map f js) cs) =
  f <$> VenomDatabase.find_job i (mkDatabase js cs).
Proof.
  intros Hf. unfold VenomDatabase.find_job. simpl.
  induction js as [|j js IH]; simpl; [done|].
  rewrite Hf. by destruct (job_id j =? i).
Qed.

Lemma find_job_app (i : nat) (js new : list CrawlJob) (cs cs' : list PageCapture) :
  VenomDatabase.find_job i (mkDatabase (js ++ new) cs') =
  match VenomDatabase.find_job i (mkDatabase js cs) with
  | Some row => Some row
  | None => VenomDatabase.find_job i (mkDatabase new cs)
  end.
Proof.
  unfold VenomDatabase.find_job. simpl.
  induction js as [|j js IH]; simpl; [done|]. by destruct (job_id j =? i).
Qed.

Lemma find_job_updateJobStatus (i k : nat) st e now (db : Database) :
  VenomDatabase.find_job k (VenomDatabase.updateJobStatus i st e now db) =
  (λ j, if k =? i then VenomDatabase.set_status st e now j else j) <$>
    VenomDatabase.find_job k db.
Proof.
  unfold VenomDatabase.updateJobStatus. rewrite find_job_map.
  2:{ intros j. by destruct (job_id j =? i). }
  destruct db as [js cs]; simpl.
  destruct (VenomDatabase.find_job k (mkDatabase js cs)) as [row|] eqn:Hrow; [|done].
  apply find_job_elem in Hrow as [_ <-]. reflexivity.
Qed.

Lemma find_job_incrementJobRetry (i k : nat) now (db : Database) :
  VenomDatabase.find_job k (VenomDatabase.incrementJobRetry i now db) =
  (λ j, if k =? i then VenomDatabase.bump_retry now j else j) <$>
    VenomDatabase.find_job k db.
Proof.
  unfold VenomDatabase.incrementJobRetry. rewrite find_job_map.
  2:{ intros j. by destruct (job_id j =? i). }
  destruct db as [js cs]; simpl.
  destruct (VenomDatabase.find_job k (mkDatabase js cs)) as [row|] eqn:Hrow; [|done].
  apply find_job_elem in Hrow as [_ <-]. reflexivity.
Qed.

Lemma updateJobStatus_ids i st e now db :
  map job_id (jobs (VenomDatabase.updateJobStatus i st e now db)) = map job_id (jobs db).
Proof.
  simpl. rewrite map_map. apply map_ext. intros j. by destruct (job_id j =? i).
Qed.

Lemma updateJobStatus_urls i st e now db :
  map url (jobs (VenomDatabase.updateJobStatus i st e now db)) = map url (jobs db).
Proof.
  simpl. rewrite map_map. apply map_ext. intros j. by destruct (job_id j =? i).
Qed.

Lemma incrementJobRetry_ids i now db :
  map job_id (jobs (VenomDatabase.incrementJobRetry i now db)) = map job_id (jobs db).
Proof.
  simpl. rewrite map_map. apply map_ext. intros j. by destruct (job_id j =? i).
Qed.

Lemma incrementJobRetry_urls i now db :
  map url (jobs (VenomDatabase.incrementJobRetry i now db)) = map url (jobs db).
Proof.
  simpl. rewrite map_map. apply map_ext. intros j. by destruct (job_id j =? i).
Qed.

Lemma dispatch_all_ids batch now db :
  map job_id (jobs (dispatch_all batch now db)) = map job_id (jobs db).
Proof.
  unfold dispatch_all. revert db.
  induction batch as [|job batch IH]; intros db; [done|].
  cbn [foldl]. rewrite IH. apply updateJobStatus_ids.
Qed.

Lemma dispatch_all_urls batch now db :
  map url (jobs (dispatch_all batch now db)) = map url (jobs db).
Proof.
  unfold dispatch_all. revert db.
  induction batch as [|job batch IH]; intros db; [done|].
  cbn [foldl]. rewrite IH. apply updateJobStatus_urls.
Qed.

Lemma find_job_dispatch_all (k : nat) batch now (db : Database) :
  VenomDatabase.find_job k (dispatch_all batch now db) =
  (λ j, if bool_decide (k ∈ map job_id batch)
        then VenomDatabase.set_status crawling None now j else j) <$>
    VenomDatabase.find_job k db.
Proof.
  unfold dispatch_all. revert db. induction batch as [|job batch IH]; intros db.
  - simpl. by destruct (VenomDatabase.find_job k db).
  - cbn [foldl]. rewrite IH. unfold JobQueue.dispatch.
    rewrite find_job_updateJobStatus.
    destruct (VenomDatabase.find_job k db) as [row|]; [|done].
    cbn [fmap option_fmap option_map map]. f_equal.
    destruct (Nat.eqb_spec k (job_id job)) as [->|Hne].
    + rewrite (bool_decide_eq_true_2 (job_id job ∈ job_id job :: _))
        by apply list_elem_of_here.
      by case_bool_decide.
    + case_bool_decide as H1; case_bool_decide as H2; try done.
      * exfalso. apply H2. by apply list_elem_of_further.
      * apply elem_of_cons in H2 as [?|?]; done.
Qed.

(** ** The frontier: [addUrl] only appends pending jobs *)

Lemma extends_refl (db : Database) : extends db db.
Proof. exists []. rewrite app_nil_r. by repeat split. Qed.

Lemma extends_trans (db1 db2 db3 : Database) :
  extends db1 db2 → extends db2 db3 → extends db1 db3.
Proof.
  intros (n1 & H1 & F1 & I1 & U1) (n2 & H2 & F2 & I2 & U2).
  exists (n1 ++ n2). split; [by rewrite H2, H1, <- app_assoc|].
  split; [by apply Forall_app|]. split; auto.
Qed.

Lemma extends_saveCapture (c : PageCapture) (db : Database) :
  extends db (VenomDatabase.saveCapture c db).
Proof. exists []. simpl. rewrite app_nil_r. by repeat split. Qed.

Lemma urlExists_false (u : string) (db : Database) :
  VenomDatabase.urlExists u db = false → u ∉ map url (jobs db).
Proof.
  unfold VenomDatabase.urlExists. intros [Hj _]%orb_false_iff Hin.
  apply list_elem_of_fmap in Hin as (j & -> & Hin).
  assert (existsb (λ j0, String.eqb (url j0) (url j)) (jobs db) = true); [|congruence].
  apply existsb_exists. exists j. split; [by apply list_elem_of_In|apply String.eqb_refl].
Qed.

Lemma urlExists_job (u : string) (db : Database) :
  u ∈ map url (jobs db) → VenomDatabase.urlExists u db = true.
Proof.
  intros (j & -> & Hin)%list_elem_of_fmap. unfold VenomDatabase.urlExists.
  apply orb_true_iff. left. apply existsb_exists.
  exists j. split; [by apply list_elem_of_In|apply String.eqb_refl].
Qed.

Lemma extends_addUrl u d p pr uuid now (db : Database) :
  extends db (JobQueue.addUrl u d p pr uuid now db).2.
Proof.
  unfold JobQueue.addUrl.
  destruct (VenomDatabase.urlExists u db) eqn:Hex; [apply extends_refl|].
  simpl. unfold VenomDatabase.addJob.
  destruct (existsb _ (jobs db)) eqn:Hid; [apply extends_refl|].
  cbn [job_id] in Hid. eexists [_]. simpl. split; [done|]. split; [by repeat constructor|].
  rewrite !map_app. simpl. split; intros Hnd.
  - apply NoDup_app. split; [done|]. split; [|apply NoDup_singleton].
    intros i Hi ->%list_elem_of_singleton.
    apply list_elem_of_fmap in Hi as (j & Hj & Hin).
    assert (existsb (λ j0, job_id j0 =? uuid) (jobs db) = true); [|congruence].
    apply existsb_exists. exists j. split; [by apply list_elem_of_In|].
    apply Nat.eqb_eq. done.
  - apply NoDup_app. split; [done|]. split; [|apply NoDup_singleton].
    intros v Hv ->%list_elem_of_singleton. by apply urlExists_false in Hex.
Qed.

(** A second [addUrl] of the same string is refused and changes nothing. *)
Lemma addUrl_existing u d p pr uuid now (db : Database) :
  u ∈ map url (jobs db) → JobQueue.addUrl u d p pr uuid now db = (None, db).
Proof. intros Hin. unfold JobQueue.addUrl. by rewrite urlExists_job. Qed.

Section Frames.

Context `{UrlPlatform}.
Variable config : CrawlerConfig.
Variable options : CrawlOptions.

Lemma enqueue_frame u d p pr (s : State) :
  extends (database s) (database (Venom.enqueue u d p pr s)) ∧
  queued (Venom.enqueue u d p pr s) = queued s ∧
  active (Venom.enqueue u d p pr s) = active s.
Proof.
  unfold Venom.enqueue.
  pose proof (extends_addUrl u d p pr (next_uuid s) (clock s) (database s)) as He.
  destruct (JobQueue.addUrl _ _ _ _ _ _ _) as [[job|] db]; simpl in *; [done|].
  split; [apply extends_refl|done].
Qed.

Lemma enqueue_all_frame (f : string → string * nat * option string * JobPriority)
    (us : list string) (s : State) :
  let s' := foldl (λ s u, Venom.enqueue (f u).1.1.1 (f u).1.1.2 (f u).1.2 (f u).2 s) s us in
  extends (database s) (database s') ∧ queued s' = queued s ∧ active s' = active s.
Proof.
  revert s. induction us as [|u us IH]; intros s; simpl.
  - split; [apply extends_refl|done].
  - destruct (IH (Venom.enqueue (f u).1.1.1 (f u).1.1.2 (f u).1.2 (f u).2 s))
      as (He & Hq & Ha).
    destruct (enqueue_frame (f u).1.1.1 (f u).1.1.2 (f u).1.2 (f u).2 s)
      as (He' & Hq' & Ha').
    split; [by eapply extends_trans|]. split; congruence.
Qed.

Lemma addSeeds_frame (us : list string) (s : State) :
  extends (database s) (database (Venom.addSeeds us s)) ∧
  queued (Venom.addSeeds us s) = queued s ∧
  active (Venom.addSeeds us s) = active s.
Proof. apply (enqueue_all_frame (λ u, (u, 0, None, high))). Qed.

Lemma follow_links_frame (job : CrawlJob) (capture : PageCapture) (s s' : State) :
  Venom.follow_links config job capture s = Normal s' →
  extends (database s) (database s') ∧ queued s' = queued s ∧ active s' = active s.
Proof.
  unfold Venom.follow_links.
  destruct (_ <? _)%Z; [|intros [= <-]; split; [apply extends_refl|done]].
  destruct (Crawler.getLinksToFollow _ _ _ _) as [found|e]; simpl; [|done].
  intros [= <-].
  apply (enqueue_all_frame (λ u, (u, depth job + 1, Some (url job), normal))).
Qed.

Lemma inflight_set_phase jobId ph (s : State) :
  inflight (Venom.set_phase jobId ph s) = inflight s.
Proof.
  unfold inflight. simpl. f_equal. rewrite map_map. apply map_ext.
  intros t. by destruct (_ =? _).
Qed.

Lemma finish_handler_frame (job : CrawlJob) (s : State) (r : completion State) :
  (∀ s', r = Normal s' →
     extends (database s) (database s') ∧ queued s' = queued s ∧ active s' = active s) →
  extends (database s) (database (Venom.finish_handler job s r)) ∧
  inflight (Venom.finish_handler job s r) = inflight s.
Proof.
  intros Hr. destruct r as [s'|e]; simpl.
  - destruct (Hr s' eq_refl) as (He & Hq & Ha). split; [done|].
    rewrite inflight_set_phase. unfold inflight. by rewrite Hq, Ha.
  - split; [apply extends_refl|]. by rewrite inflight_set_phase.
Qed.

Lemma find_task_Some (jobId : nat) (s : State) (job : CrawlJob) (ph : Phase) :
  Venom.find_task jobId s = Some (mkTask job ph) →
  mkTask job ph ∈ active s ∧ job_id job = jobId.
Proof.
  unfold Venom.find_task. intros [Hin Hid]%find_some.
  split; [by apply list_elem_of_In | by apply Nat.eqb_eq in Hid].
Qed.

End Frames.

(** ** One event: its effect, and the invariant *)

Lemma filter_bool_sublist {A} (f : A → bool) (l : list A) :
  List.filter f l `sublist_of` l.
Proof.
  induction l as [|x l IH]; simpl; [done|].
  destruct (f x); [by apply sublist_skip | by apply sublist_cons].
Qed.

Section Effects.

Context `{UrlPlatform}.
Variable config : CrawlerConfig.
Variable options : CrawlOptions.

Abbreviation exec := (Venom.exec config options).
Abbreviation Inv := (Inv (maxRetries options)).
Abbreviation effect := (effect (maxRetries options)).

Lemma frame_effect (s s' : State) :
  extends (database s) (database s') ∧ inflight s' = inflight s → effect s s'.
Proof. intros [He Hi]. apply eff_frame; [done|]. by rewrite Hi. Qed.

Lemma finished_task (jobId : nat) (s : State) (job : CrawlJob) (ph : Phase) :
  Inv s → Venom.find_task jobId s = Some (mkTask job ph) →
  job ∈ inflight s ∧
  inflight (Venom.remove_task jobId s) `sublist_of` inflight s ∧
  (∀ t, t ∈ inflight (Venom.remove_task jobId s) → job_id t ≠ job_id job) ∧
  (∀ t, t ∈ inflight s → job_id t ≠ job_id job →
        t ∈ inflight (Venom.remove_task jobId s)).
Proof.
  intros HI Hf. apply find_task_Some in Hf as [Hin Hid].
  assert (job ∈ map task_job (active s)) as Hjob.
  { apply list_elem_of_fmap. by exists (mkTask job ph). }
  unfold inflight. simpl. split; [apply elem_of_app; by right|].
  split; [|split].
  - apply sublist_app; [done|].
    apply (fmap_sublist task_job), filter_bool_sublist.
  - intros t Ht Heq. pose proof (inv_inflight_ids _ _ HI) as Hnd.
    unfold inflight in Hnd. rewrite map_app in Hnd.
    apply NoDup_app in Hnd as (_ & Hdisj & _).
    apply elem_of_app in Ht as [Ht|Ht].
    + apply (Hdisj (job_id t)); [by apply list_elem_of_fmap_2|].
      rewrite Heq. by apply list_elem_of_fmap_2.
    + apply list_elem_of_fmap in Ht as (t' & -> & Ht').
      apply list_elem_of_In, filter_In in Ht' as [_ Hne].
      apply negb_true_iff, Nat.eqb_neq in Hne. congruence.
  - intros t Ht Hne. apply elem_of_app in Ht as [Ht|Ht]; apply elem_of_app; [by left|].
    right. apply list_elem_of_fmap in Ht as (t' & -> & Ht').
    apply list_elem_of_fmap_2, list_elem_of_In, filter_In.
    split; [by apply list_elem_of_In|].
    apply negb_true_iff, Nat.eqb_neq. congruence.
Qed.

Lemma exec_effect (e : Event) (s s' : State) :
  Inv s → exec e s = Some s' → effect s s'.
Proof.
  intros HI. destruct e as [dt| | | |i|i|i msg|i found|i ok|i|i].
  - (* Tick *)
    intros [= <-]. apply frame_effect. split; [apply extends_refl|done].
  - (* Poll *)
    destruct (isProcessing s) eqn:Hp; [|by simpl; rewrite Hp].
    rewrite exec_Poll by done. intros [= <-]. apply eff_poll; [done|].
    unfold inflight. simpl. rewrite <- !app_assoc. apply Permutation_app_head.
    apply Permutation_app_comm.
  - (* Finish *)
    simpl. destruct (_ && _); [|done]. intros [= <-].
    apply frame_effect. split; [apply extends_refl|done].
  - (* Start *)
    intros (job & ph & Hq & Ha & Hdb)%exec_Start.
    apply eff_frame; [rewrite Hdb; apply extends_refl|].
    unfold inflight. rewrite Hq, Ha, map_app. simpl.
    rewrite app_assoc. symmetry. apply Permutation_cons_append.
  - (* CrawlBegin *)
    simpl. destruct (Venom.find_task i s) as [[job []]|]; try done.
    destruct (Crawler.markVisited _ _) as [v|err]; intros [= <-]; apply frame_effect.
    + rewrite inflight_set_phase. split; [apply extends_refl|done].
    + by apply (finish_handler_frame job s (Throw err)).
  - (* CrawlNull *)
    simpl. destruct (Venom.find_task i s) as [[job []]|]; try done.
    intros [= <-]. apply frame_effect.
    apply (finish_handler_frame job s (Normal (Venom.with_stats Venom.skipped s))).
    intros ? [= <-]. split; [apply extends_refl|done].
  - (* CrawlThrow *)
    simpl. destruct (Venom.find_task i s) as [[job []]|]; try done.
    intros [= <-]. apply frame_effect.
    by apply (finish_handler_frame job s (Throw msg)).
  - (* CrawlCapture *)
    simpl. destruct (Venom.find_task i s) as [[job []]|]; try done.
    destruct (Crawler.normalizeUrl _) as [n|err];
      [destruct (Crawler.getDomain _) as [d|err]|].
    + set (capture := mkCapture _ _ _ _ _ _).
      set (s1 := mkState _ _ _ _ _ _ _ _ _ _).
      assert (extends (database s) (database s1) ∧ inflight s1 = inflight s) as [He1 Hi1].
      { split; [apply extends_saveCapture|done]. }
      destruct (_ && _); intros [= <-].
      * apply frame_effect. by rewrite inflight_set_phase.
      * apply frame_effect.
        destruct (finish_handler_frame job s1 (Venom.follow_links config job capture s1))
          as [He Hi]; [apply follow_links_frame|].
        split; [exact (extends_trans _ _ _ He1 He) | by rewrite Hi].
    + intros [= <-]. apply frame_effect.
      by apply (finish_handler_frame job s (Throw err)).
    + intros [= <-]. apply frame_effect.
      by apply (finish_handler_frame job s (Throw err)).
  - (* CaptionDone *)
    simpl. destruct (Venom.find_task i s) as [[job [| |capture| |]]|]; try done.
    intros [= <-]. apply frame_effect.
    set (s1 := if ok then _ else _).
    assert (database s1 = database s ∧ inflight s1 = inflight s) as [Hd1 Hi1]
      by (subst s1; by destruct ok).
    destruct (finish_handler_frame job s1 (Venom.follow_links config job capture s1))
      as [He Hi]; [apply follow_links_frame|].
    rewrite Hd1 in He. split; [done | congruence].
  - (* Complete *)
    simpl. destruct (Venom.find_task i s) as [[job []]|] eqn:Hf; try done.
    intros [= <-]. destruct (finished_task i s job _ HI Hf) as (Hin & Hsub & Hne & Hk).
    by apply (eff_complete _ _ _ job).
  - (* Fail *)
    simpl. destruct (Venom.find_task i s) as [[job [| | | |msg]]|] eqn:Hf; try done.
    intros [= <-]. destruct (finished_task i s job _ HI Hf) as (Hin & Hsub & Hne & Hk).
    by apply (eff_fail _ _ _ job msg).
Qed.

End Effects.

(** ** The invariant is kept by every event *)

Lemma getPendingJobs_sublist_perm (limit : nat) (db : Database) :
  ∃ l, VenomDatabase.getPendingJobs limit db `sublist_of` l ∧ l ≡ₚ
       List.filter VenomDatabase.is_pending (jobs db).
Proof.
  exists (VenomDatabase.order_by (List.filter VenomDatabase.is_pending (jobs db))).
  split; [apply sublist_take | apply order_by_perm].
Qed.

Lemma getPendingJobs_ids_NoDup (limit : nat) (db : Database) :
  NoDup (map job_id (jobs db)) →
  NoDup (map job_id (VenomDatabase.getPendingJobs limit db)).
Proof.
  intros Hnd. destruct (getPendingJobs_sublist_perm limit db) as (l & Hsub & Hperm).
  eapply sublist_NoDup; [|exact (fmap_sublist job_id _ _ Hsub)].
  change (NoDup (job_id <$> l)). rewrite Hperm.
  eapply sublist_NoDup; [exact Hnd|].
  exact (fmap_sublist job_id _ _ (filter_bool_sublist _ _)).
Qed.

Lemma find_job_extends (i : nat) (db db' : Database) (new : list CrawlJob) :
  jobs db' = jobs db ++ new →
  VenomDatabase.find_job i db' =
  match VenomDatabase.find_job i db with
  | Some row => Some row
  | None => List.find (λ j, job_id j =? i) new
  end.
Proof.
  unfold VenomDatabase.find_job. intros ->.
  induction (jobs db) as [|j js IH]; simpl; [done|]. by destruct (job_id j =? i).
Qed.

Section Invariant.

Context `{UrlPlatform}.
Variable config : CrawlerConfig.
Variable options : CrawlOptions.

Abbreviation exec := (Venom.exec config options).
Abbreviation Inv := (Inv (maxRetries options)).

Lemma Inv_frame (s s' : State) :
  Inv s → extends (database s) (database s') → inflight s' ≡ₚ inflight s → Inv s'.
Proof.
  intros [Hids Hurls Hfl Hrows Hret] (new & Hjobs & Hnew & Hi & Hu) Hperm.
  pose proof (λ i, find_job_extends i _ _ _ Hjobs) as Hfind.
  split; auto.
  - by rewrite Hperm.
  - intros t Ht. rewrite Hperm in Ht. destruct (Hrows t Ht) as (row & Hrow & ?).
    exists row. split; [|done]. by rewrite Hfind, Hrow.
  - intros i row Hrow Hst. rewrite Hfind in Hrow.
    destruct (VenomDatabase.find_job i (database s)) as [row0|] eqn:H0.
    + injection Hrow as <-. by eapply Hret.
    + apply find_some in Hrow as [Hin _]. apply list_elem_of_In in Hin.
      rewrite Forall_forall in Hnew. destruct (Hnew row Hin) as [_ ->]. lia.
Qed.

Lemma Inv_poll (s s' : State) :
  Inv s →
  database s' = dispatch_all (VenomDatabase.getPendingJobs 10 (database s))
                             (clock s) (database s) →
  inflight s' ≡ₚ inflight s ++ VenomDatabase.getPendingJobs 10 (database s) →
  Inv s'.
Proof.
  intros [Hids Hurls Hfl Hrows Hret] Hdb Hperm.
  set (batch := VenomDatabase.getPendingJobs 10 (database s)) in *.
  assert (∀ b, b ∈ batch →
            VenomDatabase.find_job (job_id b) (database s) = Some b ∧ status b = pending)
    as Hbatch.
  { intros b Hb. apply getPendingJobs_elem in Hb as [Hin Hp].
    split; [by apply find_job_NoDup|done]. }
  split.
  - by rewrite Hdb, dispatch_all_ids.
  - by rewrite Hdb, dispatch_all_urls.
  - rewrite Hperm, map_app. apply NoDup_app. split; [done|].
    split; [|by apply getPendingJobs_ids_NoDup].
    intros i (t & -> & Ht)%list_elem_of_fmap (b & Hid & Hb)%list_elem_of_fmap.
    destruct (Hrows t Ht) as (row & Hrow & Hst & _).
    destruct (Hbatch b Hb) as [Hfb Hpb]. rewrite Hid, Hfb in Hrow.
    injection Hrow as ->. congruence.
  - intros t Ht. rewrite Hperm in Ht. rewrite Hdb, find_job_dispatch_all.
    apply elem_of_app in Ht as [Ht|Ht].
    + destruct (Hrows t Ht) as (row & -> & Hst & Hrc). simpl.
      eexists. split; [done|]. by case_bool_decide.
    + destruct (Hbatch t Ht) as [-> _]. simpl.
      eexists. split; [done|].
      rewrite bool_decide_eq_true_2 by (by apply list_elem_of_fmap_2). done.
  - intros i row'. rewrite Hdb, find_job_dispatch_all.
    destruct (VenomDatabase.find_job i (database s)) as [row|] eqn:Hrow; [|done].
    simpl. intros [= <-] Hst. case_bool_decide as Hin.
    + apply list_elem_of_fmap in Hin as (b & -> & Hb).
      destruct (Hbatch b Hb) as [Hfb Hpb]. rewrite Hfb in Hrow. injection Hrow as ->.
      simpl. eapply Hret; [exact Hfb|by left].
    + by eapply Hret.
Qed.

Lemma Inv_finished (s s' : State) (job : CrawlJob) (f : CrawlJob → CrawlJob) :
  Inv s →
  job ∈ inflight s →
  (∀ i, VenomDatabase.find_job i (database s') =
        (λ j, if i =? job_id job then f j else j) <$>
          VenomDatabase.find_job i (database s)) →
  map job_id (jobs (database s')) = map job_id (jobs (database s)) →
  map url (jobs (database s')) = map url (jobs (database s)) →
  (∀ row, retryCount row = retryCount job →
          status (f row) = pending ∨ status (f row) = crawling →
          retryCount (f row) ≤ maxRetries options) →
  inflight s' `sublist_of` inflight s →
  (∀ t, t ∈ inflight s' → job_id t ≠ job_id job) →
  Inv s'.
Proof.
  intros [Hids Hurls Hfl Hrows Hret] Hjob Hfind Hi Hu Hf Hsub Hne.
  split.
  - by rewrite Hi.
  - by rewrite Hu.
  - eapply sublist_NoDup; [exact Hfl|]. exact (fmap_sublist job_id _ _ Hsub).
  - intros t Ht. pose proof (Hne t Ht) as Hid.
    assert (t ∈ inflight s) as Ht' by (eapply elem_of_sublist; [exact Ht|exact Hsub]).
    destruct (Hrows t Ht') as (row & Hrow & ?).
    exists row. rewrite Hfind, Hrow. simpl.
    by rewrite (proj2 (Nat.eqb_neq _ _) Hid).
  - intros i row'. rewrite Hfind.
    destruct (VenomDatabase.find_job i (database s)) as [row|] eqn:Hrow; [|done].
    simpl. intros [= <-] Hst. destruct (Nat.eqb_spec i (job_id job)) as [->|_].
    + apply Hf; [|done]. destruct (Hrows job Hjob) as (row0 & Hrow0 & _ & Hrc).
      congruence.
    + by eapply Hret.
Qed.

Lemma find_job_on_success (job : CrawlJob) now (db : Database) (i : nat) :
  VenomDatabase.find_job i (JobQueue.on_success job now db) =
  (λ j, if i =? job_id job then VenomDatabase.set_status completed None now j else j) <$>
    VenomDatabase.find_job i db.
Proof. unfold JobQueue.on_success. apply find_job_updateJobStatus. Qed.

Lemma find_job_on_failure (job : CrawlJob) message now (db : Database) (i : nat) :
  VenomDatabase.find_job i (JobQueue.on_failure (maxRetries options) job message now db) =
  (λ j, if i =? job_id job
        then failure_row (maxRetries options) job message now j else j) <$>
    VenomDatabase.find_job i db.
Proof.
  unfold JobQueue.on_failure, failure_row.
  destruct (retryCount job <? maxRetries options);
    rewrite find_job_updateJobStatus, find_job_incrementJobRetry;
    destruct (VenomDatabase.find_job i db) as [row|]; simpl; try done;
    by destruct (i =? job_id job).
Qed.

Lemma exec_Inv (e : Event) (s s' : State) : Inv s → exec e s = Some s' → Inv s'.
Proof.
  intros HI He. destruct (exec_effect config options e s s' HI He)
    as [Hext Hperm|Hdb Hperm|job Hjob Hdb Hsub Hne Hk|job msg Hjob Hdb Hsub Hne Hk].
  - by eapply Inv_frame.
  - by eapply Inv_poll.
  - eapply (Inv_finished s s' job); try done.
    + intros i. rewrite Hdb. apply find_job_on_success.
    + rewrite Hdb. apply updateJobStatus_ids.
    + rewrite Hdb. apply updateJobStatus_urls.
    + simpl. intros row _ [?|?]; done.
  - eapply (Inv_finished s s' job); try done.
    + intros i. rewrite Hdb. apply find_job_on_failure.
    + rewrite Hdb. unfold JobQueue.on_failure.
      destruct (_ <? _); by rewrite updateJobStatus_ids, incrementJobRetry_ids.
    + rewrite Hdb. unfold JobQueue.on_failure.
      destruct (_ <? _); by rewrite updateJobStatus_urls, incrementJobRetry_urls.
    + intros row Hrc. unfold failure_row.
      destruct (Nat.ltb_spec (retryCount job) (maxRetries options)); simpl;
        [lia | intros [?|?]; done].
Qed.

End Invariant.

(** ** Runs of the crawl *)

Section Runs.

Context `{UrlPlatform}.
Variable config : CrawlerConfig.
Variable options : CrawlOptions.

Abbreviation exec := (Venom.exec config options).
Abbreviation run := (Venom.run config options).
Abbreviation reachable := (Venom.reachable config options).
Abbreviation Inv := (Inv (maxRetries options)).

Lemma exec_row_step (e : Event) (s s' : State) (i : nat) (row : CrawlJob) :
  Inv s → exec e s = Some s' →
  VenomDatabase.find_job i (database s) = Some row →
  ∃ row', VenomDatabase.find_job i (database s') = Some row' ∧
          row_step (maxRetries options) (clock s) row row'.
Proof.
  intros HI He Hrow. pose proof HI as [Hids Hurls Hfl Hrows Hret].
  destruct (exec_effect config options e s s' HI He)
    as [(new & Hjobs & _) Hperm|Hdb Hperm|job Hjob Hdb Hsub Hne Hk|job msg Hjob Hdb Hsub Hne Hk].
  - exists row. split; [|constructor].
    by rewrite (find_job_extends i _ _ _ Hjobs), Hrow.
  - rewrite Hdb, find_job_dispatch_all, Hrow. simpl.
    eexists. split; [done|]. case_bool_decide as Hin; [|constructor].
    apply list_elem_of_fmap in Hin as (b & -> & Hb).
    apply getPendingJobs_elem in Hb as [Hin Hp].
    rewrite (find_job_NoDup _ _ Hids Hin) in Hrow. injection Hrow as ->.
    by constructor.
  - rewrite Hdb, find_job_on_success, Hrow. simpl.
    eexists. split; [done|]. destruct (Nat.eqb_spec i (job_id job)) as [->|_]; [|constructor].
    destruct (Hrows job Hjob) as (row0 & Hrow0 & Hst & _).
    rewrite Hrow in Hrow0. injection Hrow0 as <-. by constructor.
  - rewrite Hdb, (find_job_on_failure options), Hrow. simpl.
    eexists. split; [done|]. destruct (Nat.eqb_spec i (job_id job)) as [->|_]; [|constructor].
    destruct (Hrows job Hjob) as (row0 & Hrow0 & Hst & Hrc).
    rewrite Hrow in Hrow0. injection Hrow0 as <-.
    unfold failure_row. rewrite <- Hrc.
    destruct (Nat.ltb_spec (retryCount row) (maxRetries options)).
    + by constructor.
    + constructor; [done|]. assert (retryCount row ≤ maxRetries options); [|lia].
      eapply Hret; [exact Hrow|by right].
Qed.

Lemma exec_new_row (e : Event) (s s' : State) (i : nat) (row' : CrawlJob) :
  Inv s → exec e s = Some s' →
  VenomDatabase.find_job i (database s) = None →
  VenomDatabase.find_job i (database s') = Some row' →
  status row' = pending ∧ retryCount row' = 0.
Proof.
  intros HI He Hnone.
  destruct (exec_effect config options e s s' HI He)
    as [(new & Hjobs & Hnew & _) Hperm|Hdb Hperm|job Hjob Hdb Hsub Hne Hk|job msg Hjob Hdb Hsub Hne Hk].
  - rewrite (find_job_extends i _ _ _ Hjobs), Hnone.
    intros [Hin _]%find_some. rewrite Forall_forall in Hnew.
    apply Hnew. by apply list_elem_of_In.
  - by rewrite Hdb, find_job_dispatch_all, Hnone.
  - by rewrite Hdb, find_job_on_success, Hnone.
  - by rewrite Hdb, (find_job_on_failure options), Hnone.
Qed.

Lemma run_Inv (es : list Event) (s s' : State) : Inv s → run es s = Some s' → Inv s'.
Proof.
  revert s. induction es as [|e es IH]; intros s HI; simpl.
  - by intros [= <-].
  - destruct (exec e s) as [s1|] eqn:He; [|done]. simpl.
    apply IH. by eapply exec_Inv.
Qed.

Lemma initial_Inv (seeds : list string) :
  Inv (Venom.start_crawl (Venom.addSeeds seeds Venom.initial)).
Proof.
  assert (Inv Venom.initial) as HI.
  { split; simpl; try apply NoDup_nil_2; try done.
    intros t Ht. by apply elem_of_nil in Ht. }
  destruct (addSeeds_frame seeds Venom.initial) as (He & Hq & Ha).
  eapply (Inv_frame options (Venom.addSeeds seeds Venom.initial)).
  - eapply (Inv_frame options Venom.initial); [done|done|].
    unfold inflight. by rewrite Hq, Ha.
  - apply extends_refl.
  - done.
Qed.

Lemma reachable_Inv (seeds : list string) (s : State) : reachable seeds s → Inv s.
Proof. intros [es Hes]. eapply run_Inv; [apply initial_Inv|exact Hes]. Qed.

Lemma reachable_step (seeds : list string) (e : Event) (s s' : State) :
  reachable seeds s → exec e s = Some s' → reachable seeds s'.
Proof.
  intros [es Hes] He. exists (es ++ [e]).
  revert Hes. generalize (Venom.start_crawl (Venom.addSeeds seeds Venom.initial)).
  induction es as [|e0 es IH]; intros s0; simpl.
  - intros [= ->]. by rewrite He.
  - destruct (exec e0 s0); [|done]. simpl. apply IH.
Qed.

End Runs.

(** ** The life of a job *)

Lemma row_step_same_job (maxRetries now : nat) (row row' : CrawlJob) :
  row_step maxRetries now row row' → same_job row row'.
Proof. intros []; by repeat split. Qed.

Lemma row_step_terminal (maxRetries now : nat) (row row' : CrawlJob) :
  row_step maxRetries now row row' →
  status row = completed ∨ status row = failed → row' = row.
Proof. intros [] [?|?]; congruence. Qed.

Lemma row_step_well_counted (maxRetries now : nat) (row row' : CrawlJob) :
  row_step maxRetries now row row' →
  well_counted maxRetries row → well_counted maxRetries row'.
Proof.
  unfold well_counted.
  intros [row0|row0 Hs|row0 Hs|row0 msg Hs Hlt|row0 msg Hs Heq]; simpl;
    try rewrite Hs; simpl; [done|lia..].
Qed.

Section Lives.

Context `{UrlPlatform}.
Variable config : CrawlerConfig.
Variable options : CrawlOptions.
Variable seeds : list string.

Abbreviation exec := (Venom.exec config options).
Abbreviation run := (Venom.run config options).
Abbreviation reachable := (Venom.reachable config options seeds).

Lemma reachable_ind (P : State → Prop) :
  P (Venom.start_crawl (Venom.addSeeds seeds Venom.initial)) →
  (∀ e s s', reachable s → P s → exec e s = Some s' → P s') →
  ∀ s, reachable s → P s.
Proof.
  intros Hinit Hstep s [es Hes]. revert s Hes.
  induction es as [|e es IH] using rev_ind; intros s Hes.
  - simpl in Hes. by injection Hes as <-.
  - assert (∃ s1, run es (Venom.start_crawl (Venom.addSeeds seeds Venom.initial)) = Some s1
                  ∧ exec e s1 = Some s) as (s1 & Hs1 & He).
    { revert Hes. generalize (Venom.start_crawl (Venom.addSeeds seeds Venom.initial)).
      clear IH. induction es as [|e0 es IH']; intros s0; simpl.
      - destruct (exec e s0) as [s1|] eqn:He; [|done]. simpl. intros [= <-]. eauto.
      - destruct (exec e0 s0) as [s1|]; [|done]. simpl. apply IH'. }
    eapply Hstep; [by exists es | by apply IH | exact He].
Qed.

Lemma reachable_run (es : list Event) (s s' : State) :
  reachable s → run es s = Some s' → reachable s'.
Proof.
  revert s. induction es as [|e es IH]; intros s Hs; simpl.
  - by intros [= <-].
  - destruct (exec e s) as [s1|] eqn:He; [|done]. simpl.
    apply IH. by eapply reachable_step.
Qed.


Lemma reachable_well_counted (s : State) (i : nat) (row : CrawlJob) :
  reachable s → VenomDatabase.find_job i (database s) = Some row →
  well_counted (maxRetries options) row.
Proof.
  intros Hs. revert i row. revert s Hs.
  apply (reachable_ind (λ s, ∀ i row,
           VenomDatabase.find_job i (database s) = Some row →
           well_counted (maxRetries options) row)); [|intros e s s' Hs IH He].
  - intros i row [Hin _]%find_job_elem.
    destruct (addSeeds_frame seeds Venom.initial) as ((new & Hjobs & Hnew & _) & _).
    simpl in Hin, Hjobs. rewrite Hjobs in Hin. rewrite Forall_forall in Hnew.
    destruct (Hnew row Hin) as [Hst Hrc]. unfold well_counted. rewrite Hst. lia.
  - intros i row' Hrow'. pose proof (reachable_Inv config options seeds s Hs) as HI.
    destruct (VenomDatabase.find_job i (database s)) as [row|] eqn:Hrow.
    + destruct (exec_row_step config options e s s' i row HI He Hrow) as (r & Hr & Hstep).
      rewrite Hrow' in Hr. injection Hr as <-.
      eapply row_step_well_counted; [exact Hstep|]. by eapply IH.
    + destruct (exec_new_row config options e s s' i row' HI He Hrow Hrow') as [Hst Hrc].
      unfold well_counted. rewrite Hst. lia.
Qed.




End Lives.

Lemma demo_seeded_reachable :
  Venom.reachable demo_config demo_options ["https://a.com/"] demo_seeded.
Proof. by exists []. Qed.

Lemma demo_seeded_row :
  VenomDatabase.find_job 0 (database demo_seeded) = Some demo_job.
Proof. reflexivity. Qed.

Lemma demo_poll : Venom.exec demo_config demo_options Poll demo_seeded = Some demo_polled.
Proof. reflexivity. Qed.




Lemma demo_done_run :
  Venom.run demo_config demo_options
    [Poll; Start; CrawlBegin 0; CrawlNull 0; Complete 0] demo_seeded = Some demo_done.
Proof. vm_compute. reflexivity. Qed.

Lemma demo_done_reachable :
  Venom.reachable demo_config demo_options ["https://a.com/"] demo_done.
Proof. eexists. exact demo_done_run. Qed.

Lemma demo_done_row :
  VenomDatabase.find_job 0 (database demo_done) = Some demo_done_job.
Proof. vm_compute. reflexivity. Qed.

Lemma demo_later_run :
  Venom.run demo_config demo_options [Tick 5; Poll] demo_done = Some demo_later.
Proof. vm_compute. reflexivity. Qed.


(** ** Jobs in flight *)

Section InFlight.

Context `{UrlPlatform}.
Variable config : CrawlerConfig.
Variable options : CrawlOptions.
Variable seeds : list string.

Abbreviation exec := (Venom.exec config options).
Abbreviation reachable := (Venom.reachable config options seeds).


Lemma crawling_rows_in_flight (s : State) (i : nat) (row : CrawlJob) :
  reachable s →
  VenomDatabase.find_job i (database s) = Some row → status row = crawling →
  i ∈ map job_id (inflight s).
Proof.
  intros Hs. revert i row. revert s Hs.
  apply (reachable_ind config options seeds (λ s, ∀ i row,
           VenomDatabase.find_job i (database s) = Some row → status row = crawling →
           i ∈ map job_id (inflight s))); [|intros e s s' Hs IH He].
  - intros i row [Hin _]%find_job_elem Hst.
    destruct (addSeeds_frame seeds Venom.initial) as ((new & Hjobs & Hnew & _) & _).
    simpl in Hin, Hjobs. rewrite Hjobs in Hin. rewrite Forall_forall in Hnew.
    destruct (Hnew row Hin) as [Hp _]. congruence.
  - intros i row' Hrow' Hst'.
    pose proof (reachable_Inv config options seeds s Hs) as HI.
    pose proof HI as [Hids Hurls Hfl Hrows Hret].
    destruct (exec_effect config options e s s' HI He)
      as [(new & Hjobs & Hnew & _) Hperm|Hdb Hperm
         |job Hjob Hdb Hsub Hne Hk|job msg Hjob Hdb Hsub Hne Hk].
    + rewrite Hperm. rewrite (find_job_extends i _ _ _ Hjobs) in Hrow'.
      destruct (VenomDatabase.find_job i (database s)) as [row|] eqn:Hrow.
      * injection Hrow' as <-. by eapply IH.
      * apply find_some in Hrow' as [Hin _]. apply list_elem_of_In in Hin.
        rewrite Forall_forall in Hnew. destruct (Hnew row' Hin) as [Hp _]. congruence.
    + rewrite Hperm, map_app. apply elem_of_app.
      rewrite Hdb, find_job_dispatch_all in Hrow'.
      destruct (VenomDatabase.find_job i (database s)) as [row|] eqn:Hrow; [|done].
      simpl in Hrow'. injection Hrow' as <-.
      case_bool_decide as Hin; [by right|]. left. by eapply IH.
    + rewrite Hdb, find_job_on_success in Hrow'.
      destruct (VenomDatabase.find_job i (database s)) as [row|] eqn:Hrow; [|done].
      simpl in Hrow'. injection Hrow' as <-.
      destruct (Nat.eqb_spec i (job_id job)) as [->|Hi]; [done|].
      apply (IH i row Hrow) in Hst' as (t & -> & Ht)%list_elem_of_fmap.
      apply list_elem_of_fmap_2. by apply Hk.
    + rewrite Hdb, (find_job_on_failure options) in Hrow'.
      destruct (VenomDatabase.find_job i (database s)) as [row|] eqn:Hrow; [|done].
      simpl in Hrow'. injection Hrow' as <-.
      destruct (Nat.eqb_spec i (job_id job)) as [->|Hi].
      * unfold failure_row in Hst'. simpl in Hst'. by destruct (_ <? _).
      * apply (IH i row Hrow) in Hst' as (t & -> & Ht)%list_elem_of_fmap.
        apply list_elem_of_fmap_2. by apply Hk.
Qed.


Lemma getPendingJobs_nil (n : nat) (db : Database) (row : CrawlJob) :
  VenomDatabase.getPendingJobs (S n) db = [] → row ∈ jobs db → status row ≠ pending.
Proof.
  unfold VenomDatabase.getPendingJobs. intros Hnil Hin Hp.
  assert (row ∈ VenomDatabase.order_by (List.filter VenomDatabase.is_pending (jobs db)))
    as Hrow.
  { rewrite order_by_perm. apply list_elem_of_In, filter_In.
    split; [by apply list_elem_of_In|]. by apply bool_decide_eq_true. }
  destruct (VenomDatabase.order_by _) as [|j l]; [by apply elem_of_nil in Hrow|done].
Qed.


End InFlight.




(** ** The worker pool *)

Section Pool.

Context `{UrlPlatform}.
Variable config : CrawlerConfig.
Variable options : CrawlOptions.

Abbreviation exec := (Venom.exec config options).
Abbreviation Control := (Control config options).

Lemma same_control_refl (s : State) : same_control s s.
Proof. by repeat split. Qed.

Lemma same_control_trans (s1 s2 s3 : State) :
  same_control s1 s2 → same_control s2 s3 → same_control s1 s3.
Proof. unfold same_control. intuition congruence. Qed.

Lemma enqueue_control u d p pr (s : State) : same_control s (Venom.enqueue u d p pr s).
Proof.
  unfold Venom.enqueue.
  destruct (JobQueue.addUrl _ _ _ _ _ _ _) as [[job|] db]; by repeat split.
Qed.

Lemma follow_links_control (job : CrawlJob) (capture : PageCapture) (s s' : State) :
  Venom.follow_links config job capture s = Normal s' → same_control s s'.
Proof.
  unfold Venom.follow_links.
  destruct (_ <? _)%Z; [|intros [= <-]; apply same_control_refl].
  destruct (Crawler.getLinksToFollow _ _ _ _) as [found|e]; simpl; [|done].
  intros [= <-]. revert s. induction found as [|u us IH]; intros s; simpl.
  - apply same_control_refl.
  - eapply same_control_trans; [apply enqueue_control|apply IH].
Qed.

Lemma awaiting_set_phase_le (jobId : nat) (ph : Phase) (s : State) :
  is_awaiting ph = false → awaiting (Venom.set_phase jobId ph s) ≤ awaiting s.
Proof.
  intros Hph. unfold awaiting. simpl.
  induction (active s) as [|t ts IH]; simpl; [done|].
  destruct (job_id (task_job t) =? jobId); simpl.
  - rewrite Hph. destruct (is_awaiting (phase t)); simpl; lia.
  - destruct (is_awaiting (phase t)); simpl; lia.
Qed.

Lemma awaiting_set_phase_lt (jobId : nat) (ph : Phase) (s : State)
    (job : CrawlJob) (ph0 : Phase) :
  Venom.find_task jobId s = Some (mkTask job ph0) → is_awaiting ph0 = true →
  is_awaiting ph = false → awaiting (Venom.set_phase jobId ph s) + 1 ≤ awaiting s.
Proof.
  intros Hf Hph0 Hph. unfold awaiting, Venom.find_task in *. simpl.
  induction (active s) as [|t ts IH]; simpl in *; [done|].
  destruct (job_id (task_job t) =? jobId) eqn:Hid; simpl.
  - injection Hf as ->. simpl. rewrite Hph0, Hph. simpl.
    pose proof (awaiting_set_phase_le jobId ph
                  (mkState (database s) (visitedUrls s) (stats s) (crawledSoFar s)
                           (isProcessing s) (isPaused s) (queued s) ts
                           (next_uuid s) (clock s)) Hph) as Hle.
    unfold awaiting in Hle. simpl in Hle. lia.
  - specialize (IH Hf). destruct (is_awaiting (phase t)); simpl; lia.
Qed.

Lemma awaiting_set_phase_eq (jobId : nat) (ph : Phase) (s : State)
    (job : CrawlJob) (ph0 : Phase) :
  NoDup (map job_id (map task_job (active s))) →
  Venom.find_task jobId s = Some (mkTask job ph0) →
  is_awaiting ph0 = is_awaiting ph →
  awaiting (Venom.set_phase jobId ph s) = awaiting s.
Proof.
  intros Hnd Hf Hph. unfold awaiting, Venom.find_task in *. simpl.
  induction (active s) as [|t ts IH]; simpl in *; [done|].
  apply NoDup_cons in Hnd as [Hnot Hnd].
  destruct (Nat.eqb_spec (job_id (task_job t)) jobId) as [Hid|Hid]; simpl.
  - injection Hf as ->. cbn [phase task_job]. rewrite <- Hph.
    assert (map (λ t, if job_id (task_job t) =? jobId
                      then mkTask (task_job t) ph else t) ts = ts) as ->;
      [|by destruct (is_awaiting ph0)].
    rewrite <- (map_id ts) at 2. apply map_ext_in. intros t Ht.
    destruct (Nat.eqb_spec (job_id (task_job t)) jobId) as [Heq|]; [|done].
    exfalso. apply Hnot. rewrite Hid, <- Heq.
    apply list_elem_of_In. by apply in_map, in_map.
  - specialize (IH Hnd Hf). destruct (is_awaiting (phase t)); simpl; lia.
Qed.

Lemma awaiting_filter_le (f : Task → bool) (l : list Task) :
  length (List.filter (λ t, is_awaiting (phase t)) (List.filter f l)) ≤
  length (List.filter (λ t, is_awaiting (phase t)) l).
Proof.
  induction l as [|t ts IH]; simpl; [done|].
  destruct (f t); simpl; destruct (is_awaiting (phase t)); simpl; lia.
Qed.

Lemma awaiting_le_active (s : State) : awaiting s ≤ length (active s).
Proof. unfold awaiting. apply filter_length_le. Qed.

Lemma finish_handler_shape (job : CrawlJob) (s : State) (r : completion State) :
  (∀ s', r = Normal s' → same_control s s') →
  ∃ ph s', Venom.finish_handler job s r = Venom.set_phase (job_id job) ph s' ∧
           is_awaiting ph = false ∧ same_control s s'.
Proof.
  intros Hr. destruct r as [s'|e]; simpl.
  - exists Returned, s'. auto.
  - exists (Threw e), (Venom.with_stats Venom.failed_one s).
    split; [done|]. split; [done|]. by repeat split.
Qed.

Lemma set_phase_same_awaiting (jobId : nat) (ph : Phase) (s s' : State) :
  same_control s s' → awaiting s' = awaiting s ∧
  Venom.find_task jobId s' = Venom.find_task jobId s.
Proof.
  intros (_ & _ & _ & _ & _ & Ha & _). unfold awaiting, Venom.find_task. by rewrite Ha.
Qed.

Lemma set_phase_ctl (jobId : nat) (ph : Phase) (s : State) :
  length (active (Venom.set_phase jobId ph s)) = length (active s) ∧
  isPaused (Venom.set_phase jobId ph s) = isPaused s ∧
  isProcessing (Venom.set_phase jobId ph s) = isProcessing s ∧
  crawledSoFar (Venom.set_phase jobId ph s) = crawledSoFar s.
Proof. simpl. by rewrite length_map. Qed.

Lemma finish_handler_ctl (job : CrawlJob) (s : State) (r : completion State) :
  (∀ s', r = Normal s' → same_control s s') →
  length (active (Venom.finish_handler job s r)) = length (active s) ∧
  isPaused (Venom.finish_handler job s r) = isPaused s ∧
  isProcessing (Venom.finish_handler job s r) = isProcessing s ∧
  crawledSoFar (Venom.finish_handler job s r) = crawledSoFar s ∧
  awaiting (Venom.finish_handler job s r) ≤ awaiting s ∧
  (∀ ph0, Venom.find_task (job_id job) s = Some (mkTask job ph0) →
          is_awaiting ph0 = true →
          awaiting (Venom.finish_handler job s r) + 1 ≤ awaiting s).
Proof.
  intros Hr. destruct (finish_handler_shape job s r Hr) as (ph & s' & -> & Hph & Hc).
  destruct (set_phase_ctl (job_id job) ph s') as (Hl & Hp & Hi & Hcr).
  destruct (set_phase_same_awaiting (job_id job) ph s s' Hc) as [Haw Hft].
  destruct Hc as (_ & Hc & Hip & Hpa & _ & Ha & _).
  rewrite Hl, Hp, Hi, Hcr, Ha, Hpa, Hip, Hc. repeat split.
  - rewrite <- Haw. by apply awaiting_set_phase_le.
  - intros ph0 Hf Hph0. rewrite <- Haw. rewrite <- Hft in Hf.
    by eapply awaiting_set_phase_lt.
Qed.

Local Opaque Venom.finish_handler.

Lemma exec_ctl (e : Event) (s s' : State) :
  Inv (maxRetries options) s → exec e s = Some s' →
  (length (active s') ≤ length (active s) ∧ isPaused s' = isPaused s ∧
   (isProcessing s' = isProcessing s ∨ isProcessing s' = false) ∧
   crawledSoFar s' + awaiting s' ≤ crawledSoFar s + awaiting s) ∨
  (length (active s') = S (length (active s)) ∧
   length (active s) < concurrency config ∧ isPaused s = false ∧
   crawledSoFar s' = crawledSoFar s ∧
   ((isPaused s' = false ∧ isProcessing s' = isProcessing s ∧
     awaiting s' = S (awaiting s) ∧ Venom.limit_reached options s = false) ∨
    (isPaused s' = true ∧ isProcessing s' = false ∧ awaiting s' = awaiting s))).
Proof.
  intros HI. destruct e as [dt| | | |i|i|i msg|i found|i ok|i|i].
  - (* Tick *) intros [= <-]. left. simpl. unfold awaiting. simpl. auto with lia.
  - (* Poll *)
    destruct (isProcessing s) eqn:Hp; [|by simpl; rewrite Hp].
    rewrite exec_Poll by done. intros [= <-]. left. unfold awaiting. simpl. auto with lia.
  - (* Finish *)
    simpl. destruct (_ && _); [|done]. intros [= <-]. left.
    unfold awaiting. simpl. auto with lia.
  - (* Start *)
    simpl. destruct (queued s) as [|job rest]; [done|].
    destruct (isPaused s) eqn:Hpa; [done|]. simpl.
    destruct (Nat.ltb_spec (length (active s)) (concurrency config)); [|done].
    destruct (Venom.limit_reached options s) eqn:Hlim; intros [= <-]; right;
      unfold awaiting; simpl; rewrite length_app, List.filter_app, length_app; simpl.
    + split; [lia|]. split; [done|]. split; [done|]. split; [done|].
      right. repeat split. lia.
    + split; [lia|]. split; [done|]. split; [done|]. split; [done|].
      left. repeat split. lia.
  - (* CrawlBegin *)
    cbn [Venom.exec]. destruct (Venom.find_task i s) as [[job []]|] eqn:Hf; try done.
    destruct (Crawler.markVisited _ _) as [v|err]; intros [= <-]; left.
    + set (s1 := mkState _ v _ _ _ _ _ _ _ _).
      destruct (set_phase_ctl i Fetching s1) as (Hl & Hp & Hi & Hc).
      rewrite Hl, Hp, Hi, Hc.
      rewrite (awaiting_set_phase_eq i Fetching s1 job Delaying); [simpl; auto with lia| |done|done].
      pose proof (inv_inflight_ids _ _ HI) as Hnd. unfold inflight in Hnd.
      rewrite map_app in Hnd. by apply NoDup_app in Hnd as (_ & _ & Hnd).
    + destruct (finish_handler_ctl job s (Throw err)) as (Hl & Hp & Hi & Hc & Haw & _);
        [done|]. rewrite Hl, Hp, Hi, Hc. auto with lia.
  - (* CrawlNull *)
    cbn [Venom.exec]. destruct (Venom.find_task i s) as [[job []]|]; try done.
    intros [= <-]. left.
    destruct (finish_handler_ctl job s (Normal (Venom.with_stats Venom.skipped s)))
      as (Hl & Hp & Hi & Hc & Haw & _); [by intros ? [= <-]|].
    rewrite Hl, Hp, Hi, Hc. auto with lia.
  - (* CrawlThrow *)
    cbn [Venom.exec]. destruct (Venom.find_task i s) as [[job []]|]; try done.
    intros [= <-]. left.
    destruct (finish_handler_ctl job s (Throw msg)) as (Hl & Hp & Hi & Hc & Haw & _);
      [done|]. rewrite Hl, Hp, Hi, Hc. auto with lia.
  - (* CrawlCapture *)
    cbn [Venom.exec]. destruct (Venom.find_task i s) as [[job []]|] eqn:Hf; try done.
    pose proof (find_task_Some i s job _ Hf) as [_ Hid].
    destruct (Crawler.normalizeUrl _) as [n|err];
      [destruct (Crawler.getDomain _) as [d|err]|].
    + set (capture := mkCapture _ _ _ _ _ _).
      set (s1 := mkState _ _ _ _ _ _ _ _ _ _).
      destruct (_ && _); intros [= <-]; left.
      * destruct (set_phase_ctl i (AwaitCaption capture) s1) as (Hl & Hp & Hi & Hc).
        rewrite Hl, Hp, Hi, Hc.
        pose proof (awaiting_set_phase_lt i (AwaitCaption capture) s1 job Fetching
                      Hf eq_refl eq_refl) as Haw.
        change (awaiting s1) with (awaiting s) in Haw. simpl. auto with lia.
      * destruct (finish_handler_ctl job s1 (Venom.follow_links config job capture s1))
          as (Hl & Hp & Hi & Hc & _ & Haw); [apply follow_links_control|].
        rewrite Hl, Hp, Hi, Hc. rewrite <- Hid in Hf.
        specialize (Haw Fetching Hf eq_refl).
        change (awaiting s1) with (awaiting s) in Haw. simpl. auto with lia.
    + intros [= <-]. left.
      destruct (finish_handler_ctl job s (Throw err)) as (Hl & Hp & Hi & Hc & Haw & _);
        [done|]. rewrite Hl, Hp, Hi, Hc. auto with lia.
    + intros [= <-]. left.
      destruct (finish_handler_ctl job s (Throw err)) as (Hl & Hp & Hi & Hc & Haw & _);
        [done|]. rewrite Hl, Hp, Hi, Hc. auto with lia.
  - (* CaptionDone *)
    cbn [Venom.exec]. destruct (Venom.find_task i s) as [[job [| |capture| |]]|]; try done.
    intros [= <-]. left.
    set (s1 := if ok then _ else _).
    assert (same_control s s1) as Hs1 by (subst s1; by destruct ok).
    destruct (finish_handler_ctl job s1 (Venom.follow_links config job capture s1))
      as (Hl & Hp & Hi & Hc & Haw & _); [apply follow_links_control|].
    destruct (set_phase_same_awaiting i Returned s s1 Hs1) as [Haw1 _].
    destruct Hs1 as (_ & Hc1 & Hip & Hpa & _ & Ha & _).
    rewrite Hl, Hp, Hi, Hc, Ha, Hpa, Hip, Hc1. rewrite Haw1 in Haw. auto with lia.
  - (* Complete *)
    cbn [Venom.exec]. destruct (Venom.find_task i s) as [[job []]|]; try done.
    intros [= <-]. left. unfold awaiting. simpl.
    pose proof (filter_length_le (λ t, negb (job_id (task_job t) =? i)) (active s)).
    pose proof (awaiting_filter_le (λ t, negb (job_id (task_job t) =? i)) (active s)).
    auto with lia.
  - (* Fail *)
    cbn [Venom.exec]. destruct (Venom.find_task i s) as [[job [| | | |msg]]|]; try done.
    intros [= <-]. left. unfold awaiting. simpl.
    pose proof (filter_length_le (λ t, negb (job_id (task_job t) =? i)) (active s)).
    pose proof (awaiting_filter_le (λ t, negb (job_id (task_job t) =? i)) (active s)).
    auto with lia.
Qed.

Local Transparent Venom.finish_handler.

End Pool.

Section PoolTheorems.

Context `{UrlPlatform}.
Variable config : CrawlerConfig.
Variable options : CrawlOptions.
Variable seeds : list string.

Abbreviation exec := (Venom.exec config options).
Abbreviation run := (Venom.run config options).
Abbreviation reachable := (Venom.reachable config options seeds).

Lemma reachable_Control (s : State) : reachable s → Control config options s.
Proof.
  revert s. apply (reachable_ind config options seeds (Control config options));
    [|intros e s s' Hs [Hact Hp Hlim] He].
  - destruct (addSeeds_frame seeds Venom.initial) as (_ & _ & Ha).
    simpl in Ha. split; unfold awaiting; simpl; rewrite ?Ha; simpl; [lia|done|lia].
  - pose proof (reachable_Inv config options seeds s Hs) as HI.
    pose proof (awaiting_le_active s) as Haw.
    destruct (exec_ctl config options e s s' HI He)
      as [(Hl & Hpa & Hip & Hc)|(Hl & Hlt & Hpa & Hc & [(Hpa' & Hip & Haw' & Hlim')|(Hpa' & Hip & Haw')])].
    + split; [lia| |].
      * rewrite Hpa. intros Hpaused. destruct Hip as [->| ->]; auto.
      * intros m Hm Hm0. specialize (Hlim m Hm Hm0). lia.
    + split; [lia|congruence|].
      intros m Hm Hm0. unfold Venom.limit_reached in Hlim'. rewrite Hm in Hlim'.
      apply andb_false_iff in Hlim' as [Hz|Hle].
      * apply negb_false_iff, Z.eqb_eq in Hz. done.
      * apply Z.leb_gt in Hle. lia.
    + split; [lia|done|].
      intros m Hm Hm0. specialize (Hlim m Hm Hm0). lia.
Qed.



End PoolTheorems.



(** ** Link selection *)

Section Links.

Context `{UrlPlatform}.
Variable config : CrawlerConfig.

Lemma filter_links_spec (visited : gset string) (ls : list ExtractedLink) :
  Crawler.filter_links config visited ls =
  Normal (List.filter (followable config visited) ls).
Proof.
  induction ls as [|l ls IH]; simpl; [done|]. rewrite IH. unfold followable.
  destruct (isInternal l); simpl; [|done].
  destruct (shouldCrawl_total config visited (href l)) as [b ->]. simpl.
  by destruct b.
Qed.

Lemma getLinksToFollow_spec (visited : gset string) (capture : PageCapture) (md : Z) :
  Crawler.getLinksToFollow config visited capture md =
  Normal (if (md <=? Z.of_nat (capture_depth capture))%Z then []
          else slice_0 (maxUrlsPerDomain config)
                 (map href (List.filter (followable config visited) (links capture)))).
Proof.
  unfold Crawler.getLinksToFollow. destruct (_ <=? _)%Z; [done|].
  by rewrite filter_links_spec.
Qed.

Lemma slice_0_prefix {A} (n : Z) (l : list A) : slice_0 n l `prefix_of` l.
Proof. unfold slice_0. destruct (0 <=? n)%Z; apply prefix_take. Qed.

Lemma slice_0_length {A} (n : Z) (l : list A) :
  (0 ≤ n)%Z → length (slice_0 n l) = Nat.min (Z.to_nat n) (length l).
Proof.
  intros Hn. unfold slice_0. rewrite (proj2 (Z.leb_le 0 n) Hn). apply length_take.
Qed.

(** X17. [getLinksToFollow] never throws.  It returns nothing for a capture at
    depth [maxDepth] or deeper; otherwise it returns, in page order, the
    hrefs of the first internal links that the admission filter accepts:
    with a cap [maxUrlsPerDomain ≥ 0], the first [cap] of them, or all of
    them when there are fewer. *)
Theorem getLinksToFollow_selects_a_prefix (visited : gset string)
    (capture : PageCapture) (md : Z) :
  ∃ found,
    Crawler.getLinksToFollow config visited capture md = Normal found ∧
    ((md ≤ Z.of_nat (capture_depth capture))%Z → found = []) ∧
    found `prefix_of`
      map href (List.filter (followable config visited) (links capture)) ∧
    (∀ u, u ∈ found → ∃ link, link ∈ links capture ∧ href link = u ∧
                               isInternal link = true ∧
                               Crawler.shouldCrawl config visited u = Normal true) ∧
    ((Z.of_nat (capture_depth capture) < md)%Z → (0 ≤ maxUrlsPerDomain config)%Z →
     length found =
     Nat.min (Z.to_nat (maxUrlsPerDomain config))
             (length (List.filter (followable config visited) (links capture)))).
Proof.
  rewrite getLinksToFollow_spec. eexists. split; [done|].
  destruct (Z.leb_spec md (Z.of_nat (capture_depth capture))) as [Hle|Hlt].
  - split; [done|]. split; [apply prefix_nil|]. split; [|lia].
    intros u Hu. by apply elem_of_nil in Hu.
  - split; [lia|]. split; [apply slice_0_prefix|]. split.
    + intros u Hu.
      assert (u ∈ map href (List.filter (followable config visited) (links capture)))
        as (link & -> & Hl)%list_elem_of_fmap.
      { destruct (slice_0_prefix (maxUrlsPerDomain config)
                    (map href (List.filter (followable config visited) (links capture))))
          as [k Hk]. rewrite Hk. apply elem_of_app. by left. }
      apply list_elem_of_In, filter_In in Hl as [Hin Hf].
      unfold followable in Hf. apply andb_true_iff in Hf as [Hint Hsc].
      exists link. split; [by apply list_elem_of_In|]. split; [done|]. split; [done|].
      destruct (Crawler.shouldCrawl _ _ _) as [b|]; [by subst|done].
    + intros _ Hcap. by rewrite slice_0_length, length_map.
Qed.

End Links.

Lemma getLinksToFollow_selects_a_prefix_witness :
  ∃ found,
    Crawler.getLinksToFollow demo_capped ∅ demo_capture 2 = Normal found ∧
    length found = 1.
Proof.
  destruct (getLinksToFollow_selects_a_prefix demo_capped ∅ demo_capture 2)
    as (found & Hf & _ & _ & _ & Hlen).
  exists found. split; [exact Hf|].
  rewrite Hlen; [vm_compute; reflexivity | simpl; lia | simpl; lia].
Defined.

(** ** The books *)

Section BooksFacts.

Context `{UrlPlatform}.
Variable config : CrawlerConfig.
Variable options : CrawlOptions.

Abbreviation exec := (Venom.exec config options).
Abbreviation Books := (Books config).

Lemma Books_ledger (s s' : State) : ledger s' = ledger s → Books s → Books s'.
Proof.
  unfold ledger. intros [= Hj Hc Hd Hu Hsc Hcr Hn] [Hf Hdi Hde [Hc1 Hc2] Hca].
  assert (length (jobs (database s')) = length (jobs (database s))) as Hlen.
  { by rewrite <- (length_map (λ j, (job_id j, depth j))), Hj, length_map. }
  assert (∀ row, row ∈ jobs (database s') →
            ∃ row0, row0 ∈ jobs (database s) ∧ job_id row0 = job_id row ∧
                    depth row0 = depth row) as Hrow.
  { intros row Hin.
    assert ((job_id row, depth row) ∈ map (λ j, (job_id j, depth j)) (jobs (database s)))
      as (row0 & [= ? ?] & Hin0)%list_elem_of_fmap
      by (rewrite <- Hj; by apply (list_elem_of_fmap_2 (λ j, (job_id j, depth j)))).
    eauto. }
  split.
  - intros row (row0 & Hin0 & <- & _)%Hrow. rewrite Hn. by apply Hf.
  - congruence.
  - intros row (row0 & Hin0 & _ & <-)%Hrow. by apply Hde.
  - split; congruence.
  - congruence.
Qed.

Lemma ledger_map (f : CrawlJob → CrawlJob) (js : list CrawlJob) :
  (∀ j, job_id (f j) = job_id j ∧ depth (f j) = depth j) →
  map (λ j, (job_id j, depth j)) (map f js) = map (λ j, (job_id j, depth j)) js.
Proof.
  intros Hf. rewrite map_map. apply map_ext. intros j. by destruct (Hf j) as [-> ->].
Qed.

Lemma ledger_updateJobStatus i st e now db :
  map (λ j, (job_id j, depth j)) (jobs (VenomDatabase.updateJobStatus i st e now db)) =
  map (λ j, (job_id j, depth j)) (jobs db).
Proof. apply ledger_map. intros j. by destruct (job_id j =? i). Qed.

Lemma ledger_incrementJobRetry i now db :
  map (λ j, (job_id j, depth j)) (jobs (VenomDatabase.incrementJobRetry i now db)) =
  map (λ j, (job_id j, depth j)) (jobs db).
Proof. apply ledger_map. intros j. by destruct (job_id j =? i). Qed.

Lemma ledger_dispatch_all batch now db :
  map (λ j, (job_id j, depth j)) (jobs (dispatch_all batch now db)) =
  map (λ j, (job_id j, depth j)) (jobs db) ∧
  captures (dispatch_all batch now db) = captures db.
Proof.
  unfold dispatch_all. revert db.
  induction batch as [|job batch IH]; intros db; [done|].
  cbn [foldl]. destruct (IH (JobQueue.dispatch job now db)) as [-> ->].
  split; [apply ledger_updateJobStatus|done].
Qed.

Lemma Books_enqueue u d p pr (s : State) :
  d = 0 ∨ (Z.of_nat d ≤ maxDepth config)%Z →
  Books s → Books (Venom.enqueue u d p pr s).
Proof.
  intros Hd HB. pose proof HB as [Hf Hdi Hde [Hc1 Hc2] Hca].
  unfold Venom.enqueue, JobQueue.addUrl.
  destruct (VenomDatabase.urlExists u (database s)); [done|].
  unfold VenomDatabase.addJob. cbn [job_id].
  destruct (existsb _ (jobs (database s))) eqn:Hex.
  - apply existsb_exists in Hex as (j & Hin & Hid).
    apply Nat.eqb_eq in Hid. apply list_elem_of_In, Hf in Hin. lia.
  - split; simpl.
    + intros row [Hin| ->%list_elem_of_singleton]%elem_of_app; [|simpl; lia].
      apply Hf in Hin. lia.
    + rewrite length_app. simpl. lia.
    + intros row [Hin| ->%list_elem_of_singleton]%elem_of_app; [by apply Hde|done].
    + done.
    + done.
Qed.

Lemma Books_follow_links (job : CrawlJob) (capture : PageCapture) (s s' : State) :
  Books s → Venom.follow_links config job capture s = Normal s' → Books s'.
Proof.
  intros HB. unfold Venom.follow_links.
  destruct (Z.ltb_spec (Z.of_nat (depth job)) (maxDepth config)); [|by intros [= <-]].
  destruct (Crawler.getLinksToFollow _ _ _ _) as [found|e]; simpl; [|done].
  intros [= <-]. revert s HB. induction found as [|u us IH]; intros s HB; simpl; [done|].
  apply IH, Books_enqueue; [right; lia|done].
Qed.

Lemma Books_finish_handler (job : CrawlJob) (s : State) (r : completion State) :
  Books s → (∀ s', r = Normal s' → Books s') → Books (Venom.finish_handler job s r).
Proof.
  intros HB Hr. destruct r as [s'|e]; simpl.
  - eapply Books_ledger; [|by apply Hr]. done.
  - eapply Books_ledger; [|exact HB]. done.
Qed.

Local Opaque Venom.finish_handler.

Lemma exec_Books (e : Event) (s s' : State) : Books s → exec e s = Some s' → Books s'.
Proof.
  intros HB. destruct e as [dt| | | |i|i|i msg|i found|i ok|i|i].
  - intros [= <-]. eapply Books_ledger; [|exact HB]; reflexivity.
  - destruct (isProcessing s) eqn:Hp; [|by simpl; rewrite Hp].
    rewrite exec_Poll by done. intros [= <-]. eapply Books_ledger; [|exact HB].
    unfold ledger. simpl.
    by destruct (ledger_dispatch_all (VenomDatabase.getPendingJobs 10 (database s))
                   (clock s) (database s)) as [-> ->].
  - simpl. destruct (_ && _); [|done]. intros [= <-]. eapply Books_ledger; [|exact HB]; reflexivity.
  - simpl. destruct (queued s) as [|job rest]; [done|].
    destruct (_ && _); [|done].
    destruct (Venom.limit_reached options s); intros [= <-]; (eapply Books_ledger; [|exact HB]; reflexivity).
  - cbn [Venom.exec]. destruct (Venom.find_task i s) as [[job []]|]; try done.
    destruct (Crawler.markVisited _ _) as [v|err]; intros [= <-].
    + eapply Books_ledger; [|exact HB]; reflexivity.
    + by apply Books_finish_handler.
  - cbn [Venom.exec]. destruct (Venom.find_task i s) as [[job []]|]; try done.
    intros [= <-]. apply Books_finish_handler; [done|].
    intros ? [= <-]. eapply Books_ledger; [|exact HB]; reflexivity.
  - cbn [Venom.exec]. destruct (Venom.find_task i s) as [[job []]|]; try done.
    intros [= <-]. by apply Books_finish_handler.
  - cbn [Venom.exec]. destruct (Venom.find_task i s) as [[job []]|]; try done.
    destruct (Crawler.normalizeUrl _) as [n|err];
      [destruct (Crawler.getDomain _) as [d|err]|];
      [|intros [= <-]; by apply Books_finish_handler..].
    set (capture := mkCapture _ _ _ _ _ _).
    set (s1 := mkState _ _ _ _ _ _ _ _ _ _).
    assert (Books s1) as HB1.
    { destruct HB as [Hf Hdi Hde [Hc1 Hc2] Hca]. split; simpl.
      - intros row Hin. apply Hf in Hin. lia.
      - done.
      - done.
      - lia.
      - rewrite length_app. simpl.
        match goal with
        | |- context [length (filter ?P ?l)] => pose proof (length_filter P l)
        end. lia. }
    destruct (_ && _); intros [= <-].
    + eapply Books_ledger; [|exact HB1]; reflexivity.
    + apply Books_finish_handler; [done|]. intros s' Hs'. by eapply Books_follow_links.
  - cbn [Venom.exec].
    destruct (Venom.find_task i s) as [[job [| |capture| |]]|]; try done.
    intros [= <-].
    assert (Books (if ok then Venom.with_stats Venom.captioned s else s)) as HB1.
    { destruct ok; [|done]. eapply Books_ledger; [|exact HB]; reflexivity. }
    apply Books_finish_handler; [done|]. intros s' Hs'. by eapply Books_follow_links.
  - cbn [Venom.exec]. destruct (Venom.find_task i s) as [[job []]|]; try done.
    intros [= <-]. eapply Books_ledger; [|exact HB].
    unfold ledger. cbn [database stats crawledSoFar next_uuid Venom.remove_task
                        Venom.with_database Venom.with_active].
    unfold JobQueue.on_success. by rewrite ledger_updateJobStatus.
  - cbn [Venom.exec]. destruct (Venom.find_task i s) as [[job [| | | |msg]]|]; try done.
    intros [= <-]. eapply Books_ledger; [|exact HB].
    unfold ledger. cbn [database stats crawledSoFar next_uuid Venom.remove_task
                        Venom.with_database Venom.with_active].
    unfold JobQueue.on_failure.
    destruct (_ <? _); by rewrite ledger_updateJobStatus, ledger_incrementJobRetry.
Qed.

Local Transparent Venom.finish_handler.

End BooksFacts.

Section BooksTheorems.

Context `{UrlPlatform}.
Variable config : CrawlerConfig.
Variable options : CrawlOptions.
Variable seeds : list string.

Abbreviation reachable := (Venom.reachable config options seeds).

Lemma addSeeds_control (s : State) : same_control s (Venom.addSeeds seeds s).
Proof.
  unfold Venom.addSeeds. revert s. induction seeds as [|u us IH]; intros s; simpl.
  - apply same_control_refl.
  - eapply same_control_trans; [apply enqueue_control|apply IH].
Qed.

Lemma addSeeds_Books (s : State) : Books config s → Books config (Venom.addSeeds seeds s).
Proof.
  unfold Venom.addSeeds. revert s. induction seeds as [|u us IH]; intros s HB; simpl.
  - done.
  - apply IH, Books_enqueue; [by left|done].
Qed.

Lemma reachable_Books (s : State) : reachable s → Books config s.
Proof.
  revert s. apply (reachable_ind config options seeds (Books config)).
  - assert (Books config Venom.initial) as HB0.
    { split; simpl; try done; try lia; intros row Hin; by apply elem_of_nil in Hin. }
    apply addSeeds_Books in HB0.
    destruct (addSeeds_control Venom.initial) as (_ & Hc & _).
    eapply Books_ledger; [|exact HB0]. unfold ledger. simpl. by rewrite Hc.
  - intros e s s' _ HB He. by eapply exec_Books.
Qed.



End BooksTheorems.



(** ** What happens to one job *)

Section OneJob.

Context `{UrlPlatform}.
Variable config : CrawlerConfig.
Variable options : CrawlOptions.
Variable seeds : list string.

Abbreviation exec := (Venom.exec config options).
Abbreviation run := (Venom.run config options).
Abbreviation reachable := (Venom.reachable config options seeds).

Lemma find_task_set_phase (i : nat) (ph : Phase) (s : State) :
  Venom.find_task i (Venom.set_phase i ph s) =
  (λ t, mkTask (task_job t) ph) <$> Venom.find_task i s.
Proof.
  unfold Venom.find_task. simpl. induction (active s) as [|t ts IH]; simpl; [done|].
  destruct (job_id (task_job t) =? i) eqn:Hid; simpl; by rewrite Hid.
Qed.

Lemma task_row (s : State) (i : nat) (job : CrawlJob) (ph : Phase) :
  reachable s → Venom.find_task i s = Some (mkTask job ph) →
  job_id job = i ∧
  ∃ row, VenomDatabase.find_job i (database s) = Some row ∧
         status row = crawling ∧ retryCount row = retryCount job ∧
         retryCount row ≤ maxRetries options.
Proof.
  intros HI%reachable_Inv Hf. apply find_task_Some in Hf as [Hin <-].
  split; [done|].
  destruct (inv_inflight_rows _ _ HI job) as (row & Hrow & Hst & Hrc).
  { unfold inflight. apply elem_of_app. right.
    apply list_elem_of_fmap. by exists (mkTask job ph). }
  exists row. repeat split; try done. eapply (inv_retries _ _ HI); [exact Hrow|by right].
Qed.




End OneJob.

Lemma demo_fetching_reachable :
  Venom.reachable demo_config demo_options ["https://a.com/"] demo_fetching.
Proof. exists [Poll; Start; CrawlBegin 0]. vm_compute. reflexivity. Qed.

Lemma demo_threw_reachable :
  Venom.reachable demo_config demo_options ["https://a.com/"] demo_threw.
Proof. exists [Poll; Start; CrawlBegin 0; CrawlThrow 0 "boom"]. vm_compute. reflexivity. Qed.




(** ** Children of a capture *)

Section Children.

Context `{UrlPlatform}.
Variable config : CrawlerConfig.

Lemma enqueue_new u d p pr (s : State) :
  ∃ new, jobs (database (Venom.enqueue u d p pr s)) = jobs (database s) ++ new ∧
         captures (database (Venom.enqueue u d p pr s)) = captures (database s) ∧
         visitedUrls (Venom.enqueue u d p pr s) = visitedUrls s ∧
         (new = [] ∨
          ((u ∉ map url (jobs (database s))) ∧
           new = [mkJob (next_uuid s) u d (JsString.opt_or_null p) pr pending 0 None
                        (clock s) (clock s)])).
Proof.
  unfold Venom.enqueue, JobQueue.addUrl.
  destruct (VenomDatabase.urlExists u (database s)) eqn:Hex.
  { exists []. rewrite app_nil_r. auto. }
  unfold VenomDatabase.addJob. cbn [job_id].
  destruct (existsb _ (jobs (database s))).
  { exists []. simpl. rewrite app_nil_r. auto. }
  eexists. simpl. split; [done|]. split; [done|]. split; [done|].
  right. split; [by apply urlExists_false|done].
Qed.

Lemma enqueue_all_new (d : nat) (p : option string) (pr : JobPriority)
    (us : list string) (s : State) :
  let s' := foldl (λ s u, Venom.enqueue u d p pr s) s us in
  ∃ new, jobs (database s') = jobs (database s) ++ new ∧
         captures (database s') = captures (database s) ∧
         visitedUrls s' = visitedUrls s ∧
         map url new `sublist_of` us ∧
         Forall (λ j, status j = pending ∧ retryCount j = 0 ∧ errorMessage j = None ∧
                      priority j = pr ∧ depth j = d ∧
                      parentUrl j = JsString.opt_or_null p ∧
                      (url j ∉ map url (jobs (database s)))) new.
Proof.
  revert s. induction us as [|u us IH]; intros s; simpl.
  - exists []. rewrite app_nil_r. by repeat split.
  - destruct (IH (Venom.enqueue u d p pr s)) as (new2 & Hj2 & Hc2 & Hv2 & Hsub2 & Hall2).
    destruct (enqueue_new u d p pr s) as (new1 & Hj1 & Hc1 & Hv1 & Hnew1).
    exists (new1 ++ new2). rewrite Hj2, Hj1, Hc2, Hc1, Hv2, Hv1, <- app_assoc.
    split; [done|]. split; [done|]. split; [done|].
    assert (Forall (λ j, url j ∉ map url (jobs (database s))) new2) as Hold.
    { eapply Forall_impl; [exact Hall2|]. simpl. intros j (_ & _ & _ & _ & _ & _ & Hn) Hin.
      apply Hn. rewrite Hj1, map_app. apply elem_of_app. by left. }
    destruct Hnew1 as [->|[Hu ->]]; simpl.
    + split; [by apply sublist_cons|].
      eapply Forall_impl; [apply Forall_and; exact (conj Hall2 Hold)|].
      simpl. intros j [(? & ? & ? & ? & ? & ? & _) ?]. by repeat split.
    + split; [by apply sublist_skip|]. constructor; [by repeat split|].
      eapply Forall_impl; [apply Forall_and; exact (conj Hall2 Hold)|].
      simpl. intros j [(? & ? & ? & ? & ? & ? & _) ?]. by repeat split.
Qed.

(** X18. [Venom.crawl], "Add discovered links to queue": following the links of
    a capture never throws and only appends jobs to the store.  Nothing is
    appended when the job or the capture is at [maxDepth]; with a cap
    [maxUrlsPerDomain ≥ 0] at most that many jobs are appended.  Every
    appended job is pending, of normal priority, one level below its
    parent, never retried, and its url is the href of an internal link of
    the page that the admission filter accepts and that no job had. *)
Theorem discovered_links_become_child_jobs (job : CrawlJob) (capture : PageCapture)
    (s : State) :
  ∃ s' new,
    Venom.follow_links config job capture s = Normal s' ∧
    jobs (database s') = jobs (database s) ++ new ∧
    captures (database s') = captures (database s) ∧
    ((maxDepth config ≤ Z.of_nat (depth job))%Z → new = []) ∧
    ((maxDepth config ≤ Z.of_nat (capture_depth capture))%Z → new = []) ∧
    ((0 ≤ maxUrlsPerDomain config)%Z →
     length new ≤ Z.to_nat (maxUrlsPerDomain config)) ∧
    ∀ j, j ∈ new →
      status j = pending ∧ priority j = normal ∧ retryCount j = 0 ∧
      depth j = depth job + 1 ∧
      parentUrl j = JsString.opt_or_null (Some (url job)) ∧
      (url j ∉ map url (jobs (database s))) ∧
      Crawler.shouldCrawl config (visitedUrls s) (url j) = Normal true ∧
      ∃ link, link ∈ links capture ∧ href link = url j ∧ isInternal link = true.
Proof.
  unfold Venom.follow_links.
  destruct (Z.ltb_spec (Z.of_nat (depth job)) (maxDepth config)) as [Hd|Hd].
  2:{ exists s, []. rewrite app_nil_r.
      split; [done|]. split; [done|]. split; [done|]. split; [done|]. split; [done|].
      split; [simpl; lia|]. intros j Hj. by apply elem_of_nil in Hj. }
  rewrite getLinksToFollow_spec. simpl.
  set (found := if (_ <=? _)%Z then [] else _).
  destruct (enqueue_all_new (depth job + 1) (Some (url job)) normal found s)
    as (new & Hj & Hc & _ & Hsub & Hall).
  eexists _, new. split; [reflexivity|]. split; [exact Hj|]. split; [exact Hc|].
  split; [lia|].
  assert (found `prefix_of`
            map href (List.filter (followable config (visitedUrls s)) (links capture)))
    as Hpre.
  { subst found. destruct (_ <=? _)%Z; [apply prefix_nil|apply slice_0_prefix]. }
  split.
  { intros Hc'. subst found. rewrite (proj2 (Z.leb_le _ _) Hc') in Hsub.
    apply sublist_nil_r in Hsub. by destruct new. }
  split.
  { intros Hcap. rewrite <- (length_map url new).
    etrans; [apply (sublist_length _ _ Hsub)|]. subst found.
    destruct (_ <=? _)%Z; [simpl; lia|]. rewrite slice_0_length by done. lia. }
  intros j Hin. rewrite Forall_forall in Hall.
  destruct (Hall j Hin) as (Hst & Hrc & _ & Hpr & Hdp & Hpa & Hfresh).
  assert (url j ∈ found) as Hu.
  { eapply elem_of_sublist; [|exact Hsub]. by apply list_elem_of_fmap_2. }
  apply (elem_of_prefix _ _ _ Hu) in Hpre.
  apply list_elem_of_fmap in Hpre as (link & Hhref & Hlink).
  apply list_elem_of_In, filter_In in Hlink as [Hlink Hok].
  unfold followable in Hok. apply andb_true_iff in Hok as [Hint Hok].
  rewrite <- Hhref in Hok.
  destruct (Crawler.shouldCrawl config (visitedUrls s) (url j)) as [b|] eqn:Hsc; [|done].
  subst b. repeat split; try done.
  exists link. split; [by apply list_elem_of_In|done].
Qed.

End Children.

Lemma discovered_links_become_child_jobs_witness :
  ∃ s' new,
    Venom.follow_links demo_config demo_job demo_capture demo_fetching = Normal s' ∧
    jobs (database s') = jobs (database demo_fetching) ++ new ∧
    length new ≤ 100 ∧
    ∀ j, j ∈ new → status j = pending ∧ depth j = depth demo_job + 1.
Proof.
  destruct (discovered_links_become_child_jobs demo_config demo_job demo_capture
              demo_fetching) as (s' & new & Hf & Hj & _ & _ & _ & Hlen & Hall).
  exists s', new. split; [exact Hf|]. split; [exact Hj|].
  split; [apply Hlen; simpl; lia|].
  intros j Hin. destruct (Hall j Hin) as (? & _ & _ & ? & _). by split.
Defined.

(** ** Stopping at the limit *)

Section Stopping.

Context `{UrlPlatform}.
Variable config : CrawlerConfig.
Variable options : CrawlOptions.
Variable seeds : list string.

Abbreviation exec := (Venom.exec config options).
Abbreviation run := (Venom.run config options).
Abbreviation reachable := (Venom.reachable config options seeds).

Lemma finish_handler_flags (job : CrawlJob) (s : State) (r : completion State) :
  (∀ s', r = Normal s' → same_control s s') →
  isPaused (Venom.finish_handler job s r) = isPaused s ∧
  isProcessing (Venom.finish_handler job s r) = isProcessing s ∧
  queued (Venom.finish_handler job s r) = queued s.
Proof.
  intros Hr. destruct r as [s'|e]; simpl; [|done].
  by destruct (Hr s' eq_refl) as (_ & _ & -> & -> & -> & _).
Qed.

Local Opaque Venom.finish_handler.

Lemma exec_stopped (e : Event) (s s' : State) :
  isPaused s = true → isProcessing s = false → exec e s = Some s' →
  e ≠ Start ∧ e ≠ Poll ∧ e ≠ Finish ∧
  isPaused s' = true ∧ isProcessing s' = false ∧ queued s' = queued s.
Proof.
  intros Hpa Hpr. destruct e as [dt| | | |i|i|i msg|i found|i ok|i|i]; cbn [Venom.exec].
  - intros [= <-]. by repeat split.
  - by rewrite Hpr.
  - by rewrite Hpr.
  - destruct (queued s); [done|]. by rewrite Hpa.
  - destruct (Venom.find_task i s) as [[job []]|]; try done.
    destruct (Crawler.markVisited _ _) as [v|m]; intros [= <-].
    + by repeat split.
    + destruct (finish_handler_flags job s (Throw m)) as (-> & -> & ->); [done|].
      by repeat split.
  - destruct (Venom.find_task i s) as [[job []]|]; try done. intros [= <-].
    destruct (finish_handler_flags job s (Normal (Venom.with_stats Venom.skipped s)))
      as (-> & -> & ->); [by intros ? [= <-]; repeat split|]. by repeat split.
  - destruct (Venom.find_task i s) as [[job []]|]; try done. intros [= <-].
    destruct (finish_handler_flags job s (Throw msg)) as (-> & -> & ->); [done|].
    by repeat split.
  - destruct (Venom.find_task i s) as [[job []]|]; try done.
    destruct (Crawler.normalizeUrl (url job)) as [n|e1];
      destruct (Crawler.getDomain (url job)) as [d|e2].
    2-4: intros [= <-];
      match goal with |- context [Venom.finish_handler ?j ?s0 (Throw ?e)] =>
        destruct (finish_handler_flags j s0 (Throw e)) as (-> & -> & ->); [done|]
      end; by repeat split.
    destruct (_ && _); intros [= <-]; [by repeat split|].
    match goal with |- context [Venom.finish_handler job ?s1 ?r] =>
      destruct (finish_handler_flags job s1 r) as (-> & -> & ->);
        [intros s2 Hs2; by eapply follow_links_control|]
    end. by repeat split.
  - destruct (Venom.find_task i s) as [[job [| |capture| |]]|]; try done.
    intros [= <-].
    match goal with |- context [Venom.finish_handler job ?s1 ?r] =>
      destruct (finish_handler_flags job s1 r) as (-> & -> & ->);
        [intros s2 Hs2; by eapply follow_links_control|]
    end. by destruct ok; repeat split.
  - destruct (Venom.find_task i s) as [[job []]|]; try done. intros [= <-].
    by repeat split.
  - destruct (Venom.find_task i s) as [[job [| | | |msg]]|]; try done. intros [= <-].
    by repeat split.
Qed.

Local Transparent Venom.finish_handler.


Lemma find_task_app_new (s : State) (job : CrawlJob) (ph : Phase) :
  (∀ t, t ∈ active s → job_id (task_job t) ≠ job_id job) →
  List.find (λ t, job_id (task_job t) =? job_id job) (active s ++ [mkTask job ph]) =
  Some (mkTask job ph).
Proof.
  intros Hnew. induction (active s) as [|t ts IH]; simpl.
  - by rewrite Nat.eqb_refl.
  - destruct (Nat.eqb_spec (job_id (task_job t)) (job_id job)) as [Heq|_].
    + exfalso. apply (Hnew t); [apply list_elem_of_here|done].
    + apply IH. intros t' Ht'. apply Hnew. by apply list_elem_of_further.
Qed.


End Stopping.

Lemma demo_at_limit_reachable :
  Venom.reachable demo_config demo_limited ["https://a.com/"; "https://b.com/"]
    demo_at_limit.
Proof.
  exists [Poll; Start; CrawlBegin 0; CrawlCapture 0 []; Complete 0].
  vm_compute. reflexivity.
Qed.

Lemma demo_stopped_reachable :
  Venom.reachable demo_config demo_limited ["https://a.com/"; "https://b.com/"]
    demo_stopped.
Proof.
  exists [Poll; Start; CrawlBegin 0; CrawlCapture 0 []; Complete 0; Start].
  vm_compute. reflexivity.
Qed.


Lemma demo_stranded_reachable :
  Venom.reachable demo_config demo_limited
    ["https://a.com/"; "https://b.com/"; "https://c.com/"] demo_stranded.
Proof.
  exists [Poll; Start; CrawlBegin 0; CrawlCapture 0 []; Complete 0; Start].
  vm_compute. reflexivity.
Qed.


(** ** The robots.txt cache *)

Section RobotsCache.

Context `{UrlPlatform}.
Context {Parser : Type}.
Variable robotsParser : string → string → Parser.
Variable parser_isAllowed : Parser → string → string → option bool.
Variable parser_getCrawlDelay : Parser → string → option nat.
Variable parser_getSitemaps : Parser → list string.
Variable network : list string → string → FetchOutcome.

Abbreviation fetchRobotsTxt := (Robots.fetchRobotsTxt Parser robotsParser network).
Abbreviation checkRobotsTxt :=
  (Robots.checkRobotsTxt Parser robotsParser parser_isAllowed parser_getCrawlDelay
                         parser_getSitemaps network).
Abbreviation checkRobots :=
  (Robots.checkRobots Parser robotsParser parser_isAllowed parser_getCrawlDelay
                      parser_getSitemaps network).
Abbreviation getCachedRobots := (Robots.getCachedRobots Parser).
Abbreviation clearRobotsCache := (Robots.clearRobotsCache Parser).
Abbreviation verdict := (robots_verdict parser_isAllowed parser_getCrawlDelay
                                        parser_getSitemaps).

Lemma checkRobotsTxt_parsed (url ua : string) (u : URL) (st : Robots.RobotsState Parser) :
  URL_new url = Normal u →
  checkRobotsTxt url ua st =
  (Normal (match (fetchRobotsTxt (Url.hostname u) ua st).1 with
           | Some p => verdict p url ua
           | None => mkRobotsResult true None []
           end),
   (fetchRobotsTxt (Url.hostname u) ua st).2).
Proof.
  intros Hu. unfold Robots.checkRobotsTxt. rewrite Hu.
  by destruct (Robots.fetchRobotsTxt _ _ _ _ _ st) as [[p|] st'].
Qed.

Lemma fetchRobotsTxt_hit (domain ua : string) (p : Parser)
    (st : Robots.RobotsState Parser) :
  Robots.robotsCache Parser st !! domain = Some p →
  fetchRobotsTxt domain ua st = (Some p, st).
Proof. intros Hc. unfold Robots.fetchRobotsTxt. by rewrite Hc. Qed.

Lemma fetchRobotsTxt_fresh (domain ua : string) (status : nat) (body : string)
    (st : Robots.RobotsState Parser) :
  Robots.robotsCache Parser st !! domain = None →
  network (Robots.requests Parser st) (Robots.robotsUrl domain) =
    Response true status (Normal body) →
  fetchRobotsTxt domain ua st =
  (Some (robotsParser (Robots.robotsUrl domain) body),
   Robots.mkRobotsState Parser
     (<[domain := robotsParser (Robots.robotsUrl domain) body]>
        (Robots.robotsCache Parser st))
     (Robots.requests Parser st ++ [Robots.robotsUrl domain])).
Proof. intros Hc Hn. unfold Robots.fetchRobotsTxt. by rewrite Hc, Hn. Qed.

(** X26. A fetched robots.txt is kept per hostname: when the file of a host is
    not cached and its fetch succeeds, the check sends one request, to
    [https://<hostname>/robots.txt], and caches the parsed file; a later
    check of any URL of the same hostname, whatever its scheme, port, path
    or user agent, is answered from that parse and sends no request. *)
Theorem robots_txt_is_fetched_once_per_hostname
    (st : Robots.RobotsState Parser) (url1 url2 ua1 ua2 : string) (u1 u2 : URL)
    (status : nat) (body : string) :
  let robots := Robots.robotsUrl (Url.hostname u1) in
  let p := robotsParser robots body in
  let st1 := (checkRobotsTxt url1 ua1 st).2 in
  URL_new url1 = Normal u1 → URL_new url2 = Normal u2 →
  Url.hostname u2 = Url.hostname u1 →
  Robots.robotsCache Parser st !! Url.hostname u1 = None →
  network (Robots.requests Parser st) robots = Response true status (Normal body) →
  (checkRobotsTxt url1 ua1 st).1 = Normal (verdict p url1 ua1) ∧
  Robots.requests Parser st1 = Robots.requests Parser st ++ [robots] ∧
  getCachedRobots (Url.hostname u1) st1 = Some p ∧
  checkRobotsTxt url2 ua2 st1 = (Normal (verdict p url2 ua2), st1).
Proof.
  intros robots p st1 Hu1 Hu2 Hhost Hmiss Hnet. subst st1.
  rewrite (checkRobotsTxt_parsed url1 ua1 u1 st Hu1).
  rewrite (fetchRobotsTxt_fresh _ ua1 status body st Hmiss Hnet). cbn [fst snd].
  fold robots. fold p.
  set (st1 := Robots.mkRobotsState Parser _ _).
  assert (Robots.robotsCache Parser st1 !! Url.hostname u1 = Some p) as Hhit
    by apply lookup_insert_eq.
  split; [done|]. split; [done|]. split; [exact Hhit|].
  rewrite (checkRobotsTxt_parsed url2 ua2 u2 st1 Hu2), Hhost.
  by rewrite (fetchRobotsTxt_hit (Url.hostname u1) ua2 p st1 Hhit).
Qed.

Lemma fetchRobotsTxt_returns_cached (domain ua : string) (st : Robots.RobotsState Parser) :
  (fetchRobotsTxt domain ua st).1 =
  Robots.robotsCache Parser (fetchRobotsTxt domain ua st).2 !! domain.
Proof.
  unfold Robots.fetchRobotsTxt.
  destruct (Robots.robotsCache Parser st !! domain) as [p|] eqn:Hc; [done|].
  destruct (network _ _) as [e|ok status' [body|e]]; simpl; [done|..].
  - destruct ok; simpl; [|done]. by rewrite lookup_insert_eq.
  - by destruct ok.
Qed.

(** X27. [Crawler.checkRobots] answers [true] without touching the network or
    the cache when [respectRobotsTxt] is off.  Otherwise it throws exactly
    when the URL does not parse, and it answers [false] exactly when the
    robots.txt now cached for the hostname of the URL says that the URL is
    disallowed for the configured user agent: a missing or unreadable
    robots.txt, or one without an opinion, allows the page. *)
Theorem checkRobots_refuses_only_on_a_cached_disallow
    (config : CrawlerConfig) (url : string) (st : Robots.RobotsState Parser) :
  let r := checkRobots config url st in
  (respectRobotsTxt config = false → r = (Normal true, st)) ∧
  ((∃ e, r.1 = Throw e) ↔
   respectRobotsTxt config = true ∧ ∃ e, URL_new url = Throw e) ∧
  (r.1 = Normal false ↔
   respectRobotsTxt config = true ∧
   ∃ u p, URL_new url = Normal u ∧
          getCachedRobots (Url.hostname u) r.2 = Some p ∧
          parser_isAllowed p url (userAgent config) = Some false).
Proof.
  intros r. subst r. unfold Robots.checkRobots.
  destruct (respectRobotsTxt config); simpl.
  2:{ split; [done|]. split; split; try done.
      - by intros [? ?].
      - by intros [? _]. - by intros [? _]. }
  split; [done|].
  destruct (URL_new url) as [u|e] eqn:Hu.
  - rewrite (checkRobotsTxt_parsed url (userAgent config) u st Hu). cbn [fst snd].
    split.
    { split; [by intros [? ?]|]. by intros [_ [? ?]]. }
    unfold Robots.getCachedRobots.
    pose proof (fetchRobotsTxt_returns_cached (Url.hostname u) (userAgent config) st)
      as Hret.
    destruct (Robots.fetchRobotsTxt _ _ _ _ _ st).1 as [p|].
    + unfold robots_verdict. simpl. split.
      * intros Hf. split; [done|]. exists u, p. split; [done|]. split; [done|].
        destruct (parser_isAllowed p url (userAgent config)) as [[|]|]; by simplify_eq/=.
      * intros [_ (u' & p' & [= <-] & Hp' & Hno)].
        rewrite <- Hret in Hp'. injection Hp' as <-. by rewrite Hno.
    + simpl. split; [done|]. intros [_ (u' & p' & [= <-] & Hp' & _)].
      by rewrite <- Hret in Hp'.
  - unfold Robots.checkRobotsTxt. rewrite Hu. simpl. split.
    + split; [eauto|]. intros _. eauto.
    + split; [done|]. by intros [_ (u' & p' & ? & _)].
Qed.

(** X28. [clearRobotsCache] empties the cache for every domain, so the next
    check of any URL that parses sends a request again, whatever was cached
    before. *)
Theorem clearing_the_cache_forces_a_new_fetch
    (st : Robots.RobotsState Parser) (url ua : string) (u : URL) :
  URL_new url = Normal u →
  (∀ d, getCachedRobots d (clearRobotsCache st) = None) ∧
  Robots.requests Parser (clearRobotsCache st) = Robots.requests Parser st ∧
  Robots.requests Parser (checkRobotsTxt url ua (clearRobotsCache st)).2 =
    Robots.requests Parser st ++ [Robots.robotsUrl (Url.hostname u)].
Proof.
  intros Hu. split; [intros d; apply lookup_empty|]. split; [done|].
  rewrite (checkRobotsTxt_parsed url ua u _ Hu). cbn [snd].
  by rewrite (fetchRobotsTxt_miss robotsParser network) by apply lookup_empty.
Qed.

End RobotsCache.

Lemma robots_txt_is_fetched_once_per_hostname_witness :
  let network := λ (_ : list string) (_ : string), Response true 200 (Normal "Disallow: /") in
  let check := Robots.checkRobotsTxt string (λ _ body, body) (λ _ _ _, Some false)
                 (λ _ _, None) (λ _, []) network in
  let st := Robots.mkRobotsState string ∅ [] in
  let st1 := (check "http://a.com/x" "Venom/1.0" st).2 in
  Robots.requests string st1 = ["https://a.com/robots.txt"] ∧
  check "https://a.com/y" "Other/2.0" st1 = (Normal (mkRobotsResult false None []), st1).
Proof.
  intros network check st st1.
  pose proof (robots_txt_is_fetched_once_per_hostname (H := simple_platform)
                (λ _ body, body) (λ _ _ _, Some false) (λ _ _, None) (λ _, []) network st
                "http://a.com/x" "https://a.com/y" "Venom/1.0" "Other/2.0"
                (mkURL "http" "" "" (Some "a.com") None "/x" None [] None)
                (mkURL "https" "" "" (Some "a.com") None "/y" None [] None)
                200 "Disallow: /" eq_refl eq_refl eq_refl (lookup_empty _) eq_refl)
    as (_ & H2 & _ & H4).
  split; [exact H2 | exact H4].
Defined.

Lemma checkRobots_refuses_only_on_a_cached_disallow_witness :
  Robots.checkRobots string (λ _ body, body) (λ _ _ _, Some false) (λ _ _, None) (λ _, [])
    (λ _ _, NetworkError "offline")
    (mkCrawlerConfig 2 3 false "Venom/1.0" 100 [] []) "not a url"
    (Robots.mkRobotsState string ∅ []) =
  (Normal true, Robots.mkRobotsState string ∅ []).
Proof.
  apply (checkRobots_refuses_only_on_a_cached_disallow (H := simple_platform)
           (λ _ body, body) (λ _ _ _, Some false) (λ _ _, None) (λ _, [])
           (λ _ _, NetworkError "offline")
           (mkCrawlerConfig 2 3 false "Venom/1.0" 100 [] []) "not a url"
           (Robots.mkRobotsState string ∅ [])).
  reflexivity.
Defined.

Lemma clearing_the_cache_forces_a_new_fetch_witness :
  let network := λ (_ : list string) (_ : string), Response true 200 (Normal "Disallow: /") in
  let check := Robots.checkRobotsTxt string (λ _ body, body) (λ _ _ _, Some false)
                 (λ _ _, None) (λ _, []) network in
  let st := Robots.mkRobotsState string {[ "a.com" := "Allow: /" ]} ["https://a.com/robots.txt"] in
  Robots.requests string (check "https://a.com/x" "Venom/1.0"
                            (Robots.clearRobotsCache string st)).2 =
    ["https://a.com/robots.txt"; "https://a.com/robots.txt"].
Proof.
  intros network check st.
  apply (clearing_the_cache_forces_a_new_fetch (H := simple_platform)
           (λ _ body, body) (λ _ _ _, Some false) (λ _ _, None) (λ _, []) network st
           "https://a.com/x" "Venom/1.0"
           (mkURL "https" "" "" (Some "a.com") None "/x" None [] None) eq_refl).
Defined.

(** ** The visited set *)

Section Visited.

Context `{UrlPlatform}.
Variable config : CrawlerConfig.

Lemma hasVisited_spec (visited : gset string) (url n : string) :
  Crawler.normalizeUrl url = Normal n →
  Crawler.hasVisited visited url = Normal (bool_decide (n ∈ visited)).
Proof. intros Hn. unfold Crawler.hasVisited. by rewrite Hn. Qed.

Lemma shouldCrawl_visited (visited : gset string) (url n : string) :
  Crawler.normalizeUrl url = Normal n → n ∈ visited →
  Crawler.shouldCrawl config visited url = Normal false.
Proof.
  intros Hn Hin. unfold Crawler.shouldCrawl. rewrite Hn. simpl.
  by rewrite bool_decide_eq_true_2.
Qed.

(** X25. [markVisited] never throws and adds one normal form to the visited
    set: afterwards [hasVisited] answers [true] and [shouldCrawl] answers
    [false] for the URL and for every other spelling with the same normal
    form; what was visited stays visited; the count grows by one at most,
    and not at all for a page already visited.  [clearVisited] forgets
    every page. *)
Theorem a_visited_page_is_refused_in_every_spelling
    (visited : gset string) (url : string) :
  ∃ visited',
    Crawler.markVisited visited url = Normal visited' ∧
    (∀ other, Crawler.normalizeUrl other = Crawler.normalizeUrl url →
       Crawler.hasVisited visited' other = Normal true ∧
       Crawler.shouldCrawl config visited' other = Normal false) ∧
    (∀ other, Crawler.hasVisited visited other = Normal true →
       Crawler.hasVisited visited' other = Normal true) ∧
    Crawler.getVisitedCount visited ≤ Crawler.getVisitedCount visited' ∧
    Crawler.getVisitedCount visited' ≤ Crawler.getVisitedCount visited + 1 ∧
    (Crawler.hasVisited visited url = Normal true → visited' = visited) ∧
    (∀ other, Crawler.hasVisited (Crawler.clearVisited visited') other = Normal false) ∧
    Crawler.getVisitedCount (Crawler.clearVisited visited') = 0.
Proof.
  destruct (normalizeUrl_total url) as [n Hn].
  exists ({[ n ]} ∪ visited).
  split; [unfold Crawler.markVisited; by rewrite Hn|]. split.
  { intros other Ho. rewrite Hn in Ho.
    assert (n ∈ ({[ n ]} ∪ visited : gset string)) as Hin
      by (apply elem_of_union; left; by apply elem_of_singleton).
    split; [|by eapply shouldCrawl_visited].
    rewrite (hasVisited_spec _ other n Ho). by rewrite bool_decide_eq_true_2. }
  split.
  { intros other. destruct (normalizeUrl_total other) as [m Hm].
    rewrite !(hasVisited_spec _ other m Hm). intros [= Hin].
    apply bool_decide_eq_true in Hin. rewrite bool_decide_eq_true_2; [done|].
    apply elem_of_union. by right. }
  unfold Crawler.getVisitedCount, Crawler.clearVisited.
  split; [apply subseteq_size, union_subseteq_r|].
  split.
  { rewrite (comm_L (∪)), size_union_alt.
    assert (size ({[ n ]} ∖ visited : gset string) ≤ 1); [|lia].
    rewrite <- (size_singleton (C := gset string) n).
    apply subseteq_size, subseteq_difference_l. done. }
  split.
  { rewrite (hasVisited_spec _ url n Hn). intros [= Hin].
    apply bool_decide_eq_true in Hin.
    apply subseteq_union_1_L. by apply singleton_subseteq_l. }
  split; [|apply size_empty].
  intros other. destruct (normalizeUrl_total other) as [m Hm].
  rewrite (hasVisited_spec _ other m Hm). rewrite bool_decide_eq_false_2; [done|].
  apply not_elem_of_empty.
Qed.

End Visited.

Lemma a_visited_page_is_refused_in_every_spelling_witness :
  ∃ visited',
    Crawler.markVisited ∅ "https://a.com/x" = Normal visited' ∧
    Crawler.shouldCrawl demo_config visited' "https://a.com/x/?utm_source=y#frag" =
      Normal false.
Proof.
  destruct (a_visited_page_is_refused_in_every_spelling (H := simple_platform)
              demo_config ∅ "https://a.com/x") as (v & Hm & Hall & _).
  exists v. split; [exact Hm|].
  apply (Hall "https://a.com/x/?utm_source=y#frag"). vm_compute. reflexivity.
Defined.

(** ** Spellings of one page *)

Section Spellings.

Context `{UrlPlatform}.

Lemma canonical_same_page (u1 u2 : URL) :
  scheme u1 = scheme u2 → username u1 = username u2 → password u1 = password u2 →
  host u1 = host u2 → port u1 = port u2 → pathname u1 = pathname u2 →
  filter (λ nv, nv.1 ∉ tracking_params) (searchParams u1) =
  filter (λ nv, nv.1 ∉ tracking_params) (searchParams u2) →
  canonical u1 = canonical u2.
Proof.
  destruct u1 as [s1 n1 w1 h1 p1 a1 q1 l1 f1], u2 as [s2 n2 w2 h2 p2 a2 q2 l2 f2].
  cbn [scheme username password host port pathname searchParams].
  intros -> -> -> -> -> -> Hl.
  rewrite (canonical_tracking s2 n2 w2 h2 p2 a2 q1 q2 l1 l2 f1 Hl).
  apply canonical_fragment.
Qed.


End Spellings.


(** ** The captures table *)

Lemma find_app_last {A} (f : A → bool) (l : list A) (x : A) :
  (∀ y, y ∈ l → f y = false) → f x = true → List.find f (l ++ [x]) = Some x.
Proof.
  intros Hl Hx. induction l as [|y l IH]; simpl; [by rewrite Hx|].
  rewrite (Hl y) by apply list_elem_of_here.
  apply IH. intros z Hz. apply Hl. by apply list_elem_of_further.
Qed.

Lemma find_unique {A B} `{EqDecision B} (key : A → B) (f : A → bool) (l : list A)
    (x : A) :
  NoDup (map key l) → x ∈ l → f x = true → (∀ y, f y = true → key y = key x) →
  List.find f l = Some x.
Proof.
  intros Hnd Hin Hx Hkey. induction l as [|y l IH]; [by apply elem_of_nil in Hin|].
  simpl in *. apply NoDup_cons in Hnd as [Hy Hnd].
  apply elem_of_cons in Hin as [<-|Hin]; [by rewrite Hx|].
  destruct (f y) eqn:Hfy; [|by apply IH].
  exfalso. apply Hy. rewrite (Hkey y Hfy). by apply (list_elem_of_fmap_2 key).
Qed.

Lemma find_none {A} (f : A → bool) (l : list A) :
  (∀ y, y ∈ l → f y = false) → List.find f l = None.
Proof.
  intros Hl. induction l as [|y l IH]; simpl; [done|].
  rewrite (Hl y) by apply list_elem_of_here.
  apply IH. intros z Hz. apply Hl. by apply list_elem_of_further.
Qed.



(** ** The next job *)

(** X23. [getNextJob] answers [null] exactly when [getJobStats] counts no pending
    job.  Otherwise it answers a pending job of the table that no pending
    job precedes: none has a higher priority tier, and none of the same tier
    was created earlier. *)
Theorem getNextJob_is_first_in_priority_order (db : Database) :
  (VenomDatabase.getNextJob db = None ↔ (VenomDatabase.getJobStats db).1.1 = 0) ∧
  (∀ j, VenomDatabase.getNextJob db = Some j →
     j ∈ jobs db ∧ status j = pending ∧
     ∀ k, k ∈ jobs db → status k = pending → job_le j k).
Proof.
  unfold VenomDatabase.getNextJob. split.
  - unfold VenomDatabase.getJobStats, VenomDatabase.count_status,
      VenomDatabase.getPendingJobs. cbn [fst].
    change (λ j, bool_decide (status j = pending)) with VenomDatabase.is_pending.
    rewrite <- (Permutation_length
                  (order_by_perm (List.filter VenomDatabase.is_pending (jobs db)))).
    by destruct (VenomDatabase.order_by _).
  - intros j Hj.
    assert (j ∈ VenomDatabase.getPendingJobs 1 db) as Hin.
    { destruct (VenomDatabase.getPendingJobs 1 db) as [|x l]; [done|].
      injection Hj as ->. apply list_elem_of_here. }
    destruct (getPendingJobs_elem 1 db j Hin) as [Hjobs Hst].
    split; [done|]. split; [done|]. intros k Hk Hpk.
    assert (k ∈ VenomDatabase.order_by (List.filter VenomDatabase.is_pending (jobs db)))
      as Hkl.
    { rewrite order_by_perm. apply list_elem_of_In, filter_In.
      split; [by apply list_elem_of_In|]. by apply bool_decide_eq_true. }
    pose proof (order_by_sorted (List.filter VenomDatabase.is_pending (jobs db))) as Hs.
    unfold VenomDatabase.getPendingJobs in Hj.
    destruct (VenomDatabase.order_by _) as [|x l]; simpl in Hj; [done|].
    injection Hj as ->. apply StronglySorted_cons in Hs as [Hall _].
    apply elem_of_cons in Hkl as [->|Hkl]; [unfold job_le; lia|].
    rewrite Forall_forall in Hall. by apply Hall.
Qed.

Lemma getNextJob_is_first_in_priority_order_witness :
  VenomDatabase.getNextJob (database demo_seeded) = Some demo_job ∧
  (VenomDatabase.getJobStats (database demo_seeded)).1.1 ≠ 0.
Proof.
  destruct (getNextJob_is_first_in_priority_order (database demo_seeded)) as [Hnone _].
  split; [reflexivity|]. intros Hz. apply Hnone in Hz. discriminate Hz.
Defined.

(** ** The frontier *)

Lemma urlExists_spec (u : string) (db : Database) :
  VenomDatabase.urlExists u db = true ↔
  u ∈ map url (jobs db) ∨ u ∈ map normalizedUrl (captures db).
Proof.
  unfold VenomDatabase.urlExists. rewrite orb_true_iff, !existsb_exists. split.
  - intros [(j & Hin & Heq)|(c & Hin & Heq)]; apply String.eqb_eq in Heq as <-.
    + left. apply (list_elem_of_fmap_2 url). by apply list_elem_of_In.
    + right. apply (list_elem_of_fmap_2 normalizedUrl). by apply list_elem_of_In.
  - intros [(j & -> & Hin)%list_elem_of_fmap|(c & -> & Hin)%list_elem_of_fmap].
    + left. exists j. split; [by apply list_elem_of_In|apply String.eqb_refl].
    + right. exists c. split; [by apply list_elem_of_In|apply String.eqb_refl].
Qed.

Lemma addJob_fresh (job : CrawlJob) (db : Database) :
  (job_id job ∉ map job_id (jobs db)) →
  VenomDatabase.addJob job db =
  mkDatabase (jobs db ++
              [mkJob (job_id job) (url job) (depth job)
                     (JsString.opt_or_null (parentUrl job)) (priority job) (status job)
                     (retryCount job) (JsString.opt_or_null (errorMessage job))
                     (createdAt job) (updatedAt job)])
             (captures db).
Proof.
  intros Hfresh. unfold VenomDatabase.addJob.
  destruct (existsb _ (jobs db)) eqn:Hex; [|done].
  exfalso. apply existsb_exists in Hex as (j & Hin & Hid). apply Nat.eqb_eq in Hid.
  apply Hfresh. rewrite <- Hid. apply (list_elem_of_fmap_2 job_id). by apply list_elem_of_In.
Qed.

(** X10. The frontier compares URL strings, not normal forms.  With a fresh
    identifier, [addUrl] refuses a URL exactly when that very string is the
    url of a job, in any status, or the normalised url of a stored capture,
    and then it changes nothing; otherwise it appends one pending job with no
    retries.  Either way a second [addUrl] of the same string is refused,
    whatever its depth, parent and priority. *)
Theorem the_frontier_admits_each_url_string_once
    (u : string) (d d2 : nat) (p p2 : option string) (pr pr2 : JobPriority)
    (uuid uuid2 now now2 : nat) (db : Database) :
  let r := JobQueue.addUrl u d p pr uuid now db in
  (uuid ∉ map job_id (jobs db)) →
  (r.1 = None ↔ u ∈ map url (jobs db) ∨ u ∈ map normalizedUrl (captures db)) ∧
  (r.1 = None → r.2 = db) ∧
  (r.1 ≠ None →
   r.1 = Some (mkJob uuid u d p pr pending 0 None now now) ∧
   jobs r.2 = jobs db ++ [mkJob uuid u d (JsString.opt_or_null p) pr pending 0 None now now] ∧
   captures r.2 = captures db) ∧
  JobQueue.addUrl u d2 p2 pr2 uuid2 now2 r.2 = (None, r.2).
Proof.
  intros r Hfresh.
  pose proof (urlExists_spec u db) as Hspec.
  destruct (VenomDatabase.urlExists u db) eqn:Hex.
  - assert (r = (None, db)) as -> by (subst r; unfold JobQueue.addUrl; by rewrite Hex).
    cbn [fst snd].
    split; [split; [intros _; by apply Hspec|done]|]. split; [done|]. split; [done|].
    unfold JobQueue.addUrl. by rewrite Hex.
  - assert (r = (Some (mkJob uuid u d p pr pending 0 None now now),
                 mkDatabase
                   (jobs db ++
                    [mkJob uuid u d (JsString.opt_or_null p) pr pending 0 None now now])
                   (captures db))) as ->.
    { subst r. unfold JobQueue.addUrl. rewrite Hex. by rewrite addJob_fresh. }
    cbn [fst snd jobs captures].
    split.
    { split; [done|]. intros Hin. apply Hspec in Hin. done. }
    split; [done|]. split; [done|].
    unfold JobQueue.addUrl. rewrite (urlExists_job u); [done|].
    cbn [jobs]. rewrite map_app. apply elem_of_app. right. apply list_elem_of_here.
Qed.

Lemma the_frontier_admits_each_url_string_once_witness :
  let r := JobQueue.addUrl "https://a.com/x/" 1 None normal 1 5 (database demo_seeded) in
  r.1 ≠ None ∧
  JobQueue.addUrl "https://a.com/x/" 0 None high 2 6 r.2 = (None, r.2).
Proof.
  intros r.
  destruct (the_frontier_admits_each_url_string_once "https://a.com/x/" 1 0 None None
              normal high 1 2 5 6 (database demo_seeded)) as (_ & _ & _ & H4).
  - vm_compute. intros Hin. apply list_elem_of_singleton in Hin. discriminate Hin.
  - split; [discriminate|exact H4].
Defined.

Section Seeds.

Context `{UrlPlatform}.
Variable config : CrawlerConfig.

Lemma enqueue_urls u d p pr (s : State) :
  Books config s → captures (database s) = [] →
  captures (database (Venom.enqueue u d p pr s)) = [] ∧
  ∀ v, v ∈ map url (jobs (database (Venom.enqueue u d p pr s))) ↔
       v ∈ map url (jobs (database s)) ∨ v = u.
Proof.
  intros HB Hc. unfold Venom.enqueue, JobQueue.addUrl.
  pose proof (urlExists_spec u (database s)) as Hspec.
  destruct (VenomDatabase.urlExists u (database s)).
  - split; [done|]. intros v. split; [by left|]. intros [Hv| ->]; [done|].
    destruct (proj1 Hspec eq_refl) as [Hj|Hcap]; [done|].
    rewrite Hc in Hcap. by apply elem_of_nil in Hcap.
  - rewrite addJob_fresh.
    + cbn [database jobs captures url]. split; [done|]. intros v.
      rewrite map_app, elem_of_app. cbn [map url]. by rewrite list_elem_of_singleton.
    + cbn [job_id]. intros (row & Hid & Hin)%list_elem_of_fmap.
      apply (bk_fresh _ _ HB) in Hin. lia.
Qed.

Lemma addSeeds_urls (us : list string) (s : State) :
  Books config s → captures (database s) = [] →
  ∀ v, v ∈ map url (jobs (database (Venom.addSeeds us s))) ↔
       v ∈ map url (jobs (database s)) ∨ v ∈ us.
Proof.
  unfold Venom.addSeeds. revert s. induction us as [|u us IH]; intros s HB Hc v; simpl.
  - rewrite elem_of_nil. tauto.
  - destruct (enqueue_urls u 0 None high s HB Hc) as [Hc' Hu].
    rewrite IH; [|apply Books_enqueue; [by left|done]|done].
    rewrite Hu, elem_of_cons. tauto.
Qed.

(** X11. [addSeeds] on an empty store never fails.  It creates one job per
    distinct seed string, duplicates in the list being skipped: the urls of
    the jobs are exactly the seeds, no two jobs share a url or an id, every
    job is pending at depth 0 with high priority, no parent and no retries,
    and [urlsDiscovered] counts the jobs, not the seeds. *)
Theorem seeds_become_root_jobs (seeds : list string) :
  let s := Venom.addSeeds seeds Venom.initial in
  (∀ u, u ∈ map url (jobs (database s)) ↔ u ∈ seeds) ∧
  NoDup (map url (jobs (database s))) ∧
  NoDup (map job_id (jobs (database s))) ∧
  (∀ j, j ∈ jobs (database s) →
     depth j = 0 ∧ priority j = high ∧ status j = pending ∧ retryCount j = 0 ∧
     parentUrl j = None ∧ errorMessage j = None) ∧
  urlsDiscovered (stats s) = length (jobs (database s)) ∧
  length (jobs (database s)) ≤ length seeds.
Proof.
  intros s. subst s.
  assert (Books config Venom.initial) as HB0.
  { split; simpl; try done; try lia; intros row Hin; by apply elem_of_nil in Hin. }
  pose proof (addSeeds_urls seeds Venom.initial HB0 eq_refl) as Hurls.
  destruct (addSeeds_frame seeds Venom.initial) as ((new & Hj & _ & Hids & Hus) & _ & _).
  destruct (enqueue_all_new 0 None high seeds Venom.initial)
    as (new' & Hj' & _ & _ & Hsub & Hall).
  fold (Venom.addSeeds seeds Venom.initial) in Hj', Hall.
  split.
  { intros u. rewrite Hurls. simpl. rewrite elem_of_nil. tauto. }
  split; [apply Hus; simpl; apply NoDup_nil_2|].
  split; [apply Hids; simpl; apply NoDup_nil_2|].
  split.
  { intros j Hin. rewrite Hj' in Hin. simpl in Hin. rewrite Forall_forall in Hall.
    destruct (Hall j Hin) as (? & ? & ? & ? & ? & ? & _). by repeat split. }
  split; [apply (bk_discovered _ _ (addSeeds_Books config seeds Venom.initial HB0))|].
  rewrite Hj'. simpl. rewrite <- (length_map url new'). by apply sublist_length.
Qed.

End Seeds.

Lemma seeds_become_root_jobs_witness :
  length (jobs (database (Venom.addSeeds ["https://a.com/"; "https://b.com/"; "https://a.com/"]
                            Venom.initial))) ≤ 3.
Proof.
  apply (seeds_become_root_jobs demo_config
           ["https://a.com/"; "https://b.com/"; "https://a.com/"]).
Defined.

(** ** The link extractor *)

Lemma endsWith_spec (suf s : string) :
  JsString.endsWith suf s = true ↔ ∃ pre, s = pre +:+ suf.
Proof.
  induction s as [|c s IH]; cbn [JsString.endsWith].
  - rewrite orb_false_r. split.
    + intros Heq%String.eqb_eq. exists "". by rewrite app_Empty.
    + intros [pre Hpre]. symmetry in Hpre. apply app_Empty_inv in Hpre as [_ ->]. done.
  - rewrite orb_true_iff, IH. split.
    + intros [Heq%String.eqb_eq|[pre Hpre]].
      * exists "". by rewrite app_Empty.
      * exists (String c pre). by rewrite app_String, Hpre.
    + intros [pre Hpre]. destruct pre as [|c' pre].
      * left. rewrite app_Empty in Hpre. rewrite Hpre. apply String.eqb_refl.
      * right. rewrite app_String in Hpre. injection Hpre as _ Hpre. by exists pre.
Qed.

Lemma substring_0_length (n : nat) (s : string) :
  String.length (String.substring 0 n s) ≤ n.
Proof.
  revert s. induction n as [|n IH]; intros s; destruct s as [|c s]; simpl; try lia.
  specialize (IH s). lia.
Qed.

Section LinkExtractor.

Context `{UrlPlatform}.
Variable trim : string → string.

Abbreviation collect := (HtmlProcessor.collect trim).
Abbreviation extractLinks := (HtmlProcessor.extractLinks trim).

Lemma collect_spec (domain : string) (anchors : list (string * string))
    (seen : gset string) :
  NoDup (map href (collect domain seen anchors)) ∧
  map href (collect domain seen anchors) `sublist_of` map fst anchors ∧
  (∀ h, h ∈ map href (collect domain seen anchors) ↔
        (h ∉ seen) ∧ h ∈ map fst anchors ∧ HtmlProcessor.skipped h = false ∧
        ∃ u, URL_new h = Normal u) ∧
  (∀ l, l ∈ collect domain seen anchors →
        String.length (text l) ≤ 200 ∧
        ∃ u, URL_new (href l) = Normal u ∧
             isInternal l = HtmlProcessor.is_internal domain u).
Proof.
  revert seen. induction anchors as [|[h t] rest IH]; intros seen.
  { simpl. split; [apply NoDup_nil_2|]. split; [done|]. split.
    - intros h. rewrite elem_of_nil. tauto.
    - intros l Hl. by apply elem_of_nil in Hl. }
  cbn [HtmlProcessor.collect map fst].
  destruct (HtmlProcessor.skipped h) eqn:Hskip.
  { destruct (IH seen) as (Hnd & Hsub & Hiff & Hall).
    split; [done|]. split; [by apply sublist_cons|]. split; [|done].
    intros h'. rewrite Hiff, elem_of_cons. split; [tauto|].
    intros (? & [->|?] & Hs & ?); [congruence|tauto]. }
  case_bool_decide as Hseen.
  { destruct (IH seen) as (Hnd & Hsub & Hiff & Hall).
    split; [done|]. split; [by apply sublist_cons|]. split; [|done].
    intros h'. rewrite Hiff, elem_of_cons. split; [tauto|].
    intros (Hn & [->|?] & Hs & ?); [done|tauto]. }
  destruct (IH ({[ h ]} ∪ seen)) as (Hnd & Hsub & Hiff & Hall).
  destruct (URL_new h) as [u|e] eqn:Hu.
  - cbn [map href]. split.
    { apply NoDup_cons. split; [|done]. intros Hin. apply Hiff in Hin as [Hn _].
      apply Hn, elem_of_union. left. by apply elem_of_singleton. }
    split; [by apply sublist_skip|]. split.
    + intros h'. rewrite !elem_of_cons, Hiff, not_elem_of_union, not_elem_of_singleton.
      split.
      * intros [->|((Hne & Hn) & ? & ? & ?)]; [eauto 10|tauto].
      * intros (Hn & [->|?] & Hs & Hp); [by left|].
        destruct (decide (h' = h)) as [->|Hne]; [by left|right; tauto].
    + intros l [->|Hl]%elem_of_cons; [|by apply Hall].
      cbn [text href isInternal]. split; [apply substring_0_length|eauto].
  - split; [done|]. split; [by apply sublist_cons|]. split; [|done].
    intros h'. rewrite Hiff, elem_of_cons, not_elem_of_union, not_elem_of_singleton.
    split; [tauto|].
    intros (Hn & [->|?] & Hs & [u Hp]); [congruence|].
    destruct (decide (h' = h)) as [->|Hne]; [congruence|eauto 10].
Qed.

(** X29. [extractLinks] throws exactly when the base URL does not parse.
    Otherwise it returns, in document order and once each, the anchors'
    hrefs that parse, are not empty and do not begin with [javascript:],
    [mailto:], [tel:] or [#].  The text of a link has at most 200
    characters, and a link is internal exactly when its hostname is the
    hostname of the base URL or ends with a dot followed by it. *)
Theorem extractLinks_keeps_each_parsable_href_once
    (anchors : list (string * string)) (baseUrl : string) :
  match URL_new baseUrl with
  | Throw e => extractLinks anchors baseUrl = Throw e
  | Normal base =>
      ∃ links,
        extractLinks anchors baseUrl = Normal links ∧
        NoDup (map href links) ∧
        map href links `sublist_of` map fst anchors ∧
        (∀ h, h ∈ map href links ↔
              h ∈ map fst anchors ∧ HtmlProcessor.skipped h = false ∧
              ∃ u, URL_new h = Normal u) ∧
        (∀ l, l ∈ links →
              String.length (text l) ≤ 200 ∧
              ∃ u, URL_new (href l) = Normal u ∧
                   (isInternal l = true ↔
                    Url.hostname u = Url.hostname base ∨
                    ∃ sub, Url.hostname u = sub +:+ "." +:+ Url.hostname base))
  end.
Proof.
  unfold HtmlProcessor.extractLinks.
  destruct (URL_new baseUrl) as [base|e]; simpl; [|done].
  destruct (collect_spec (Url.hostname base) anchors ∅) as (Hnd & Hsub & Hiff & Hall).
  eexists. split; [reflexivity|]. split; [done|]. split; [done|]. split.
  - intros h. rewrite Hiff. split; [tauto|]. intros ?. split; [apply not_elem_of_empty|done].
  - intros l Hl. destruct (Hall l Hl) as (Hlen & u & Hu & Hint).
    split; [done|]. exists u. split; [done|]. rewrite Hint.
    unfold HtmlProcessor.is_internal.
    rewrite orb_true_iff, String.eqb_eq, endsWith_spec. done.
Qed.

End LinkExtractor.

Lemma extractLinks_keeps_each_parsable_href_once_witness :
  ∃ links,
    HtmlProcessor.extractLinks (λ s, s)
      [("https://a.com/p", "one"); ("mailto:x@a.com", "mail"); ("https://a.com/p", "again");
       ("https://www.a.com/", "www"); ("https://xa.com/", "other")]
      "https://a.com/" = Normal links ∧
    map href links = ["https://a.com/p"; "https://www.a.com/"; "https://xa.com/"] ∧
    map isInternal links = [true; true; false].
Proof.
  pose proof (extractLinks_keeps_each_parsable_href_once (H := simple_platform) (λ s, s)
                [("https://a.com/p", "one"); ("mailto:x@a.com", "mail");
                 ("https://a.com/p", "again"); ("https://www.a.com/", "www");
                 ("https://xa.com/", "other")] "https://a.com/") as Hspec.
  change (URL_new "https://a.com/") with
    (Normal (mkURL "https" "" "" (Some "a.com") None "/" None [] None)) in Hspec.
  destruct Hspec as (links & Hl & _).
  exists links. split; [exact Hl|].
  vm_compute in Hl. injection Hl as <-. split; reflexivity.
Defined.

(** ** The captures of a crawl *)

Lemma NoDup_fmap_eq {A B} (f : A → B) (l : list A) (x y : A) :
  NoDup (map f l) → x ∈ l → y ∈ l → f x = f y → x = y.
Proof.
  intros Hnd Hx Hy Hf. induction l as [|z l IH]; [by apply elem_of_nil in Hx|].
  simpl in Hnd. apply NoDup_cons in Hnd as [Hz Hnd].
  apply elem_of_cons in Hx as [->|Hx], Hy as [->|Hy]; [done|..].
  - exfalso. apply Hz. rewrite Hf. by apply (list_elem_of_fmap_2 f).
  - exfalso. apply Hz. rewrite <- Hf. by apply (list_elem_of_fmap_2 f).
  - by apply IH.
Qed.

Lemma saveCapture_elem (c c0 : PageCapture) (db : Database) :
  c0 ∈ captures (VenomDatabase.saveCapture c db) ↔
  (capture_id c0 ≠ capture_id c ∧ normalizedUrl c0 ≠ normalizedUrl c ∧ c0 ∈ captures db) ∨
  c0 = c.
Proof.
  unfold VenomDatabase.saveCapture. cbn [captures].
  rewrite elem_of_app, list_elem_of_filter, list_elem_of_singleton. tauto.
Qed.

Lemma saveCapture_NoDup {B} (key : PageCapture → B) (c : PageCapture) (db : Database) :
  (∀ c0, c0 ∈ captures db → capture_id c0 ≠ capture_id c →
         normalizedUrl c0 ≠ normalizedUrl c → key c0 ≠ key c) →
  NoDup (map key (captures db)) →
  NoDup (map key (captures (VenomDatabase.saveCapture c db))).
Proof.
  intros Hkey Hnd. unfold VenomDatabase.saveCapture. cbn [captures].
  rewrite map_app. apply NoDup_app. split; [|split].
  - eapply sublist_NoDup; [exact Hnd|]. apply (fmap_sublist key), sublist_filter.
  - intros k Hk Hk'. apply list_elem_of_fmap in Hk as (y & -> & Hy).
    apply list_elem_of_singleton in Hk'.
    apply list_elem_of_filter in Hy as [[Hne1 Hne2] Hy]. by apply (Hkey y).
  - apply NoDup_singleton.
Qed.

Section ShelfFacts.

Context `{UrlPlatform}.
Variable config : CrawlerConfig.
Variable options : CrawlOptions.

Abbreviation exec := (Venom.exec config options).

Lemma Shelf_frame (s s' : State) :
  captures (database s') = captures (database s) →
  visitedUrls s ⊆ visitedUrls s' →
  (∀ t, t ∈ active s' → is_fetching (phase t) = true → t ∈ active s) →
  Shelf s → Shelf s'.
Proof.
  intros Hc Hv Ha [Hids Hurls Hvis Hfet]. split.
  - by rewrite Hc.
  - by rewrite Hc.
  - intros c Hin. rewrite Hc in Hin. destruct (Hvis c Hin) as [? ?]. split; [|done].
    by apply Hv.
  - intros t Ht Hph. destruct (Hfet t (Ha t Ht Hph) Hph) as (n & ? & ?).
    exists n. split; [done|]. by apply Hv.
Qed.

Lemma set_phase_fetching (i : nat) (ph : Phase) (s : State) (t : Task) :
  is_fetching ph = false → t ∈ active (Venom.set_phase i ph s) →
  is_fetching (phase t) = true → t ∈ active s.
Proof.
  intros Hph Ht Hf. simpl in Ht. apply list_elem_of_fmap in Ht as (t0 & -> & Ht0).
  destruct (job_id (task_job t0) =? i); [|done]. simpl in Hf. congruence.
Qed.

Lemma Shelf_finish_handler (job : CrawlJob) (s : State) (r : completion State) :
  Shelf s → (∀ s', r = Normal s' → Shelf s') → Shelf (Venom.finish_handler job s r).
Proof.
  intros HS Hr. destruct r as [s'|e]; simpl.
  - apply (Shelf_frame s'); [done|done| |by apply Hr].
    intros t. by apply set_phase_fetching.
  - apply (Shelf_frame s); [done|done| |done].
    intros t. by apply (set_phase_fetching _ _ (Venom.with_stats Venom.failed_one s)).
Qed.

Lemma follow_links_shelf (job : CrawlJob) (capture : PageCapture) (s s' : State) :
  Venom.follow_links config job capture s = Normal s' → Shelf s → Shelf s'.
Proof.
  intros Hf. pose proof (follow_links_control config job capture s s' Hf)
    as (Hv & _ & _ & _ & _ & Ha & _).
  apply Shelf_frame; [|by rewrite Hv|by rewrite Ha].
  revert Hf. unfold Venom.follow_links. destruct (_ <? _)%Z; [|by intros [= <-]].
  destruct (Crawler.getLinksToFollow _ _ _ _) as [found|e]; simpl; [|done].
  intros [= <-].
  by destruct (enqueue_all_new (depth job + 1) (Some (url job)) normal found s)
    as (new & _ & Hc & _).
Qed.

Local Opaque Venom.finish_handler.

Lemma exec_Shelf (e : Event) (s s' : State) :
  Inv (maxRetries options) s → Shelf s → exec e s = Some s' → Shelf s'.
Proof.
  intros HI HS. destruct e as [dt| | | |i|i|i msg|i found|i ok|i|i]; cbn [Venom.exec].
  - intros [= <-]. by apply (Shelf_frame s).
  - destruct (isProcessing s) eqn:Hp; [|done]. rewrite poll_fold. intros [= <-].
    apply (Shelf_frame s); [|done|done|done]. cbn [database].
    generalize (VenomDatabase.getPendingJobs 10 (database s)). intros batch.
    generalize (database s). induction batch as [|j batch IH]; intros db; [done|].
    unfold dispatch_all in *. cbn [foldl]. by rewrite IH.
  - destruct (_ && _); [|done]. intros [= <-]. by apply (Shelf_frame s).
  - destruct (queued s) as [|job rest]; [done|]. destruct (_ && _); [|done].
    destruct (Venom.limit_reached options s); intros [= <-];
      (apply (Shelf_frame s); [done|done| |done]); cbn [active];
      intros t [Ht| ->%list_elem_of_singleton]%elem_of_app; done.
  - destruct (Venom.find_task i s) as [[job []]|] eqn:Hft; try done.
    apply find_task_Some in Hft as [Hjob Hid].
    destruct (Crawler.markVisited _ _) as [v|m] eqn:Hmark; intros [= <-].
    + unfold Crawler.markVisited in Hmark.
      destruct (Crawler.normalizeUrl (url job)) as [n|] eqn:Hn; [|done].
      injection Hmark as <-. destruct HS as [Hids Hurls Hvis Hfet]. split.
      * done.
      * done.
      * intros c Hc. destruct (Hvis c Hc) as [? ?]. split; [|done].
        apply elem_of_union. by right.
      * intros t Ht Hph. simpl in Ht.
        apply list_elem_of_fmap in Ht as (t0 & -> & Ht0).
        destruct (Nat.eqb_spec (job_id (task_job t0)) i) as [Heq|Hne].
        -- assert (t0 = mkTask job Delaying) as ->.
           { apply (NoDup_fmap_eq (λ t, job_id (task_job t)) (active s)); [|done|done|].
             - pose proof (inv_inflight_ids _ _ HI) as Hnd. unfold inflight in Hnd.
               rewrite map_app in Hnd. apply NoDup_app in Hnd as (_ & _ & Hnd).
               by rewrite map_map in Hnd.
             - simpl. congruence. }
           exists n. split; [done|]. apply elem_of_union. left. by apply elem_of_singleton.
        -- destruct (Hfet t0 Ht0 Hph) as (n' & ? & ?). exists n'. split; [done|].
           apply elem_of_union. by right.
    + by apply Shelf_finish_handler.
  - destruct (Venom.find_task i s) as [[job []]|]; try done. intros [= <-].
    apply Shelf_finish_handler; [done|]. intros s' [= <-]. by apply (Shelf_frame s).
  - destruct (Venom.find_task i s) as [[job []]|]; try done. intros [= <-].
    by apply Shelf_finish_handler.
  - destruct (Venom.find_task i s) as [[job []]|] eqn:Hft; try done.
    apply find_task_Some in Hft as [Hjob Hid].
    destruct (Crawler.normalizeUrl (url job)) as [n|e1] eqn:Hn;
      destruct (Crawler.getDomain (url job)) as [d|e2].
    2-4: intros [= <-]; by apply Shelf_finish_handler.
    set (capture := mkCapture _ _ _ _ _ _). set (s1 := mkState _ _ _ _ _ _ _ _ _ _).
    assert (Shelf s1) as HS1.
    { destruct HS as [Hids Hurls Hvis Hfet]. split; subst s1; cbn [database visitedUrls active].
      - apply saveCapture_NoDup; [by intros|done].
      - apply saveCapture_NoDup; [by intros|done].
      - intros c [(_ & _ & Hc)| ->]%saveCapture_elem; [by apply Hvis|].
        subst capture. cbn [normalizedUrl capture_url]. split; [|done].
        destruct (Hfet (mkTask job Fetching) Hjob eq_refl) as (n' & Hn' & Hin).
        simpl in Hn'. congruence.
      - done. }
    destruct (_ && _); intros [= <-].
    + apply (Shelf_frame s1); [done|done| |done].
      intros t. by apply set_phase_fetching.
    + apply Shelf_finish_handler; [done|]. intros s2 Hs2. by eapply follow_links_shelf.
  - destruct (Venom.find_task i s) as [[job [| |capture| |]]|]; try done.
    intros [= <-].
    assert (Shelf (if ok then Venom.with_stats Venom.captioned s else s)) as HS1.
    { destruct ok; [|done]. by apply (Shelf_frame s). }
    apply Shelf_finish_handler; [done|]. intros s2 Hs2. by eapply follow_links_shelf.
  - destruct (Venom.find_task i s) as [[job []]|]; try done. intros [= <-].
    apply (Shelf_frame s); [done|done| |done].
    cbn [active Venom.remove_task Venom.with_active Venom.with_database].
    intros t Ht _. by apply list_elem_of_In, filter_In in Ht as [?%list_elem_of_In _].
  - destruct (Venom.find_task i s) as [[job [| | | |msg]]|]; try done. intros [= <-].
    apply (Shelf_frame s); [|done| |done].
    + cbn [database Venom.remove_task Venom.with_active Venom.with_database].
      unfold JobQueue.on_failure. by destruct (_ <? _).
    + cbn [active Venom.remove_task Venom.with_active Venom.with_database].
      intros t Ht _. by apply list_elem_of_In, filter_In in Ht as [?%list_elem_of_In _].
Qed.

Local Transparent Venom.finish_handler.

End ShelfFacts.

Section ShelfTheorems.

Context `{UrlPlatform}.
Variable config : CrawlerConfig.
Variable options : CrawlOptions.
Variable seeds : list string.

Abbreviation reachable := (Venom.reachable config options seeds).

Lemma reachable_Shelf (s : State) : reachable s → Shelf s.
Proof.
  revert s. apply (reachable_ind config options seeds Shelf).
  - destruct (enqueue_all_new 0 None high seeds Venom.initial) as (new & _ & Hc & Hv & _).
    destruct (addSeeds_frame seeds Venom.initial) as (_ & _ & Ha).
    fold (Venom.addSeeds seeds Venom.initial) in Hc, Hv.
    split; cbn [Venom.start_crawl database visitedUrls active]; rewrite ?Hc, ?Ha; simpl.
    + apply NoDup_nil_2.
    + apply NoDup_nil_2.
    + intros c Hin. by apply elem_of_nil in Hin.
    + intros t Hin. by apply elem_of_nil in Hin.
  - intros e s s' Hs HS He.
    eapply exec_Shelf; [|exact HS|exact He]. by eapply reachable_Inv.
Qed.


End ShelfTheorems.

Lemma demo_at_limit_captures : captures (database demo_at_limit) = [demo_page].
Proof. vm_compute. reflexivity. Qed.

